(** * Verification of the rover-mission visualisation client

    The client ([public/main.js], and the earlier iteration of it, here
    the module [Part000]) keeps the world model in module-level variables,
    mutates them from WebSocket and input callbacks, and redraws a fixed
    100 x 100 window of it on a 2D canvas.

    The embedding follows the code.  The module-level variables are the
    record [state]; the browser objects the scripts talk to (the canvas and
    its drawing state, the message feed, the agent list, the timers, the
    socket) are the rest of [world].  Every JavaScript function is a
    computation in the state-and-exception monad [M] over [world], written
    statement by statement, and every callback is an [event] of the event
    loop.  Decoded frames are typed as the wire protocol has them; numbers
    are integers.

    Layout: the model; the vocabulary of the statements; the model run on
    examples; then the proofs: what the handlers keep, what [render]
    paints, chunk loading and clamping, agents and hazards, the event
    loop, reset and reconnection, and the renderer. *)

From stdpp Require Import gmap strings list fin_maps pretty.
From Stdlib Require Import Ascii ZArith QArith Lia.

Open Scope Z_scope.

(** ** JSON values and JavaScript objects *)

(** The scalars a decoded JSON frame can hold.  Numbers are the integers
    (the doubles that the model covers); a property that is absent reads
    as [None], which is JavaScript's [undefined]. *)
Inductive value : Type :=
  | VNull
  | VBool (b : bool)
  | VNum (n : Z)
  | VStr (s : string).

#[global] Instance value_eq_dec : EqDecision value.
Proof. solve_decision. Defined.

(** A JavaScript object used as a record of named fields. *)
Abbreviation obj := (gmap string value).

(** [o.f] *)
Definition prop (o : obj) (f : string) : option value := o !! f.

(** [{ ...a, ...b }]: the fields of [b] replace the same-named fields of
    [a]; the other fields of [a] are kept. *)
Definition spread (a b : obj) : obj := b ∪ a.

(** [a === b] on property reads ([undefined === undefined] holds). *)
Definition strict_eq (a b : option value) : bool := bool_decide (a = b).

(** Truthiness, as in [if (v)] and [v || d]. *)
Definition truthy (v : option value) : bool :=
  match v with
  | None => false
  | Some VNull => false
  | Some (VBool b) => b
  | Some (VNum n) => negb (n =? 0)
  | Some (VStr s) => negb (bool_decide (s = ""))
  end.

(** [v || d] *)
Definition or_else (v : option value) (d : value) : value :=
  match v with
  | Some x => if truthy v then x else d
  | None => d
  end.

(** A JavaScript number of the model: an integer or [NaN] ([None]). *)
Abbreviation number := (option Z).

Definition digit (a : ascii) : option N :=
  let n := N_of_ascii a in
  if ((48 <=? n) && (n <=? 57))%N then Some (n - 48)%N else None.

Fixpoint parse_digits (s : string) (acc : N) : option N :=
  match s with
  | EmptyString => Some acc
  | String a r =>
      match digit a with
      | Some d => parse_digits r (10 * acc + d)%N
      | None => None
      end
  end.

(** [Number(s)]: the empty string is 0, an optional sign and decimal
    digits are that integer, and a string that spells no number is [NaN].
    (The other spellings of a number, with white space, a fraction, an
    exponent or a radix prefix, are not covered: they too read as [NaN]
    here.) *)
Definition StringToNumber (s : string) : number :=
  match s with
  | EmptyString => Some 0
  | String "-"%char (String a r) =>
      (λ n, - Z.of_N n) <$> parse_digits (String a r) 0
  | String "+"%char (String a r) => Z.of_N <$> parse_digits (String a r) 0
  | _ => Z.of_N <$> parse_digits s 0
  end.

(** The coercion applied by [>=], [<], [-], [*] and [Math.floor]. *)
Definition ToNumber (v : option value) : number :=
  match v with
  | None => None
  | Some VNull => Some 0
  | Some (VBool b) => Some (if b then 1 else 0)
  | Some (VNum n) => Some n
  | Some (VStr s) => StringToNumber s
  end.

(** [`${n}`] for a number. *)
Definition show_number (n : number) : string :=
  match n with
  | Some z => pretty z
  | None => "NaN"
  end.

(** [`${v}`] inside a template literal. *)
Definition show (v : option value) : string :=
  match v with
  | None => "undefined"
  | Some VNull => "null"
  | Some (VBool b) => if b then "true" else "false"
  | Some (VNum n) => pretty n
  | Some (VStr s) => s
  end.

(** [Math.floor] is the identity on the integers and keeps [NaN]. *)
Definition Math_floor (n : number) : number := n.

(** [a >= b], [a <= b] and [a < b] with a number on the right: false as
    soon as the left side is [NaN]. *)
Definition num_ge (a : number) (b : Z) : bool :=
  match a with Some x => b <=? x | None => false end.
Definition num_le (a : number) (b : Z) : bool :=
  match a with Some x => x <=? b | None => false end.
Definition num_lt (a : number) (b : Z) : bool :=
  match a with Some x => x <? b | None => false end.

(** ** Constants of the client *)

Definition CANVAS_SIZE_PX : Z := 600.
Definition MAP_SIZE_CELLS : Z := 1000.
Definition VIEWPORT_SIZE_CELLS : Z := 100.
Definition CELL_SIZE_PX : Z := CANVAS_SIZE_PX / VIEWPORT_SIZE_CELLS.
Definition maxReconnectDelay : Z := 5000.

(** ** Wire protocol *)

(** One element of [map_cells]: integer coordinates and the remaining
    fields ([terrain], [dust_storm], ...). *)
Record cell : Type := mkCell {
  cell_x : Z;
  cell_y : Z;
  cell_props : obj
}.

(** The object [{ ...cell }] stored in the cell table. *)
Definition cell_obj (c : cell) : obj :=
  <["x" := VNum (cell_x c)]> (<["y" := VNum (cell_y c)]> (cell_props c)).

(** The key [`${x},${y}`] of the cell table and of the explored set. *)
Definition cellKey (x y : Z) : string := pretty x +:+ "," +:+ pretty y.

(** A decoded inbound frame, by its [type] discriminator. *)
Inductive message : Type :=
  | full_map_init (map_cells : list cell)
  | update_map (map_cells : list cell)
  | map_cell_update (x y : Z) (updates : obj)
  | agent_update (agent : obj)
  | resource_discovered (resource : obj)
  | hazard_detected (hazard : obj)
  | cell_explored (x y : Z)
  | log_message (sender content : option value)
  | stats (st : obj)
  | simulation_started
  | simulation_stopped
  | simulation_paused
  | simulation_resumed
  | error (msg : option value)
  | unknown_type (type : string).

(** An outbound frame. *)
Inductive frame : Type :=
  | start_simulation (config_file : string)
  | request_stats_and_map_data
  | command (cmd : string) (agentId : option value)
  | pause_simulation
  | resume_simulation
  | stop_simulation.

(** [WebSocket.readyState] *)
Inductive readyState : Type := CONNECTING | OPEN | CLOSING | CLOSED.

#[global] Instance readyState_eq_dec : EqDecision readyState.
Proof. solve_decision. Defined.

(** ** The module-level variables

    One field per [let] of the script, and for each field the function
    that assigns to it. *)

Record state : Type := mkState {
  ws : option readyState;  (* [null] or the socket, by its readyState *)
  isRunning : bool;
  simulationStarted : bool;
  agents : list obj;
  resources : list obj;
  hazards : list obj;
  exploredCells : gset string;
  selectedAgent : option obj;
  mapCells : gmap string obj;
  mapMinX : Z;
  mapMinY : Z;
  mapMaxX : Z;
  mapMaxY : Z;
  viewportX : Z;
  viewportY : Z;
  isDragging : bool;
  lastMouseX : Z;
  lastMouseY : Z;
  reconnectAttempts : nat
}.

Definition set_ws (v : option readyState) (s : state) : state :=
  mkState v (isRunning s) (simulationStarted s) (agents s) (resources s)
    (hazards s) (exploredCells s) (selectedAgent s) (mapCells s)
    (mapMinX s) (mapMinY s) (mapMaxX s) (mapMaxY s) (viewportX s)
    (viewportY s) (isDragging s) (lastMouseX s) (lastMouseY s)
    (reconnectAttempts s).

Definition set_isRunning (v : bool) (s : state) : state :=
  mkState (ws s) v (simulationStarted s) (agents s) (resources s)
    (hazards s) (exploredCells s) (selectedAgent s) (mapCells s)
    (mapMinX s) (mapMinY s) (mapMaxX s) (mapMaxY s) (viewportX s)
    (viewportY s) (isDragging s) (lastMouseX s) (lastMouseY s)
    (reconnectAttempts s).

Definition set_simulationStarted (v : bool) (s : state) : state :=
  mkState (ws s) (isRunning s) v (agents s) (resources s) (hazards s)
    (exploredCells s) (selectedAgent s) (mapCells s) (mapMinX s)
    (mapMinY s) (mapMaxX s) (mapMaxY s) (viewportX s) (viewportY s)
    (isDragging s) (lastMouseX s) (lastMouseY s) (reconnectAttempts s).

Definition set_agents (v : list obj) (s : state) : state :=
  mkState (ws s) (isRunning s) (simulationStarted s) v (resources s)
    (hazards s) (exploredCells s) (selectedAgent s) (mapCells s)
    (mapMinX s) (mapMinY s) (mapMaxX s) (mapMaxY s) (viewportX s)
    (viewportY s) (isDragging s) (lastMouseX s) (lastMouseY s)
    (reconnectAttempts s).

Definition set_resources (v : list obj) (s : state) : state :=
  mkState (ws s) (isRunning s) (simulationStarted s) (agents s) v
    (hazards s) (exploredCells s) (selectedAgent s) (mapCells s)
    (mapMinX s) (mapMinY s) (mapMaxX s) (mapMaxY s) (viewportX s)
    (viewportY s) (isDragging s) (lastMouseX s) (lastMouseY s)
    (reconnectAttempts s).

Definition set_hazards (v : list obj) (s : state) : state :=
  mkState (ws s) (isRunning s) (simulationStarted s) (agents s)
    (resources s) v (exploredCells s) (selectedAgent s) (mapCells s)
    (mapMinX s) (mapMinY s) (mapMaxX s) (mapMaxY s) (viewportX s)
    (viewportY s) (isDragging s) (lastMouseX s) (lastMouseY s)
    (reconnectAttempts s).

Definition set_exploredCells (v : gset string) (s : state) : state :=
  mkState (ws s) (isRunning s) (simulationStarted s) (agents s)
    (resources s) (hazards s) v (selectedAgent s) (mapCells s)
    (mapMinX s) (mapMinY s) (mapMaxX s) (mapMaxY s) (viewportX s)
    (viewportY s) (isDragging s) (lastMouseX s) (lastMouseY s)
    (reconnectAttempts s).

Definition set_selectedAgent (v : option obj) (s : state) : state :=
  mkState (ws s) (isRunning s) (simulationStarted s) (agents s)
    (resources s) (hazards s) (exploredCells s) v (mapCells s)
    (mapMinX s) (mapMinY s) (mapMaxX s) (mapMaxY s) (viewportX s)
    (viewportY s) (isDragging s) (lastMouseX s) (lastMouseY s)
    (reconnectAttempts s).

Definition set_mapCells (v : gmap string obj) (s : state) : state :=
  mkState (ws s) (isRunning s) (simulationStarted s) (agents s)
    (resources s) (hazards s) (exploredCells s) (selectedAgent s) v
    (mapMinX s) (mapMinY s) (mapMaxX s) (mapMaxY s) (viewportX s)
    (viewportY s) (isDragging s) (lastMouseX s) (lastMouseY s)
    (reconnectAttempts s).

Definition set_mapMinX (v : Z) (s : state) : state :=
  mkState (ws s) (isRunning s) (simulationStarted s) (agents s)
    (resources s) (hazards s) (exploredCells s) (selectedAgent s)
    (mapCells s) v (mapMinY s) (mapMaxX s) (mapMaxY s) (viewportX s)
    (viewportY s) (isDragging s) (lastMouseX s) (lastMouseY s)
    (reconnectAttempts s).

Definition set_mapMinY (v : Z) (s : state) : state :=
  mkState (ws s) (isRunning s) (simulationStarted s) (agents s)
    (resources s) (hazards s) (exploredCells s) (selectedAgent s)
    (mapCells s) (mapMinX s) v (mapMaxX s) (mapMaxY s) (viewportX s)
    (viewportY s) (isDragging s) (lastMouseX s) (lastMouseY s)
    (reconnectAttempts s).

Definition set_mapMaxX (v : Z) (s : state) : state :=
  mkState (ws s) (isRunning s) (simulationStarted s) (agents s)
    (resources s) (hazards s) (exploredCells s) (selectedAgent s)
    (mapCells s) (mapMinX s) (mapMinY s) v (mapMaxY s) (viewportX s)
    (viewportY s) (isDragging s) (lastMouseX s) (lastMouseY s)
    (reconnectAttempts s).

Definition set_mapMaxY (v : Z) (s : state) : state :=
  mkState (ws s) (isRunning s) (simulationStarted s) (agents s)
    (resources s) (hazards s) (exploredCells s) (selectedAgent s)
    (mapCells s) (mapMinX s) (mapMinY s) (mapMaxX s) v (viewportX s)
    (viewportY s) (isDragging s) (lastMouseX s) (lastMouseY s)
    (reconnectAttempts s).

Definition set_viewportX (v : Z) (s : state) : state :=
  mkState (ws s) (isRunning s) (simulationStarted s) (agents s)
    (resources s) (hazards s) (exploredCells s) (selectedAgent s)
    (mapCells s) (mapMinX s) (mapMinY s) (mapMaxX s) (mapMaxY s) v
    (viewportY s) (isDragging s) (lastMouseX s) (lastMouseY s)
    (reconnectAttempts s).

Definition set_viewportY (v : Z) (s : state) : state :=
  mkState (ws s) (isRunning s) (simulationStarted s) (agents s)
    (resources s) (hazards s) (exploredCells s) (selectedAgent s)
    (mapCells s) (mapMinX s) (mapMinY s) (mapMaxX s) (mapMaxY s)
    (viewportX s) v (isDragging s) (lastMouseX s) (lastMouseY s)
    (reconnectAttempts s).

Definition set_isDragging (v : bool) (s : state) : state :=
  mkState (ws s) (isRunning s) (simulationStarted s) (agents s)
    (resources s) (hazards s) (exploredCells s) (selectedAgent s)
    (mapCells s) (mapMinX s) (mapMinY s) (mapMaxX s) (mapMaxY s)
    (viewportX s) (viewportY s) v (lastMouseX s) (lastMouseY s)
    (reconnectAttempts s).

Definition set_lastMouseX (v : Z) (s : state) : state :=
  mkState (ws s) (isRunning s) (simulationStarted s) (agents s)
    (resources s) (hazards s) (exploredCells s) (selectedAgent s)
    (mapCells s) (mapMinX s) (mapMinY s) (mapMaxX s) (mapMaxY s)
    (viewportX s) (viewportY s) (isDragging s) v (lastMouseY s)
    (reconnectAttempts s).

Definition set_lastMouseY (v : Z) (s : state) : state :=
  mkState (ws s) (isRunning s) (simulationStarted s) (agents s)
    (resources s) (hazards s) (exploredCells s) (selectedAgent s)
    (mapCells s) (mapMinX s) (mapMinY s) (mapMaxX s) (mapMaxY s)
    (viewportX s) (viewportY s) (isDragging s) (lastMouseX s) v
    (reconnectAttempts s).

Definition set_reconnectAttempts (v : nat) (s : state) : state :=
  mkState (ws s) (isRunning s) (simulationStarted s) (agents s)
    (resources s) (hazards s) (exploredCells s) (selectedAgent s)
    (mapCells s) (mapMinX s) (mapMinY s) (mapMaxX s) (mapMaxY s)
    (viewportX s) (viewportY s) (isDragging s) (lastMouseX s) (lastMouseY s)
    v.

(** The variables as the script leaves them when it is loaded. *)
Definition initial_state : state :=
  mkState None false false [] [] [] ∅ None ∅ 0 0 0 0 0 0 false 0 0 0%nat.

(** ** The browser objects the client talks to *)

(** Path-building calls on the 2D context; lengths are in pixels. *)
Inductive path_cmd : Type :=
  | MoveTo (x y : Q)
  | LineTo (x y : Q)
  | Rect (x y w h : Q)
  | Arc (x y r : Q)            (* arc(x, y, r, 0, 2 * Math.PI) *)
  | ClosePath.

(** What a painting call puts on the canvas, with the style in force. *)
Inductive paint : Type :=
  | ClearRect (x y w h : Q)
  | FillRect (style : string) (x y w h : Q)
  | Fill (style : string) (p : list path_cmd)
  | Stroke (style : string) (width : Q) (p : list path_cmd).

Record context2d : Type := mkContext {
  fillStyle : string;
  strokeStyle : string;
  lineWidth : Q;
  path : list path_cmd
}.

Definition set_fillStyle (v : string) (c : context2d) : context2d :=
  mkContext v (strokeStyle c) (lineWidth c) (path c).

Definition set_strokeStyle (v : string) (c : context2d) : context2d :=
  mkContext (fillStyle c) v (lineWidth c) (path c).

Definition set_lineWidth (v : Q) (c : context2d) : context2d :=
  mkContext (fillStyle c) (strokeStyle c) v (path c).

Definition set_path (v : list path_cmd) (c : context2d) : context2d :=
  mkContext (fillStyle c) (strokeStyle c) (lineWidth c) v.

Record world : Type := mkWorld {
  vars : state;            (* the module-level variables *)
  ctx : context2d;         (* the drawing state of the canvas *)
  canvas : list paint;     (* what has been painted, newest first *)
  messagesContainer : list (string * string);   (* the message feed *)
  agentsList : list obj;   (* the agent list: the agent of each item *)
  statusEl : string;       (* the text of the connection indicator *)
  timers : list Z;         (* the delays of the pending reconnect timers *)
  sent : list frame        (* the frames given to [ws.send], oldest first *)
}.

Definition set_vars (v : state) (w : world) : world :=
  mkWorld v (ctx w) (canvas w) (messagesContainer w) (agentsList w)
    (statusEl w) (timers w) (sent w).

Definition set_ctx (v : context2d) (w : world) : world :=
  mkWorld (vars w) v (canvas w) (messagesContainer w) (agentsList w)
    (statusEl w) (timers w) (sent w).

Definition set_canvas (v : list paint) (w : world) : world :=
  mkWorld (vars w) (ctx w) v (messagesContainer w) (agentsList w)
    (statusEl w) (timers w) (sent w).

Definition set_messagesContainer (v : list (string * string)) (w : world)
    : world :=
  mkWorld (vars w) (ctx w) (canvas w) v (agentsList w) (statusEl w)
    (timers w) (sent w).

Definition set_agentsList (v : list obj) (w : world) : world :=
  mkWorld (vars w) (ctx w) (canvas w) (messagesContainer w) v (statusEl w)
    (timers w) (sent w).

Definition set_statusEl (v : string) (w : world) : world :=
  mkWorld (vars w) (ctx w) (canvas w) (messagesContainer w) (agentsList w) v
    (timers w) (sent w).

Definition set_timers (v : list Z) (w : world) : world :=
  mkWorld (vars w) (ctx w) (canvas w) (messagesContainer w) (agentsList w)
    (statusEl w) v (sent w).

Definition set_sent (v : list frame) (w : world) : world :=
  mkWorld (vars w) (ctx w) (canvas w) (messagesContainer w) (agentsList w)
    (statusEl w) (timers w) v.

(** The colour literals that occur in the two scripts. *)
Definition literal_colors : list string :=
  [ "rgba(75, 85, 99, 0.3)"; "rgba(209, 213, 219, 0.2)";
    "rgba(30, 41, 59, 0.6)"; "rgba(59, 130, 246, 0.1)";
    "rgba(239, 181, 73, 0.7)"; "rgba(245, 158, 11, 0.4)";
    "rgba(239, 68, 68, 0.3)"; "rgba(245, 158, 11, 0.3)";
    "rgba(59, 130, 246, 0.9)"; "rgba(16, 185, 129, 0.3)";
    "#0f172a"; "#374151"; "#ffffff"; "#10b981"; "#8b5cf6" ].

(** The colour parser of the browser: assigning a string that is not a CSS
    colour to [fillStyle] or [strokeStyle] leaves the style as it was.  The
    literals of the scripts are CSS colours. *)
Class Browser : Type := {
  css_color : string → bool;
  css_color_literal : ∀ c, c ∈ literal_colors → css_color c = true
}.

(** ** The monad of the event handlers

    A handler runs to completion on the single event-loop thread: it takes
    the world, returns normally or throws, and leaves the world as it is at
    that point. *)

Inductive outcome (A : Type) : Type :=
  | Ok (a : A)
  | Throw (e : string).
Arguments Ok {A} a.
Arguments Throw {A} e.

Definition M (A : Type) : Type := world → outcome A * world.

#[global] Instance M_ret : MRet M := λ A a w, (Ok a, w).

#[global] Instance M_bind : MBind M := λ A B f m w,
  match m w with
  | (Ok a, w') => f a w'
  | (Throw e, w') => (Throw e, w')
  end.

(** The world a computation leaves, and whether it returned normally. *)
Definition exec {A} (m : M A) (w : world) : world := snd (m w).
Definition returns {A} (m : M A) (w : world) : Prop :=
  ∃ a, fst (m w) = Ok a.

Definition throw {A} (e : string) : M A := λ w, (Throw e, w).

(** Reading the variables, and assigning to one of them. *)
Definition get : M state := λ w, (Ok (vars w), w).
Definition assign {V} (set : V → state → state) (v : V) : M unit :=
  λ w, (Ok (), set_vars (set v (vars w)) w).

(** [l.forEach(f)] and counted [for] loops. *)
Fixpoint forEach {A} (l : list A) (f : A → M unit) : M unit :=
  match l with
  | [] => mret ()
  | a :: l' => f a;; forEach l' f
  end.

(** The integers [lo, lo + 1, ..., lo + n - 1]. *)
Definition range (lo : Z) (n : nat) : list Z :=
  (λ i : nat, lo + Z.of_nat i) <$> seq 0 n.

Definition when (b : bool) (m : M unit) : M unit :=
  if b then m else mret ().

(** ** Canvas and document primitives *)

Section Primitives.
Context `{!Browser}.

Definition px (z : Z) : Q := inject_Z z.

Definition modify_ctx (f : context2d → context2d) : M unit :=
  λ w, (Ok (), set_ctx (f (ctx w)) w).

Definition emit (p : context2d → paint) : M unit :=
  λ w, (Ok (), set_canvas (p (ctx w) :: canvas w) w).

(** [ctx.fillStyle = c] and [ctx.strokeStyle = c] *)
Definition ctx_fillStyle (c : string) : M unit :=
  modify_ctx (λ k, if css_color c then set_fillStyle c k else k).
Definition ctx_strokeStyle (c : string) : M unit :=
  modify_ctx (λ k, if css_color c then set_strokeStyle c k else k).

(** [agent.color || d], as the string that the style is assigned *)
Definition color_or (agent : obj) (d : string) : string :=
  show (Some (or_else (prop agent "color") (VStr d))).

(** [ctx.lineWidth = n], for the positive widths the scripts assign *)
Definition ctx_lineWidth (n : Q) : M unit := modify_ctx (set_lineWidth n).

Definition ctx_clearRect (x y w h : Q) : M unit :=
  emit (λ _, ClearRect x y w h).
Definition ctx_fillRect (x y w h : Q) : M unit :=
  emit (λ k, FillRect (fillStyle k) x y w h).

Definition ctx_beginPath : M unit := modify_ctx (set_path []).
Definition add_path (c : path_cmd) : M unit :=
  modify_ctx (λ k, set_path (path k ++ [c]) k).
Definition ctx_moveTo (x y : Q) : M unit := add_path (MoveTo x y).
Definition ctx_lineTo (x y : Q) : M unit := add_path (LineTo x y).
Definition ctx_rect (x y w h : Q) : M unit := add_path (Rect x y w h).
Definition ctx_closePath : M unit := add_path ClosePath.

(** [ctx.arc(x, y, r, 0, 2 * Math.PI)]: nothing happens when the radius
    is [NaN], and a negative radius raises [IndexSizeError]. *)
Definition ctx_arc (x y : Q) (r : option Q) : M unit :=
  match r with
  | None => mret ()
  | Some r =>
      if Qle_bool 0 r then add_path (Arc x y r) else throw "IndexSizeError"
  end.

Definition ctx_fill : M unit := emit (λ k, Fill (fillStyle k) (path k)).
Definition ctx_stroke : M unit :=
  emit (λ k, Stroke (strokeStyle k) (lineWidth k) (path k)).

(** [addMessage(sender, content)]: one entry appended to the feed (the
    time stamp of the entry is not kept). *)
Definition addMessage (sender content : string) : M unit :=
  λ w, (Ok (),
        set_messagesContainer (messagesContainer w ++ [(sender, content)]) w).

(** [statusEl.textContent = t] *)
Definition set_status (t : string) : M unit :=
  λ w, (Ok (), set_statusEl t w).

(** [setTimeout(connectWebSocket, delay)] *)
Definition setTimeout_connect (delay : Z) : M unit :=
  λ w, (Ok (), set_timers (timers w ++ [delay]) w).

(** [ws.send(JSON.stringify(f))] *)
Definition ws_send (f : frame) : M unit :=
  λ w, (Ok (), set_sent (sent w ++ [f]) w).

(** [ws && ws.readyState === WebSocket.OPEN] *)
Definition ws_is_open (s : state) : bool := bool_decide (ws s = Some OPEN).

(** [renderAgents()]: the list is rebuilt with one item per agent; each
    item keeps the agent object it was built from for its click handler. *)
Definition renderAgents : M unit :=
  λ w, (Ok (), set_agentsList (agents (vars w)) w).

End Primitives.

(** * The client, [public/main.js] *)

Module Main.
Section Client.
Context `{!Browser}.

(** ** Core rendering logic *)

(** The body of the two nested loops of [render], for one window cell. *)
Definition render_cell (vx vy : Z) : M unit :=
  s ← get;
  let worldX := viewportX s + vx in
  let worldY := viewportY s + vy in
  let key := cellKey worldX worldY in
  let drawX := px (vx * CELL_SIZE_PX) in
  let drawY := px (vy * CELL_SIZE_PX) in
  match mapCells s !! key with
  | Some cell =>
      let terrainColor :=
        if strict_eq (prop cell "terrain") (Some (VNum 1))
        then "rgba(209, 213, 219, 0.2)"
        else if strict_eq (prop cell "terrain") (Some (VNum (-1)))
        then "rgba(30, 41, 59, 0.6)"
        else "rgba(75, 85, 99, 0.3)" in
      ctx_fillStyle terrainColor;;
      ctx_fillRect drawX drawY (px CELL_SIZE_PX) (px CELL_SIZE_PX);;
      when (bool_decide (key ∈ exploredCells s))
        (ctx_fillStyle "rgba(59, 130, 246, 0.1)";;
         ctx_fillRect drawX drawY (px CELL_SIZE_PX) (px CELL_SIZE_PX));;
      when (truthy (prop cell "dust_storm"))
        (ctx_fillStyle "rgba(239, 181, 73, 0.7)";;
         ctx_fillRect drawX drawY (px CELL_SIZE_PX) (px CELL_SIZE_PX))
  | None =>
      ctx_fillStyle "#0f172a";;
      ctx_fillRect drawX drawY (px CELL_SIZE_PX) (px CELL_SIZE_PX)
  end.

(** One iteration of the grid loop: a vertical and a horizontal line. *)
Definition render_grid_line (i : Z) : M unit :=
  ctx_beginPath;;
  ctx_moveTo (px (i * CELL_SIZE_PX)) 0;;
  ctx_lineTo (px (i * CELL_SIZE_PX)) (px (VIEWPORT_SIZE_CELLS * CELL_SIZE_PX));;
  ctx_stroke;;
  ctx_beginPath;;
  ctx_moveTo 0 (px (i * CELL_SIZE_PX));;
  ctx_lineTo (px (VIEWPORT_SIZE_CELLS * CELL_SIZE_PX)) (px (i * CELL_SIZE_PX));;
  ctx_stroke.

(** [(agent.radius || 5) * CELL_SIZE_PX] *)
Definition radius_px (agent : obj) : option Q :=
  (λ r, px (r * CELL_SIZE_PX)) <$>
    ToNumber (Some (or_else (prop agent "radius") (VNum 5))).

(** The body of the loop over [[...resources, ...agents]]. *)
Definition render_item (item : obj) : M unit :=
  s ← get;
  let x := ToNumber (prop item "x") in
  let y := ToNumber (prop item "y") in
  if num_ge x (viewportX s) && num_lt x (viewportX s + VIEWPORT_SIZE_CELLS) &&
     num_ge y (viewportY s) && num_lt y (viewportY s + VIEWPORT_SIZE_CELLS)
  then
    let itemX := default 0 x in
    let itemY := default 0 y in
    let drawX :=
      (px ((itemX - viewportX s) * CELL_SIZE_PX) + px CELL_SIZE_PX / 2)%Q in
    let drawY :=
      (px ((itemY - viewportY s) * CELL_SIZE_PX) + px CELL_SIZE_PX / 2)%Q in
    let agent := item in
    ctx_fillStyle (color_or agent "#ffffff");;
    ctx_beginPath;;
    let shapeSize := px CELL_SIZE_PX in
    (if bool_decide (prop item "discovered" ≠ None) then
       ctx_fillStyle (if truthy (prop item "discovered")
                      then "rgba(59, 130, 246, 0.9)"
                      else "rgba(16, 185, 129, 0.3)");;
       ctx_beginPath;;
       ctx_arc drawX drawY (Some (px CELL_SIZE_PX * 0.4)%Q);;
       ctx_fill;;
       when (truthy (prop item "discovered"))
         (ctx_strokeStyle "#10b981";;
          ctx_lineWidth 2;;
          ctx_stroke)
     else if strict_eq (prop agent "type") (Some (VStr "rover")) then
       ctx_rect (drawX - shapeSize / 2)%Q (drawY - shapeSize / 2)%Q
                shapeSize shapeSize;;
       ctx_fill
     else if strict_eq (prop agent "type") (Some (VStr "drone")) then
       ctx_moveTo drawX (drawY - shapeSize / 2)%Q;;
       ctx_lineTo (drawX + shapeSize / 2)%Q (drawY + shapeSize / 2)%Q;;
       ctx_lineTo (drawX - shapeSize / 2)%Q (drawY + shapeSize / 2)%Q;;
       ctx_closePath;;
       ctx_fill;;
       ctx_strokeStyle (color_or agent "#8b5cf6");;
       ctx_lineWidth 2;;
       ctx_beginPath;;
       ctx_arc drawX drawY (radius_px agent);;
       ctx_stroke
     else if strict_eq (prop agent "type") (Some (VStr "base")) then
       ctx_strokeStyle (color_or agent "#8b5cf6");;
       ctx_lineWidth 2;;
       ctx_arc drawX drawY (radius_px agent);;
       ctx_stroke;;
       ctx_fillStyle (color_or agent "#8b5cf6");;
       ctx_beginPath;;
       ctx_arc drawX drawY (Some (px CELL_SIZE_PX * 0.3)%Q);;
       ctx_fill
     else mret ());;
    when (strict_eq (selectedAgent s ≫= λ a, prop a "id") (prop agent "id"))
      (ctx_strokeStyle "#ffffff";;
       ctx_lineWidth 2;;
       ctx_beginPath;;
       ctx_arc drawX drawY (Some (px CELL_SIZE_PX * 0.8)%Q);;
       ctx_stroke)
  else mret ().

Definition render : M unit :=
  ctx_clearRect 0 0 (px (VIEWPORT_SIZE_CELLS * CELL_SIZE_PX))
                    (px (VIEWPORT_SIZE_CELLS * CELL_SIZE_PX));;
  forEach (range 0 (Z.to_nat VIEWPORT_SIZE_CELLS)) (λ vx,
    forEach (range 0 (Z.to_nat VIEWPORT_SIZE_CELLS)) (λ vy,
      render_cell vx vy));;
  ctx_strokeStyle "#374151";;
  ctx_lineWidth 0.5;;
  forEach (range 0 (Z.to_nat VIEWPORT_SIZE_CELLS + 1)) render_grid_line;;
  s ← get;
  forEach (resources s ++ agents s) render_item.

(** ** WebSocket connection *)

(** [connectWebSocket()]: a fresh socket, still connecting.  (The
    constructor does not throw for the fixed URL, so the [catch] branch
    is not taken.) *)
Definition connectWebSocket : M unit :=
  assign set_ws (Some CONNECTING).

Definition onopen : M unit :=
  set_status "✓ Connected";;
  addMessage "System" "Connected to SPADE system";;
  assign set_reconnectAttempts 0%nat.

Definition onerror : M unit :=
  set_status "⚠ Connection Error".

(** The counter has just been incremented when the delay is computed, so
    the exponent is not negative and [Math.pow] is the integer power. *)
Definition onclose : M unit :=
  set_status "✗ Disconnected";;
  s ← get;
  assign set_reconnectAttempts (S (reconnectAttempts s));;
  s ← get;
  let delay :=
    Z.min (500 * 2 ^ (Z.of_nat (reconnectAttempts s) - 1)) maxReconnectDelay in
  setTimeout_connect delay.

(** ** Simulation start *)

Definition startSimulation : M unit :=
  addMessage "System" "Enter configuration file and confirm to start simulation".

(** [configFile] is the trimmed content of the input field. *)
Definition confirmStartSimulation (configFile : string) : M unit :=
  if bool_decide (configFile = "") then
    addMessage "System" "Error: Please enter a configuration file name"
  else
    s ← get;
    if ws_is_open s then
      ws_send (start_simulation configFile);;
      addMessage "System"
        ("Requesting simulation start with config: " +:+ configFile);;
      assign set_simulationStarted true;;
      ws_send request_stats_and_map_data
    else
      addMessage "System" "Error: Not connected to server".

Definition cancelStartSimulation : M unit :=
  addMessage "System" "Simulation start cancelled".

(** ** Map initialization and update *)

(** The body of the [forEach] of [initializeFullMap]. *)
Definition load_cell (cell : cell) : M unit :=
  let key := cellKey (cell_x cell) (cell_y cell) in
  s ← get;
  assign set_mapCells (<[key := cell_obj cell]> (mapCells s));;
  s ← get;
  assign set_mapMinX (Z.min (mapMinX s) (cell_x cell));;
  s ← get;
  assign set_mapMinY (Z.min (mapMinY s) (cell_y cell));;
  s ← get;
  assign set_mapMaxX (Z.max (mapMaxX s) (cell_x cell));;
  s ← get;
  assign set_mapMaxY (Z.max (mapMaxY s) (cell_y cell)).

Definition initializeFullMap (cells : list cell) : M unit :=
  assign set_mapCells ∅;;
  assign set_mapMinX MAP_SIZE_CELLS;;
  assign set_mapMinY MAP_SIZE_CELLS;;
  assign set_mapMaxX 0;;
  assign set_mapMaxY 0;;
  forEach cells load_cell;;
  s ← get;
  addMessage "System"
    ("Map data received (" +:+ pretty (length cells) +:+ " cells). Bounds: ("
       +:+ pretty (mapMinX s) +:+ ", " +:+ pretty (mapMinY s) +:+ ") to ("
       +:+ pretty (mapMaxX s) +:+ ", " +:+ pretty (mapMaxY s) +:+ ")");;
  when (bool_decide (0 < length cells)%nat)
    (s ← get;
     assign set_viewportX (mapMinX s);;
     s ← get;
     assign set_viewportY (mapMinY s);;
     s ← get;
     addMessage "System"
       ("Viewport locked to chunk origin: (" +:+ pretty (viewportX s)
          +:+ ", " +:+ pretty (viewportY s) +:+ ")"));;
  render.

Definition updateMapCell (x y : Z) (updates : obj) : M unit :=
  let key := cellKey x y in
  s ← get;
  match mapCells s !! key with
  | Some old =>
      assign set_mapCells (<[key := spread old updates]> (mapCells s));;
      render
  | None => mret ()
  end.

(** [agents.findIndex(a => a.id === id)] *)
Fixpoint findIndex (id : option value) (l : list obj) : option nat :=
  match l with
  | [] => None
  | a :: l' =>
      if strict_eq (prop a "id") id then Some 0%nat
      else S <$> findIndex id l'
  end.

Definition updateAgent (agentData : obj) : M unit :=
  s ← get;
  match findIndex (prop agentData "id") (agents s) with
  | Some index =>
      match agents s !! index with
      | Some old =>
          assign set_agents (<[index := spread old agentData]> (agents s))
      | None => mret ()
      end
  | None => assign set_agents (agents s ++ [agentData])
  end;;
  renderAgents;;
  render.

(** [l.find(r => r.id === id)], as it is used: found or not. *)
Definition find_id (id : option value) (l : list obj) : option obj :=
  List.find (λ r, strict_eq (prop r "id") id) l.

Definition addResource (resource : obj) : M unit :=
  s ← get;
  match find_id (prop resource "id") (resources s) with
  | None =>
      assign set_resources
        (resources s ++ [spread resource {["discovered" := VBool true]}]);;
      addMessage "Discovery"
        (show (prop resource "type") +:+ " found at ("
           +:+ show_number (Math_floor (ToNumber (prop resource "x"))) +:+ ", "
           +:+ show_number (Math_floor (ToNumber (prop resource "y"))) +:+ ")")
  | Some _ => mret ()
  end;;
  render.

Definition addHazard (hazard : obj) : M unit :=
  addMessage "Alert"
    ("Hazard: " +:+ show (prop hazard "id") +:+ " at ("
       +:+ show_number (Math_floor (ToNumber (prop hazard "x"))) +:+ ", "
       +:+ show_number (Math_floor (ToNumber (prop hazard "y"))) +:+ ")");;
  render.

Definition markCellExplored (x y : Z) : M unit :=
  s ← get;
  assign set_exploredCells ({[cellKey x y]} ∪ exploredCells s);;
  render.

Definition is_number (v : option value) : bool :=
  match v with Some (VNum _) => true | _ => false end.

(** [updateStats(stats)] only writes the statistics panel, which the model
    does not keep; it throws a [TypeError] when [toFixed] is called on
    something that is not a number or [Object.values] on [undefined] or
    [null]. *)
Definition updateStats (st : obj) : M unit :=
  if negb (is_number (prop st "terrainMapped")) then throw "TypeError"
  else if bool_decide (prop st "resourcesFound" = None
                       ∨ prop st "resourcesFound" = Some VNull)
  then throw "TypeError"
  else if negb (is_number (prop st "totalEnergy")) then throw "TypeError"
  else mret ().

Definition handleMessage (data : message) : M unit :=
  match data with
  | full_map_init map_cells => initializeFullMap map_cells
  | update_map map_cells => initializeFullMap map_cells
  | map_cell_update x y updates => updateMapCell x y updates
  | agent_update agent => updateAgent agent
  | resource_discovered resource => addResource resource
  | hazard_detected hazard => addHazard hazard
  | cell_explored x y => markCellExplored x y
  | log_message sender content => addMessage (show sender) (show content)
  | stats st => updateStats st
  | simulation_started =>
      addMessage "System" "Simulation started successfully"
  | simulation_stopped =>
      addMessage "System" "Simulation stopped";;
      assign set_simulationStarted false
  | simulation_paused => addMessage "System" "Simulation paused"
  | simulation_resumed => addMessage "System" "Simulation resumed"
  | error msg =>
      addMessage "Error"
        (show (Some (or_else msg (VStr "Unknown error occurred"))))
  | unknown_type _ => mret ()
  end.

(** [messagesList.innerHTML = ''] *)
Definition clearMessages : M unit :=
  λ w, (Ok (), set_messagesContainer [] w).

(** [agent.x >= mapMinX && agent.x <= mapMaxX && agent.y >= mapMinY &&
    agent.y <= mapMaxY] *)
Definition isOnMap (s : state) (agent : obj) : bool :=
  num_ge (ToNumber (prop agent "x")) (mapMinX s) &&
  num_le (ToNumber (prop agent "x")) (mapMaxX s) &&
  num_ge (ToNumber (prop agent "y")) (mapMinY s) &&
  num_le (ToNumber (prop agent "y")) (mapMaxY s).

Definition selectAgent (agent : obj) : M unit :=
  assign set_selectedAgent (Some agent);;
  s ← get;
  when (negb (isOnMap s agent))
    (addMessage "System"
       ("Agent " +:+ show (prop agent "id") +:+ " selected, but its position ("
          +:+ show_number (Math_floor (ToNumber (prop agent "x"))) +:+ ", "
          +:+ show_number (Math_floor (ToNumber (prop agent "y")))
          +:+ ") is outside the loaded map chunk ("
          +:+ pretty (mapMinX s) +:+ "-" +:+ pretty (mapMaxX s) +:+ ")."));;
  renderAgents;;
  render.

Definition sendCommand (cmd : string) : M unit :=
  s ← get;
  match selectedAgent s with
  | Some sel =>
      if ws_is_open s then
        ws_send (command cmd (prop sel "id"));;
        addMessage "Command"
          ("Sent: " +:+ cmd +:+ " to " +:+ show (prop sel "id"))
      else addMessage "System" "Not connected to SPADE - command ignored"
  | None => addMessage "System" "Not connected to SPADE - command ignored"
  end.

Definition toggleSimulation : M unit :=
  s ← get;
  if negb (simulationStarted s) then
    addMessage "System" "No simulation running"
  else
    assign set_isRunning (negb (isRunning s));;
    s ← get;
    if ws_is_open s then
      if isRunning s then
        ws_send resume_simulation;;
        addMessage "System" "Resuming simulation..."
      else
        ws_send pause_simulation;;
        addMessage "System" "Pausing simulation..."
    else addMessage "System" "Not connected to server".

(** [resetSimulation()] has no [await]: its body runs to the end in the
    call that starts it. *)
Definition resetSimulation : M unit :=
  s ← get;
  when (simulationStarted s && ws_is_open s)
    (ws_send stop_simulation;;
     addMessage "System" "Stopping simulation...");;
  assign set_agents [];;
  assign set_resources [];;
  assign set_exploredCells ∅;;
  assign set_mapCells ∅;;
  assign set_selectedAgent None;;
  assign set_viewportX 0;;
  assign set_viewportY 0;;
  assign set_mapMaxY 0;;
  assign set_mapMaxX 0;;
  assign set_mapMinY 0;;
  assign set_mapMinX 0;;
  assign set_simulationStarted false;;
  clearMessages;;
  renderAgents;;
  render;;
  addMessage "System" "Visualization reset".

(** ** Interaction handlers *)

Definition clampViewport (x y : Z) : M unit :=
  s ← get;
  let maxViewX := mapMaxX s - VIEWPORT_SIZE_CELLS + 1 in
  let maxViewY := mapMaxY s - VIEWPORT_SIZE_CELLS + 1 in
  let newX := Z.max (mapMinX s) (Z.min x maxViewX) in
  let newY := Z.max (mapMinY s) (Z.min y maxViewY) in
  let '(newX, newY) :=
    if (mapMaxX s =? 0) && (mapMinX s =? MAP_SIZE_CELLS)
    then (0, 0) else (newX, newY) in
  assign set_viewportX newX;;
  assign set_viewportY newY.

Definition mousedown (clientX clientY : Z) : M unit :=
  assign set_isDragging true;;
  assign set_lastMouseX clientX;;
  assign set_lastMouseY clientY.

Definition mouseup : M unit :=
  assign set_isDragging false.

Definition mousemove (clientX clientY : Z) : M unit :=
  s ← get;
  if negb (isDragging s) || (mapMaxX s =? 0) then mret ()
  else
    let deltaX := clientX - lastMouseX s in
    let deltaY := clientY - lastMouseY s in
    let cellStepX := deltaX / CELL_SIZE_PX in
    let cellStepY := deltaY / CELL_SIZE_PX in
    let potentialX := viewportX s - cellStepX in
    let potentialY := viewportY s - cellStepY in
    clampViewport potentialX potentialY;;
    assign set_lastMouseX clientX;;
    assign set_lastMouseY clientY;;
    render.

(** The click handler; [offsetX] and [offsetY] are [e.clientX - rect.left]
    and [e.clientY - rect.top]. *)
Definition click (offsetX offsetY : Z) : M unit :=
  s ← get;
  let viewportCellX := offsetX / CELL_SIZE_PX in
  let viewportCellY := offsetY / CELL_SIZE_PX in
  let worldX := viewportX s + viewportCellX in
  let worldY := viewportY s + viewportCellY in
  let clicked :=
    List.find (λ agent,
      bool_decide (Math_floor (ToNumber (prop agent "x")) = Some worldX) &&
      bool_decide (Math_floor (ToNumber (prop agent "y")) = Some worldY))
      (agents s) in
  match clicked with
  | Some agent => selectAgent agent
  | None => mret ()
  end.

Definition keydown (key : string) : M unit :=
  s ← get;
  if mapMaxX s =? 0 then mret ()
  else
    let step := 1 in
    let '(changed, potentialX, potentialY) :=
      if bool_decide (key = "ArrowRight")
      then (true, viewportX s + step, viewportY s)
      else if bool_decide (key = "ArrowLeft")
      then (true, viewportX s - step, viewportY s)
      else if bool_decide (key = "ArrowDown")
      then (true, viewportX s, viewportY s + step)
      else if bool_decide (key = "ArrowUp")
      then (true, viewportX s, viewportY s - step)
      else (false, viewportX s, viewportY s) in
    when changed
      (clampViewport potentialX potentialY;;
       render).

(** [window.onload] *)
Definition onload : M unit :=
  connectWebSocket;;
  render;;
  addMessage "System" "Visualization interface loaded".

(** ** The event loop *)

(** What the browser can deliver to the page. *)
Inductive event : Type :=
  | Load
  | Tick                                 (* setInterval(render, 100) *)
  | ReconnectTimer                       (* a pending setTimeout fires *)
  | WsOpen
  | WsMessage (data : message)
  | WsError
  | WsClose
  | MouseDown (clientX clientY : Z)
  | MouseUp
  | MouseMove (clientX clientY : Z)
  | Click (offsetX offsetY : Z)
  | KeyDown (key : string)
  | AgentItemClick (i : nat)             (* click on item i of the agent list *)
  | StartButton
  | ConfirmStart (configFile : string)
  | CancelStart
  | ToggleButton
  | ResetButton
  | CommandButton (cmd : string).

Definition handle (e : event) : M unit :=
  match e with
  | Load => onload
  | Tick => render
  | ReconnectTimer =>
      λ w, match timers w with
           | [] => (Ok (), w)
           | _ :: rest => connectWebSocket (set_timers rest w)
           end
  | WsOpen => assign set_ws (Some OPEN);; onopen
  | WsMessage data => handleMessage data
  | WsError => onerror
  | WsClose => assign set_ws (Some CLOSED);; onclose
  | MouseDown x y => mousedown x y
  | MouseUp => mouseup
  | MouseMove x y => mousemove x y
  | Click x y => click x y
  | KeyDown key => keydown key
  | AgentItemClick i =>
      λ w, match agentsList w !! i with
           | Some agent => selectAgent agent w
           | None => (Ok (), w)
           end
  | StartButton => startSimulation
  | ConfirmStart configFile => confirmStartSimulation configFile
  | CancelStart => cancelStartSimulation
  | ToggleButton => toggleSimulation
  | ResetButton => resetSimulation
  | CommandButton cmd => sendCommand cmd
  end.

(** One turn of the event loop: the handler runs to its end or to the
    exception that stops it. *)
Definition step (e : event) (w : world) : world := exec (handle e) w.

Definition run (es : list event) (w : world) : world :=
  foldl (λ w e, step e w) w es.

End Client.
End Main.

(** * The earlier iteration of the client

    It differs from [public/main.js] in how it treats hazards: they are
    a stored collection, drawn by [render] and cleared by
    [resetSimulation].  The variables [simulationStarted] and
    [reconnectAttempts] do not exist there and are never written. *)

Module Part000.
Section Client.
Context `{!Browser}.

Definition render_cell (vx vy : Z) : M unit :=
  s ← get;
  let worldX := viewportX s + vx in
  let worldY := viewportY s + vy in
  let key := cellKey worldX worldY in
  let drawX := px (vx * CELL_SIZE_PX) in
  let drawY := px (vy * CELL_SIZE_PX) in
  match mapCells s !! key with
  | Some cell =>
      let terrainColor :=
        if strict_eq (prop cell "terrain") (Some (VNum 1))
        then "rgba(209, 213, 219, 0.2)"
        else if strict_eq (prop cell "terrain") (Some (VNum (-1)))
        then "rgba(30, 41, 59, 0.6)"
        else "rgba(75, 85, 99, 0.3)" in
      let terrainColor :=
        if strict_eq (prop cell "dust_storm") (Some (VBool true))
        then "rgba(239, 181, 73, 0.7)"
        else terrainColor in
      ctx_fillStyle terrainColor;;
      ctx_fillRect drawX drawY (px CELL_SIZE_PX) (px CELL_SIZE_PX);;
      when (bool_decide (key ∈ exploredCells s))
        (ctx_fillStyle "rgba(59, 130, 246, 0.1)";;
         ctx_fillRect drawX drawY (px CELL_SIZE_PX) (px CELL_SIZE_PX));;
      when (truthy (prop cell "dust_storm"))
        (ctx_fillStyle "rgba(245, 158, 11, 0.4)";;
         ctx_fillRect drawX drawY (px CELL_SIZE_PX) (px CELL_SIZE_PX))
  | None =>
      ctx_fillStyle "#0f172a";;
      ctx_fillRect drawX drawY (px CELL_SIZE_PX) (px CELL_SIZE_PX)
  end.

(** [(item.radius || d) * CELL_SIZE_PX] *)
Definition radius_px (item : obj) (d : Z) : option Q :=
  (λ r, px (r * CELL_SIZE_PX)) <$>
    ToNumber (Some (or_else (prop item "radius") (VNum d))).

(** The body of the loop over [[...hazards, ...resources, ...agents]]. *)
Definition render_item (item : obj) : M unit :=
  s ← get;
  let x := ToNumber (prop item "x") in
  let y := ToNumber (prop item "y") in
  if num_ge x (viewportX s) && num_lt x (viewportX s + VIEWPORT_SIZE_CELLS) &&
     num_ge y (viewportY s) && num_lt y (viewportY s + VIEWPORT_SIZE_CELLS)
  then
    let itemX := default 0 x in
    let itemY := default 0 y in
    let drawX :=
      (px ((itemX - viewportX s) * CELL_SIZE_PX) + px CELL_SIZE_PX / 2)%Q in
    let drawY :=
      (px ((itemY - viewportY s) * CELL_SIZE_PX) + px CELL_SIZE_PX / 2)%Q in
    if strict_eq (prop item "type") (Some (VStr "storm")) ||
       strict_eq (prop item "type") (Some (VStr "rock"))
    then
      ctx_fillStyle (if strict_eq (prop item "type") (Some (VStr "storm"))
                     then "rgba(239, 68, 68, 0.3)"
                     else "rgba(245, 158, 11, 0.3)");;
      ctx_beginPath;;
      let radiusPx := radius_px item 1 in
      ctx_arc drawX drawY radiusPx;;
      ctx_fill
    else if bool_decide (prop item "discovered" ≠ None) then
      ctx_fillStyle (if truthy (prop item "discovered")
                     then "rgba(59, 130, 246, 0.9)"
                     else "rgba(16, 185, 129, 0.3)");;
      ctx_beginPath;;
      ctx_arc drawX drawY (Some (px CELL_SIZE_PX * 0.4)%Q);;
      ctx_fill;;
      when (truthy (prop item "discovered"))
        (ctx_strokeStyle "#10b981";;
         ctx_lineWidth 2;;
         ctx_stroke)
    else
      let agent := item in
      ctx_fillStyle (color_or agent "#ffffff");;
      ctx_beginPath;;
      let shapeSize := px CELL_SIZE_PX in
      (if strict_eq (prop agent "type") (Some (VStr "rover")) then
         ctx_rect (drawX - shapeSize / 2)%Q (drawY - shapeSize / 2)%Q
                  shapeSize shapeSize;;
         ctx_fill
       else if strict_eq (prop agent "type") (Some (VStr "drone")) then
         ctx_moveTo drawX (drawY - shapeSize / 2)%Q;;
         ctx_lineTo (drawX + shapeSize / 2)%Q (drawY + shapeSize / 2)%Q;;
         ctx_lineTo (drawX - shapeSize / 2)%Q (drawY + shapeSize / 2)%Q;;
         ctx_closePath;;
         ctx_fill
       else if strict_eq (prop agent "type") (Some (VStr "base")) then
         ctx_strokeStyle (color_or agent "#8b5cf6");;
         ctx_lineWidth 2;;
         ctx_arc drawX drawY (radius_px agent 5);;
         ctx_stroke;;
         ctx_fillStyle (color_or agent "#8b5cf6");;
         ctx_beginPath;;
         ctx_arc drawX drawY (Some (px CELL_SIZE_PX * 0.3)%Q);;
         ctx_fill
       else mret ());;
      when (strict_eq (selectedAgent s ≫= λ a, prop a "id") (prop agent "id"))
        (ctx_strokeStyle "#ffffff";;
         ctx_lineWidth 2;;
         ctx_beginPath;;
         ctx_arc drawX drawY (Some (px CELL_SIZE_PX * 0.8)%Q);;
         ctx_stroke)
  else mret ().

Definition render : M unit :=
  ctx_clearRect 0 0 (px (VIEWPORT_SIZE_CELLS * CELL_SIZE_PX))
                    (px (VIEWPORT_SIZE_CELLS * CELL_SIZE_PX));;
  forEach (range 0 (Z.to_nat VIEWPORT_SIZE_CELLS)) (λ vx,
    forEach (range 0 (Z.to_nat VIEWPORT_SIZE_CELLS)) (λ vy,
      render_cell vx vy));;
  ctx_strokeStyle "#374151";;
  ctx_lineWidth 0.5;;
  forEach (range 0 (Z.to_nat VIEWPORT_SIZE_CELLS + 1)) Main.render_grid_line;;
  s ← get;
  forEach (hazards s ++ resources s ++ agents s) render_item.

Definition addHazard (hazard : obj) : M unit :=
  s ← get;
  match Main.find_id (prop hazard "id") (hazards s) with
  | None =>
      assign set_hazards (hazards s ++ [hazard]);;
      addMessage "Alert"
        ("Hazard: " +:+ show (prop hazard "type") +:+ " at ("
           +:+ show_number (Math_floor (ToNumber (prop hazard "x"))) +:+ ", "
           +:+ show_number (Math_floor (ToNumber (prop hazard "y"))) +:+ ")")
  | Some _ => mret ()
  end;;
  render.

Definition resetSimulation : M unit :=
  assign set_agents [];;
  assign set_resources [];;
  assign set_hazards [];;
  assign set_exploredCells ∅;;
  assign set_mapCells ∅;;
  assign set_selectedAgent None;;
  assign set_viewportX 0;;
  assign set_viewportY 0;;
  assign set_mapMaxY 0;;
  assign set_mapMaxX 0;;
  assign set_mapMinY 0;;
  assign set_mapMinX 0;;
  Main.clearMessages;;
  renderAgents;;
  render;;
  addMessage "System" "Visualization reset".

Definition clampViewport (x y : Z) : M unit :=
  s ← get;
  let maxViewX := mapMaxX s - VIEWPORT_SIZE_CELLS + 1 in
  let maxViewY := mapMaxY s - VIEWPORT_SIZE_CELLS + 1 in
  let newX := Z.max (mapMinX s) (Z.min x maxViewX) in
  let newY := Z.max (mapMinY s) (Z.min y maxViewY) in
  let '(newX, newY) :=
    if (mapMaxX s =? 0) && (mapMinX s =? MAP_SIZE_CELLS)
    then (0, 0) else (newX, newY) in
  assign set_viewportX newX;;
  assign set_viewportY newY.

End Client.
End Part000.

(** A browser that accepts every string as a colour, to run the model. *)
#[global] Instance any_color : Browser :=
  {| css_color := λ _, true; css_color_literal := λ _ _, eq_refl |}.

Definition world0 : world :=
  mkWorld initial_state (mkContext "#000000" "#000000" 1 []) [] [] [] "" [] [].

Arguments Main.render : simpl never.
Arguments Part000.render : simpl never.
Arguments cellKey : simpl never.

(** * Vocabulary of the statements *)

(** ** Properties of the variables kept by a computation *)

(** [preserves I m]: running [m], to its end or to an exception, from
    variables that satisfy [I] leaves variables that satisfy [I]. *)
Definition preserves {A} (I : state → Prop) (m : M A) : Prop :=
  ∀ w, I (vars w) → I (vars (exec m w)).

(** [silent m]: [m] assigns to no variable. *)
Definition silent {A} (m : M A) : Prop :=
  ∀ w, vars (exec m w) = vars w.


(** ** What a computation paints *)

(** [acts s m o F]: from every world whose variables are [s], the
    computation [m] ends with outcome [o]; from the drawing state [c] it
    leaves the drawing state [(F c).1] and has painted [(F c).2] (newest
    first); it has touched nothing else. *)
Definition acts {A} (s : state) (m : M A) (o : outcome A)
    (F : context2d → context2d * list paint) : Prop :=
  ∀ w, vars w = s →
    m w = (o, set_ctx (F (ctx w)).1 (set_canvas ((F (ctx w)).2 ++ canvas w) w)).

(** The effect of one piece of drawing code followed by another. *)
Definition and_then (F1 F2 : context2d → context2d * list paint)
    : context2d → context2d * list paint :=
  λ c, let r1 := F1 c in let r2 := F2 r1.1 in (r2.1, r2.2 ++ r1.2).

(** [draws s m]: [m] reads the variables and the drawing state, writes
    the drawing state and paints; nothing else. *)
Definition draws {A} (s : state) (m : M A) : Prop :=
  ∃ o F, acts s m o F.

(** [paints s P m o f ops]: moreover, from a drawing state that satisfies
    [P], what [m] paints is [ops], whatever the drawing state was, and the
    drawing state is changed by [f]. *)
Definition paints {A} (s : state) (P : context2d → Prop) (m : M A)
    (o : outcome A) (f : context2d → context2d) (ops : list paint) : Prop :=
  ∀ w, vars w = s → P (ctx w) →
    m w = (o, set_ctx (f (ctx w)) (set_canvas (ops ++ canvas w) w)).

(** The drawing state in which the grid is stroked. *)
Definition grid_ready (c : context2d) : Prop :=
  strokeStyle c = "#374151" ∧ lineWidth c = 0.5%Q.

(** A world with the variables [s], a fresh canvas and an empty page. *)
Definition blank (s : state) : world :=
  mkWorld s (mkContext "#000000" "#000000" 1 []) [] [] [] "" [] [].

(** What [render] paints for the variables [s]: the picture of [s],
    newest paint first. *)
Definition picture (render : M unit) (s : state) : list paint :=
  canvas (exec render (blank s)).

(** ** Chunk loading *)

(** The variables with the cell table and the bounds replaced. *)
Definition with_chunk (m : gmap string obj) (minX minY maxX maxY : Z)
    (s : state) : state :=
  set_mapMaxY maxY (set_mapMaxX maxX (set_mapMinY minY (set_mapMinX minX
    (set_mapCells m s)))).

(** The key of a listed cell. *)
Definition key_of (c : cell) : string := cellKey (cell_x c) (cell_y c).

(** The listed cell that a key ends up with: the last one listed under
    that key. *)
Definition listed (cells : list cell) (k : string) : option cell :=
  last (filter (λ c, key_of c = k) cells).

(** The variables after a chunk has been loaded: the new table and
    bounds, and the new origin when the chunk is not empty. *)
Definition loaded (cells : list cell) (s : state) : state :=
  let s1 :=
    with_chunk
      (foldl (λ m c, <[key_of c := cell_obj c]> m) ∅ cells)
      (foldl (λ a c, Z.min a (cell_x c)) MAP_SIZE_CELLS cells)
      (foldl (λ a c, Z.min a (cell_y c)) MAP_SIZE_CELLS cells)
      (foldl (λ a c, Z.max a (cell_x c)) 0 cells)
      (foldl (λ a c, Z.max a (cell_y c)) 0 cells)
      s in
  match cells with
  | [] => s1
  | _ :: _ => set_viewportY (mapMinY s1) (set_viewportX (mapMinX s1) s1)
  end.

(** [m] is the least, respectively the greatest, element of [l]. *)
Definition is_minimum (m : Z) (l : list Z) : Prop :=
  m ∈ l ∧ ∀ x, x ∈ l → m ≤ x.
Definition is_maximum (m : Z) (l : list Z) : Prop :=
  m ∈ l ∧ ∀ x, x ∈ l → x ≤ m.

(** The cell lies on the simulated map. *)
Definition on_map (c : cell) : Prop :=
  0 ≤ cell_x c ≤ MAP_SIZE_CELLS ∧ 0 ≤ cell_y c ≤ MAP_SIZE_CELLS.

(** The viewport origin is where [clampViewport] leaves it: clamping the
    current origin changes nothing. *)
Definition clamped `{!Browser} (w : world) : Prop :=
  Main.clampViewport (viewportX (vars w)) (viewportY (vars w)) w = (Ok (), w).

(** The origin of the viewport. *)
Definition origin (w : world) : Z * Z :=
  (viewportX (vars w), viewportY (vars w)).

(** The chunk of the scenario: the 100 x 100 cells with x and y from 200
    to 299, row after row. *)
Definition chunk_200_299 : list cell :=
  x ← range 200 100; y ← range 200 100;
  [mkCell x y {["terrain" := VNum 0]}].

(** ** Events *)

(** The event is a map message, respectively one that carries cells. *)
Definition chunk_message (e : Main.event) : bool :=
  match e with
  | Main.WsMessage (full_map_init _) | Main.WsMessage (update_map _) => true
  | _ => false
  end.
Definition loads_chunk (e : Main.event) : bool :=
  match e with
  | Main.WsMessage (full_map_init (_ :: _))
  | Main.WsMessage (update_map (_ :: _)) => true
  | _ => false
  end.

(** No chunk is loaded: both maxima are 0, the minima are both 0 or both
    at the sentinel [MAP_SIZE_CELLS], and the origin is (0, 0). *)
Definition unloaded (s : state) : Prop :=
  ((mapMinX s = 0 ∧ mapMinY s = 0) ∨
   (mapMinX s = MAP_SIZE_CELLS ∧ mapMinY s = MAP_SIZE_CELLS)) ∧
  mapMaxX s = 0 ∧ mapMaxY s = 0 ∧ viewportX s = 0 ∧ viewportY s = 0.

(** The four bounds are 0. *)
Definition zero_bounds (s : state) : Prop :=
  mapMinX s = 0 ∧ mapMinY s = 0 ∧ mapMaxX s = 0 ∧ mapMaxY s = 0.

(** Every collection is empty, nothing is selected, the bounds are 0 and
    the origin is (0, 0). *)
Definition cleared (s : state) : Prop :=
  agents s = [] ∧ resources s = [] ∧ hazards s = [] ∧
  exploredCells s = ∅ ∧ mapCells s = ∅ ∧ selectedAgent s = None ∧
  zero_bounds s ∧ viewportX s = 0 ∧ viewportY s = 0.

(** The event is neither the opening nor the closing of the socket. *)
Definition keeps_socket (e : Main.event) : bool :=
  match e with
  | Main.WsOpen | Main.WsClose => false
  | _ => true
  end.

(** The delay scheduled by the [k]-th close in a row. *)
Definition backoff (k : nat) : Z :=
  Z.min (500 * 2 ^ (Z.of_nat k - 1)) 5000.

(** The string has no comma. *)
Fixpoint no_comma (s : string) : Prop :=
  match s with
  | EmptyString => True
  | String a r => a ≠ ","%char ∧ no_comma r
  end.

(** The last cell listed at the coordinates (x, y). *)
Definition listed_at (cells : list cell) (x y : Z) : option cell :=
  last (filter (λ c, cell_x c = x ∧ cell_y c = y) cells).

(** * Vocabulary of the further properties *)

(** ** Properties of the whole page kept by a computation *)

(** [keeps J m]: running [m], to its end or to an exception, from a world
    that satisfies [J] leaves a world that satisfies [J]. *)
Definition keeps {A} (J : world → Prop) (m : M A) : Prop :=
  ∀ w, J w → J (exec m w).

(** [J] does not depend on the canvas and its drawing state. *)
Definition off_canvas (J : world → Prop) : Prop :=
  ∀ c l w, J w → J (set_ctx c (set_canvas l w)).

(** The events that can hand a frame to the socket: the four buttons. *)
Definition button_that_sends (e : Main.event) : bool :=
  match e with
  | Main.CommandButton _ | Main.ConfirmStart _ | Main.ToggleButton
  | Main.ResetButton => true
  | _ => false
  end.

(** The event is a press of the pause/resume button, respectively of the
    reset button. *)
Definition toggles (e : Main.event) : bool :=
  match e with Main.ToggleButton => true | _ => false end.
Definition resets (e : Main.event) : bool :=
  match e with Main.ResetButton => true | _ => false end.

(** The events of the socket and of its reconnect timer. *)
Definition socket_event (e : Main.event) : bool :=
  match e with
  | Main.WsOpen | Main.WsClose | Main.WsError | Main.ReconnectTimer => true
  | _ => false
  end.

(** ** Stored entities *)

(** The ids of a list of agents or resources, in the order of the list. *)
Definition ids (l : list obj) : list (option value) :=
  (λ a, prop a "id") <$> l.

(** The messages that write the agents, the resources or the explored
    set. *)
Definition entity_message (e : Main.event) : bool :=
  match e with
  | Main.WsMessage (agent_update _)
  | Main.WsMessage (resource_discovered _)
  | Main.WsMessage (cell_explored _ _) => true
  | _ => false
  end.

(** The agent is at the world cell (x, y). *)
Definition at_cell (a : obj) (x y : Z) : Prop :=
  Math_floor (ToNumber (prop a "x")) = Some x ∧
  Math_floor (ToNumber (prop a "y")) = Some y.

(** ** Panning *)

(** The sentinel test of [clampViewport]: no chunk has been loaded since
    the bounds were put at their start values. *)
Definition sentinel (s : state) : bool :=
  (mapMaxX s =? 0) && (mapMinX s =? MAP_SIZE_CELLS).

(** The direction of an arrow key, in cells. *)
Definition arrow (key : string) : option (Z * Z) :=
  if bool_decide (key = "ArrowRight") then Some (1, 0)
  else if bool_decide (key = "ArrowLeft") then Some (-1, 0)
  else if bool_decide (key = "ArrowDown") then Some (0, 1)
  else if bool_decide (key = "ArrowUp") then Some (0, -1)
  else None.

(** A path of the mouse, as the positions of its [mousemove] events, on
    which every position is less than one cell to the right of and below
    the position before it, (x, y) being the position before the first. *)
Fixpoint slow_path (x y : Z) (ps : list (Z * Z)) : Prop :=
  match ps with
  | [] => True
  | p :: ps =>
      0 ≤ p.1 - x < CELL_SIZE_PX ∧ 0 ≤ p.2 - y < CELL_SIZE_PX ∧
      slow_path p.1 p.2 ps
  end.

(** The events of the mouse on the canvas and of the keyboard, and the
    redraw timer. *)
Definition pan_input (e : Main.event) : bool :=
  match e with
  | Main.MouseDown _ _ | Main.MouseUp | Main.MouseMove _ _ | Main.KeyDown _
  | Main.Tick => true
  | _ => false
  end.

(** ** What [render] reads and how it ends *)

(** The test of [render] for an item: its position is a number on both
    axes and lies in the window. *)
Definition in_view (s : state) (item : obj) : bool :=
  num_ge (ToNumber (prop item "x")) (viewportX s) &&
  num_lt (ToNumber (prop item "x")) (viewportX s + VIEWPORT_SIZE_CELLS) &&
  num_ge (ToNumber (prop item "y")) (viewportY s) &&
  num_lt (ToNumber (prop item "y")) (viewportY s + VIEWPORT_SIZE_CELLS).

(** [render] draws a circle of the radius of the item: the item is in
    view, is not drawn as a resource, and is a drone or a base. *)
Definition draws_radius (s : state) (item : obj) : bool :=
  in_view s item &&
  negb (bool_decide (prop item "discovered" ≠ None)) &&
  (strict_eq (prop item "type") (Some (VStr "drone")) ||
   strict_eq (prop item "type") (Some (VStr "base"))).

(** [(item.radius || 5) * CELL_SIZE_PX] is a negative number. *)
Definition negative_radius (item : obj) : bool :=
  match Main.radius_px item with
  | Some r => negb (Qle_bool 0 r)
  | None => false
  end.

(** In the earlier client [render] draws a circle of a radius of the item
    that is negative: the item is in view and either has the type of a
    hazard, or is not drawn as a resource and is a base. *)
Definition Part000_negative_radius (s : state) (item : obj) : bool :=
  in_view s item &&
  (if strict_eq (prop item "type") (Some (VStr "storm")) ||
      strict_eq (prop item "type") (Some (VStr "rock"))
   then match Part000.radius_px item 1 with
        | Some r => negb (Qle_bool 0 r)
        | None => false
        end
   else negb (bool_decide (prop item "discovered" ≠ None)) &&
        strict_eq (prop item "type") (Some (VStr "base")) &&
        match Part000.radius_px item 5 with
        | Some r => negb (Qle_bool 0 r)
        | None => false
        end).

(** [finishes s m o]: from variables [s], the drawing code [m] ends with
    the outcome [o], whatever the canvas. *)
Definition finishes {A} (s : state) (m : M A) (o : outcome A) : Prop :=
  ∃ F, acts s m o F.

(** The variables [s'] show [render] what [s] shows it: the origin, the
    cell table, the explored set, the resources, the agents and the id of
    the selected agent are the same. *)
Definition same_view (s s' : state) : Prop :=
  viewportX s' = viewportX s ∧ viewportY s' = viewportY s ∧
  mapCells s' = mapCells s ∧ exploredCells s' = exploredCells s ∧
  resources s' = resources s ∧ agents s' = agents s ∧
  (selectedAgent s' ≫= λ a, prop a "id") = (selectedAgent s ≫= λ a, prop a "id").

(** [transfers s s' m m']: what [m] does from a world with the variables
    [s], [m'] does from the same world with the variables [s'], and
    neither writes a variable. *)
Definition transfers {A} (s s' : state) (m m' : M A) : Prop :=
  ∀ w, vars w = s →
    m' (set_vars s' w) = (fst (m w), set_vars s' (snd (m w))) ∧
    vars (snd (m w)) = s.

(** ** What [render] paints for a window cell *)

(** The square of the window cell (vx, vy), filled with a colour. *)
Definition cell_rect (vx vy : Z) (color : string) : paint :=
  FillRect color (px (vx * CELL_SIZE_PX)) (px (vy * CELL_SIZE_PX))
    (px CELL_SIZE_PX) (px CELL_SIZE_PX).

(** The paints of the window cell (vx, vy), in the order in which they
    are laid on: for a cell of the table the terrain colour, then the
    explored overlay, then the dust storm overlay; for a coordinate that
    is not in the table the background. *)
Definition cell_paints (s : state) (vx vy : Z) : list paint :=
  let key := cellKey (viewportX s + vx) (viewportY s + vy) in
  match mapCells s !! key with
  | Some cell =>
      [cell_rect vx vy
         (if strict_eq (prop cell "terrain") (Some (VNum 1))
          then "rgba(209, 213, 219, 0.2)"
          else if strict_eq (prop cell "terrain") (Some (VNum (-1)))
          then "rgba(30, 41, 59, 0.6)"
          else "rgba(75, 85, 99, 0.3)")] ++
      (if bool_decide (key ∈ exploredCells s)
       then [cell_rect vx vy "rgba(59, 130, 246, 0.1)"] else []) ++
      (if truthy (prop cell "dust_storm")
       then [cell_rect vx vy "rgba(239, 181, 73, 0.7)"] else [])
  | None => [cell_rect vx vy "#0f172a"]
  end.

(** The paints [ps], laid on in this order one right after the other,
    are on the canvas. *)
Definition laid_on (ps : list paint) (cv : list paint) : Prop :=
  ∃ after before, cv = after ++ rev ps ++ before.

(** ** The selection ring *)

(** The centre of the square of the window cell that an item stands on,
    in pixels. *)
Definition item_centre (s : state) (item : obj) : Q * Q :=
  let itemX := default 0 (ToNumber (prop item "x")) in
  let itemY := default 0 (ToNumber (prop item "y")) in
  ((px ((itemX - viewportX s) * CELL_SIZE_PX) + px CELL_SIZE_PX / 2)%Q,
   (px ((itemY - viewportY s) * CELL_SIZE_PX) + px CELL_SIZE_PX / 2)%Q).

(** The selection highlight of an item: a white circle of width 2 around
    the centre of its cell, of 0.8 times the cell size. *)
Definition selection_ring (s : state) (item : obj) : paint :=
  Stroke "#ffffff" 2
    [Arc (item_centre s item).1 (item_centre s item).2
         (px CELL_SIZE_PX * 0.8)%Q].

(** The id of the item is the id of the selection, in the sense of
    [selectedAgent?.id === item.id]: with nothing selected, and with an
    agent without id selected, the left side is [undefined]. *)
Definition selected (s : state) (item : obj) : bool :=
  strict_eq (selectedAgent s ≫= λ a, prop a "id") (prop item "id").

(** * The model at work *)

Example cellKey_example : cellKey 200 (-3) = "200,-3".
Proof. reflexivity. Qed.

Example StringToNumber_examples :
  StringToNumber "-12" = Some (-12) ∧ StringToNumber "" = Some 0 ∧
  StringToNumber "12px" = None ∧ StringToNumber "-" = None.
Proof. repeat split. Qed.

Example spread_example :
  spread {["x" := VNum 1; "terrain" := VNum 0]} {["terrain" := VNum 1]}
    = {["x" := VNum 1; "terrain" := VNum 1]}.
Proof. vm_compute. reflexivity. Qed.

(** Loading one cell: the two log entries of [initializeFullMap]. *)
Example initializeFullMap_log :
  messagesContainer
    (exec (Main.initializeFullMap [mkCell 5 5 {["terrain" := VNum 1]}]) world0)
  = [ ("System", "Map data received (1 cells). Bounds: (5, 5) to (5, 5)");
      ("System", "Viewport locked to chunk origin: (5, 5)") ].
Proof. vm_compute. reflexivity. Qed.

(** The picture of the initial variables: the clearing, 100 x 100 cell
    backgrounds and 2 x 101 grid lines. *)
Example picture_initial :
  Z.of_nat (length (picture Main.render initial_state)) = 10203 ∧
  last (picture Main.render initial_state) = Some (ClearRect 0 0 600 600).
Proof. vm_compute. split; reflexivity. Qed.

(** A drone in view with a negative radius stops [render]. *)
Example render_negative_radius_throws :
  fst (Main.render
         (blank (set_agents
                   [{["x" := VNum 3; "y" := VNum 4; "type" := VStr "drone";
                      "radius" := VNum (-1)]}]
                   initial_state)))
  = Throw "IndexSizeError".
Proof. vm_compute. reflexivity. Qed.

(** A drag by 13 pixels to the left moves a loaded 300-cell-wide map by
    three cells (the step is [Math.floor(-13 / 6) = -3]). *)
Example drag_example :
  let wide := [mkCell 0 0 ∅; mkCell 299 299 ∅] in
  let w := exec
    (Main.initializeFullMap wide;; Main.mousedown 100 100;;
     Main.mousemove 87 100) world0 in
  origin w = (3, 0).
Proof. vm_compute. reflexivity. Qed.

(** Two updates without an id meet in one agent. *)
Example agent_update_battery_example :
  agents (vars (exec
    (Main.handleMessage (agent_update {["battery" := VNum 40]});;
     Main.handleMessage
       (agent_update {["battery" := VNum 30; "status" := VStr "ok"]}))
    world0))
  = [ {["battery" := VNum 30; "status" := VStr "ok"]} ].
Proof. vm_compute. reflexivity. Qed.

(** * Proofs *)

(** ** Running computations *)

Lemma exec_bind {A B} (m : M A) (f : A → M B) (w : world) :
  exec (m ≫= f) w =
  match fst (m w) with
  | Ok a => exec (f a) (exec m w)
  | Throw _ => exec m w
  end.
Proof.
  unfold exec, mbind, M_bind. destruct (m w) as [[a|e] w']; reflexivity.
Qed.

Lemma run_bind_ok {A B} (m : M A) (f : A → M B) (w w' : world) (a : A) :
  m w = (Ok a, w') → (m ≫= f) w = f a w'.
Proof. intros E. unfold mbind, M_bind. rewrite E. reflexivity. Qed.

Lemma run_bind_throw {A B} (m : M A) (f : A → M B) (w w' : world) e :
  m w = (Throw e, w') → (m ≫= f) w = (Throw e, w').
Proof. intros E. unfold mbind, M_bind. rewrite E. reflexivity. Qed.

(** Normalises a world built from setters and projections. *)
Ltac world_simpl :=
  cbv [
       ws isRunning simulationStarted agents resources hazards
       exploredCells selectedAgent mapCells mapMinX mapMinY mapMaxX
       mapMaxY viewportX viewportY isDragging lastMouseX lastMouseY
       reconnectAttempts set_ws set_isRunning set_simulationStarted
       set_agents set_resources set_hazards set_exploredCells
       set_selectedAgent set_mapCells set_mapMinX set_mapMinY
       set_mapMaxX set_mapMaxY set_viewportX set_viewportY
       set_isDragging set_lastMouseX set_lastMouseY
       set_reconnectAttempts vars ctx canvas messagesContainer
       agentsList statusEl timers sent set_vars set_ctx set_canvas
       set_messagesContainer set_agentsList set_statusEl set_timers
       set_sent with_chunk ].

(** Runs the first call of a sequence when it is a primitive. *)
Ltac run_prim := erewrite run_bind_ok; [|reflexivity]; world_simpl.

(** ** Properties of the variables kept by a computation *)

Section Preserves.
Context `{!Browser}.
Context (I : state → Prop).

Lemma silent_preserves {A} (m : M A) : silent m → preserves I m.
Proof. intros Hm w Hw. rewrite Hm. exact Hw. Qed.

Lemma preserves_ret {A} (a : A) : preserves I (mret a : M A).
Proof. intros w Hw. exact Hw. Qed.

Lemma preserves_throw {A} e : preserves I (throw e : M A).
Proof. intros w Hw. exact Hw. Qed.

Lemma preserves_bind {A B} (m : M A) (f : A → M B) :
  preserves I m → (∀ a, preserves I (f a)) → preserves I (m ≫= f).
Proof.
  intros Hm Hf w Hw. rewrite exec_bind.
  destruct (fst (m w)); [apply Hf|]; apply Hm, Hw.
Qed.

Lemma preserves_get : preserves I get.
Proof. intros w Hw. exact Hw. Qed.

Lemma preserves_assign {V} (set : V → state → state) (v : V) :
  (∀ s, I s → I (set v s)) → preserves I (assign set v).
Proof. intros Hset w Hw. apply Hset, Hw. Qed.

Lemma preserves_forEach {A} (l : list A) (f : A → M unit) :
  (∀ a, preserves I (f a)) → preserves I (forEach l f).
Proof.
  intros Hf. induction l as [|a l IH]; simpl.
  - apply preserves_ret.
  - apply preserves_bind; [apply Hf | intros _; exact IH].
Qed.

Lemma preserves_when (b : bool) (m : M unit) :
  preserves I m → preserves I (when b m).
Proof. intros Hm. destruct b; [exact Hm | apply preserves_ret]. Qed.

End Preserves.

(** The canvas and document primitives assign to no variable. *)
Section Silent.
Context `{!Browser}.

Lemma silent_modify_ctx f : silent (modify_ctx f).
Proof. intros w. reflexivity. Qed.
Lemma silent_emit p : silent (emit p).
Proof. intros w. reflexivity. Qed.
Lemma silent_ctx_arc x y r : silent (ctx_arc x y r).
Proof.
  intros w. unfold ctx_arc. destruct r as [r|]; [|reflexivity].
  destruct (Qle_bool 0 r); reflexivity.
Qed.
Lemma silent_addMessage a b : silent (addMessage a b).
Proof. intros w. reflexivity. Qed.
Lemma silent_set_status t : silent (set_status t).
Proof. intros w. reflexivity. Qed.
Lemma silent_setTimeout_connect d : silent (setTimeout_connect d).
Proof. intros w. reflexivity. Qed.
Lemma silent_ws_send f : silent (ws_send f).
Proof. intros w. reflexivity. Qed.
Lemma silent_renderAgents : silent renderAgents.
Proof. intros w. reflexivity. Qed.
Lemma silent_clearMessages : silent Main.clearMessages.
Proof. intros w. reflexivity. Qed.

End Silent.

(** Breaks a goal [preserves I m] down along the structure of [m]; what is
    left are the assignments, as [∀ s, I s → I (set v s)]. *)
Ltac preserves_step :=
  lazymatch goal with
  | |- preserves _ (mbind _ _) => apply preserves_bind; [|intros ?]
  | |- preserves _ (mret _) => apply preserves_ret
  | |- preserves _ (throw _) => apply preserves_throw
  | |- preserves _ get => apply preserves_get
  | |- preserves _ (assign _ _) => apply preserves_assign
  | |- preserves _ (forEach _ _) => apply preserves_forEach; intros ?
  | |- preserves _ (when _ _) => apply preserves_when
  | |- preserves _ (match ?x with _ => _ end) => destruct x
  | |- preserves _ (let _ := _ in _) => cbv zeta
  | |- preserves _ (ctx_fillStyle _) => apply silent_preserves, silent_modify_ctx
  | |- preserves _ (ctx_strokeStyle _) => apply silent_preserves, silent_modify_ctx
  | |- preserves _ (ctx_lineWidth _) => apply silent_preserves, silent_modify_ctx
  | |- preserves _ ctx_beginPath => apply silent_preserves, silent_modify_ctx
  | |- preserves _ (ctx_moveTo _ _) => apply silent_preserves, silent_modify_ctx
  | |- preserves _ (ctx_lineTo _ _) => apply silent_preserves, silent_modify_ctx
  | |- preserves _ (ctx_rect _ _ _ _) => apply silent_preserves, silent_modify_ctx
  | |- preserves _ ctx_closePath => apply silent_preserves, silent_modify_ctx
  | |- preserves _ (ctx_clearRect _ _ _ _) => apply silent_preserves, silent_emit
  | |- preserves _ (ctx_fillRect _ _ _ _) => apply silent_preserves, silent_emit
  | |- preserves _ ctx_fill => apply silent_preserves, silent_emit
  | |- preserves _ ctx_stroke => apply silent_preserves, silent_emit
  | |- preserves _ (addMessage _ _) =>
      apply silent_preserves, silent_addMessage
  | |- preserves _ (set_status _) => apply silent_preserves, silent_set_status
  | |- preserves _ (setTimeout_connect _) =>
      apply silent_preserves, silent_setTimeout_connect
  | |- preserves _ (ws_send _) => apply silent_preserves, silent_ws_send
  | |- preserves _ renderAgents => apply silent_preserves, silent_renderAgents
  | |- preserves _ Main.clearMessages =>
      apply silent_preserves, silent_clearMessages
  | |- preserves _ (ctx_arc _ _ _) => apply silent_preserves, silent_ctx_arc
  end.

Ltac preserves_tac := repeat preserves_step.

Section RenderFrame.
Context `{!Browser}.
Context (I : state → Prop).

Lemma Main_render_preserves : preserves I Main.render.
Proof.
  unfold Main.render, Main.render_cell, Main.render_grid_line, Main.render_item.
  preserves_tac.
Qed.

Lemma Part000_render_preserves : preserves I Part000.render.
Proof.
  unfold Part000.render, Part000.render_cell, Main.render_grid_line,
    Part000.render_item.
  preserves_tac.
Qed.

End RenderFrame.

(** ** What [render] paints *)

Section Paints.
Context `{!Browser}.

Lemma world_eta (w : world) : set_ctx (ctx w) (set_canvas (canvas w) w) = w.
Proof. destruct w; reflexivity. Qed.

(** *** Straight-line drawing code *)

Lemma acts_ret {A} s (a : A) : acts s (mret a) (Ok a) (λ c, (c, [])).
Proof. intros w _. simpl. rewrite world_eta. reflexivity. Qed.

Lemma acts_throw {A} s e : acts s (throw e : M A) (Throw e) (λ c, (c, [])).
Proof. intros w _. unfold throw. simpl. rewrite world_eta. reflexivity. Qed.

Lemma acts_get_bind {A} s (k : state → M A) o F :
  acts s (k s) o F → acts s (get ≫= k) o F.
Proof.
  intros Hk w Hs. unfold mbind, M_bind, get. rewrite Hs. apply Hk, Hs.
Qed.

Lemma acts_bind {A B} s (m : M A) (k : A → M B) a F1 o F2 :
  acts s m (Ok a) F1 →
  acts s (k a) o F2 →
  acts s (m ≫= k) o (and_then F1 F2).
Proof.
  intros Hm Hk w Hs. rewrite (run_bind_ok _ _ _ _ _ (Hm w Hs)).
  rewrite Hk by (destruct w; exact Hs).
  unfold and_then. destruct w; simpl. rewrite app_assoc. reflexivity.
Qed.

Lemma acts_bind_throw {A B} s (m : M A) (k : A → M B) e F :
  acts s m (Throw e) F → acts s (m ≫= k) (Throw e) F.
Proof. intros Hm w Hs. apply run_bind_throw, Hm, Hs. Qed.

Lemma acts_modify_ctx s f : acts s (modify_ctx f) (Ok ()) (λ c, (f c, [])).
Proof. intros w _. destruct w; reflexivity. Qed.

Lemma acts_emit s p : acts s (emit p) (Ok ()) (λ c, (c, [p c])).
Proof. intros w _. destruct w; reflexivity. Qed.

Lemma literal_color_true c :
  bool_decide (c ∈ literal_colors) = true → css_color c = true.
Proof. intros Hc. apply css_color_literal. apply bool_decide_eq_true in Hc. exact Hc. Qed.

Lemma acts_fillStyle_literal s c :
  bool_decide (c ∈ literal_colors) = true →
  acts s (ctx_fillStyle c) (Ok ()) (λ k, (set_fillStyle c k, [])).
Proof.
  intros Hc. unfold ctx_fillStyle. rewrite (literal_color_true c Hc).
  apply acts_modify_ctx.
Qed.

Lemma acts_strokeStyle_literal s c :
  bool_decide (c ∈ literal_colors) = true →
  acts s (ctx_strokeStyle c) (Ok ()) (λ k, (set_strokeStyle c k, [])).
Proof.
  intros Hc. unfold ctx_strokeStyle. rewrite (literal_color_true c Hc).
  apply acts_modify_ctx.
Qed.

Lemma acts_paints {A} s (P : context2d → Prop) (m : M A) o F f ops :
  acts s m o F → (∀ c, P c → F c = (f c, ops)) → paints s P m o f ops.
Proof. intros Hm HF w Hs HP. rewrite (Hm w Hs), (HF _ HP). reflexivity. Qed.

(** *** Composition of painting steps *)

Lemma paints_bind {A B} s (P Q : context2d → Prop) (m : M A) (k : A → M B)
    a f1 ops1 o f2 ops2 :
  paints s P m (Ok a) f1 ops1 →
  (∀ c, P c → Q (f1 c)) →
  paints s Q (k a) o f2 ops2 →
  paints s P (m ≫= k) o (λ c, f2 (f1 c)) (ops2 ++ ops1).
Proof.
  intros Hm HPQ Hk w Hs HP.
  rewrite (run_bind_ok _ _ _ _ _ (Hm w Hs HP)).
  rewrite Hk; [| exact Hs | apply HPQ, HP].
  destruct w; simpl. rewrite app_assoc. reflexivity.
Qed.

Lemma paints_weaken {A} s (P Q : context2d → Prop) (m : M A) o f ops :
  paints s Q m o f ops → (∀ c, P c → Q c) → paints s P m o f ops.
Proof. intros Hm HPQ w Hs HP. apply Hm; auto. Qed.

Lemma paints_ext {A} s P (m : M A) o f g ops :
  paints s P m o f ops → (∀ c, P c → f c = g c) → paints s P m o g ops.
Proof. intros Hm Hfg w Hs HP. rewrite <- Hfg by exact HP. apply Hm; auto. Qed.

Lemma paints_ret {A} s P (a : A) : paints s P (mret a) (Ok a) id [].
Proof. intros w _ _. simpl. rewrite world_eta. reflexivity. Qed.

(** A loop whose every turn overwrites the same part [g] of the drawing
    state overwrites that part, provided it runs at least once. *)
Lemma forEach_paints_overwrite {A T} s (P : context2d → Prop)
    (g : T → context2d → context2d) (l : list A) (f : A → M unit) :
  (∀ t c, P c → P (g t c)) →
  (∀ t t' c, g t' (g t c) = g t' c) →
  (∀ a, ∃ t ops, paints s P (f a) (Ok ()) (g t) ops) →
  l ≠ [] →
  ∃ t ops, paints s P (forEach l f) (Ok ()) (g t) ops.
Proof.
  intros HP Hg Hf. induction l as [|a l IH]; [done|]. intros _.
  destruct (Hf a) as (t & ops & Ha).
  destruct l as [|b l].
  - exists t, ([] ++ ops).
    change (forEach [a] f) with (f a ≫= λ _, mret ()).
    eapply paints_ext.
    + eapply paints_bind; [exact Ha | apply HP | apply paints_ret].
    + reflexivity.
  - destruct IH as (t' & ops' & Hl); [done|].
    exists t', (ops' ++ ops).
    change (forEach (a :: b :: l) f) with (f a ≫= λ _, forEach (b :: l) f).
    eapply paints_ext.
    + eapply paints_bind; [exact Ha | apply HP | exact Hl].
    + intros c _. apply Hg.
Qed.

(** *** Drawing code in general *)

Lemma acts_draws {A} s (m : M A) o F : acts s m o F → draws s m.
Proof. intros Hm. exists o, F. exact Hm. Qed.

Lemma draws_ret {A} s (a : A) : draws s (mret a : M A).
Proof. eapply acts_draws, acts_ret. Qed.

Lemma draws_throw {A} s e : draws s (throw e : M A).
Proof. eapply acts_draws, acts_throw. Qed.

Lemma draws_get_bind {A} s (k : state → M A) :
  draws s (k s) → draws s (get ≫= k).
Proof. intros (o & F & Hk). eapply acts_draws, acts_get_bind, Hk. Qed.

Lemma draws_bind {A B} s (m : M A) (k : A → M B) :
  draws s m → (∀ a, draws s (k a)) → draws s (m ≫= k).
Proof.
  intros (o & F & Hm) Hk. destruct o as [a|e].
  - destruct (Hk a) as (o' & F' & Hka).
    eapply acts_draws, acts_bind; [exact Hm | exact Hka].
  - eapply acts_draws, acts_bind_throw, Hm.
Qed.

Lemma draws_modify_ctx s f : draws s (modify_ctx f).
Proof. eapply acts_draws, acts_modify_ctx. Qed.

Lemma draws_emit s p : draws s (emit p).
Proof. eapply acts_draws, acts_emit. Qed.

Lemma draws_arc s x y r : draws s (ctx_arc x y r).
Proof.
  unfold ctx_arc. destruct r as [r|]; [|apply draws_ret].
  destruct (Qle_bool 0 r); [apply draws_modify_ctx | apply draws_throw].
Qed.

Lemma draws_when s (b : bool) (m : M unit) : draws s m → draws s (when b m).
Proof. intros Hm. destruct b; [exact Hm | apply draws_ret]. Qed.

Lemma draws_forEach {A} s (l : list A) (f : A → M unit) :
  (∀ a, draws s (f a)) → draws s (forEach l f).
Proof.
  intros Hf. induction l as [|a l IH]; simpl.
  - apply draws_ret.
  - apply draws_bind; [apply Hf | intros _; exact IH].
Qed.

Lemma range_nonempty lo n : n ≠ 0%nat → range lo n ≠ [].
Proof. destruct n; [done|]. intros _. unfold range. simpl. discriminate. Qed.

End Paints.

(** Computes the effect built by [acts_step], sharing the intermediate
    drawing states. *)
Ltac ctx_simpl :=
  cbv [and_then set_fillStyle set_strokeStyle set_lineWidth set_path
       fillStyle strokeStyle lineWidth path fst snd app].

(** Follows straight-line drawing code, one call at a time. *)
Ltac acts_step :=
  lazymatch goal with
  | |- acts _ (get ≫= _) _ _ => apply acts_get_bind; cbv beta zeta
  | |- acts _ (mbind _ _) _ _ => eapply acts_bind; [|cbv beta]
  | |- acts _ (mret _) _ _ => apply acts_ret
  | |- acts _ (when true ?m) _ _ => change (when true m) with m
  | |- acts _ (when false ?m) _ _ =>
      change (when false m) with (mret () : M unit)
  | |- acts _ (ctx_fillStyle _) _ _ =>
      apply acts_fillStyle_literal; vm_compute; reflexivity
  | |- acts _ (ctx_strokeStyle _) _ _ =>
      apply acts_strokeStyle_literal; vm_compute; reflexivity
  | |- acts _ (ctx_lineWidth _) _ _ => apply acts_modify_ctx
  | |- acts _ ctx_beginPath _ _ => apply acts_modify_ctx
  | |- acts _ (ctx_moveTo _ _) _ _ => apply acts_modify_ctx
  | |- acts _ (ctx_lineTo _ _) _ _ => apply acts_modify_ctx
  | |- acts _ (ctx_rect _ _ _ _) _ _ => apply acts_modify_ctx
  | |- acts _ ctx_closePath _ _ => apply acts_modify_ctx
  | |- acts _ (ctx_clearRect _ _ _ _) _ _ => apply acts_emit
  | |- acts _ (ctx_fillRect _ _ _ _) _ _ => apply acts_emit
  | |- acts _ ctx_fill _ _ => apply acts_emit
  | |- acts _ ctx_stroke _ _ => apply acts_emit
  end.

(** Breaks a goal [draws s m] down along the structure of [m]. *)
Ltac draws_step :=
  lazymatch goal with
  | |- draws _ (get ≫= _) => apply draws_get_bind; cbv beta zeta
  | |- draws _ (mbind _ _) => apply draws_bind; [|intros ?]
  | |- draws _ (mret _) => apply draws_ret
  | |- draws _ (throw _) => apply draws_throw
  | |- draws _ (forEach _ _) => apply draws_forEach; intros ?
  | |- draws _ (when _ _) => apply draws_when
  | |- draws _ (match ?x with _ => _ end) => destruct x
  | |- draws _ (ctx_arc _ _ _) => apply draws_arc
  | |- draws _ (ctx_fillStyle _) => apply draws_modify_ctx
  | |- draws _ (ctx_strokeStyle _) => apply draws_modify_ctx
  | |- draws _ (ctx_lineWidth _) => apply draws_modify_ctx
  | |- draws _ ctx_beginPath => apply draws_modify_ctx
  | |- draws _ (ctx_moveTo _ _) => apply draws_modify_ctx
  | |- draws _ (ctx_lineTo _ _) => apply draws_modify_ctx
  | |- draws _ (ctx_rect _ _ _ _) => apply draws_modify_ctx
  | |- draws _ ctx_closePath => apply draws_modify_ctx
  | |- draws _ (ctx_clearRect _ _ _ _) => apply draws_emit
  | |- draws _ (ctx_fillRect _ _ _ _) => apply draws_emit
  | |- draws _ ctx_fill => apply draws_emit
  | |- draws _ ctx_stroke => apply draws_emit
  end.

Section RenderPaints.
Context `{!Browser}.

(** One window cell: whatever the fill style was, the same rectangles
    are painted, and the fill style is overwritten. *)
Lemma Main_render_cell_paints s vx vy :
  ∃ t ops, paints s (λ _, True) (Main.render_cell vx vy) (Ok ())
             (set_fillStyle t) ops.
Proof.
  unfold Main.render_cell.
  destruct (mapCells s !! cellKey (viewportX s + vx) (viewportY s + vy))
    as [cell|] eqn:Hc.
  - destruct (strict_eq (prop cell "terrain") (Some (VNum 1))) eqn:H1,
      (strict_eq (prop cell "terrain") (Some (VNum (-1)))) eqn:H2,
      (bool_decide (cellKey (viewportX s + vx) (viewportY s + vy)
                      ∈ exploredCells s)) eqn:H3,
      (truthy (prop cell "dust_storm")) eqn:H4;
    eexists _, _;
    (eapply acts_paints;
     [ apply acts_get_bind; cbv beta zeta; rewrite Hc, ?H1, ?H2, ?H3, ?H4;
       repeat acts_step
     | intros [fs ss lw p] _; ctx_simpl; reflexivity ]).
  - eexists _, _.
    eapply acts_paints;
     [ apply acts_get_bind; cbv beta zeta; rewrite Hc; repeat acts_step
     | intros [fs ss lw p] _; ctx_simpl; reflexivity ].
Qed.

Lemma Part000_render_cell_paints s vx vy :
  ∃ t ops, paints s (λ _, True) (Part000.render_cell vx vy) (Ok ())
             (set_fillStyle t) ops.
Proof.
  unfold Part000.render_cell.
  destruct (mapCells s !! cellKey (viewportX s + vx) (viewportY s + vy))
    as [cell|] eqn:Hc.
  - destruct (strict_eq (prop cell "terrain") (Some (VNum 1))) eqn:H1,
      (strict_eq (prop cell "terrain") (Some (VNum (-1)))) eqn:H2,
      (strict_eq (prop cell "dust_storm") (Some (VBool true))) eqn:H5,
      (bool_decide (cellKey (viewportX s + vx) (viewportY s + vy)
                      ∈ exploredCells s)) eqn:H3,
      (truthy (prop cell "dust_storm")) eqn:H4;
    eexists _, _;
    (eapply acts_paints;
     [ apply acts_get_bind; cbv beta zeta;
       rewrite Hc, ?H1, ?H2, ?H3, ?H4, ?H5; repeat acts_step
     | intros [fs ss lw p] _; ctx_simpl; reflexivity ]).
  - eexists _, _.
    eapply acts_paints;
     [ apply acts_get_bind; cbv beta zeta; rewrite Hc; repeat acts_step
     | intros [fs ss lw p] _; ctx_simpl; reflexivity ].
Qed.

(** The two nested loops over the window. *)
Lemma cells_loop_paints s (cell : Z → Z → M unit) :
  (∀ vx vy, ∃ t ops, paints s (λ _, True) (cell vx vy) (Ok ())
                       (set_fillStyle t) ops) →
  ∃ t ops,
    paints s (λ _, True)
      (forEach (range 0 (Z.to_nat VIEWPORT_SIZE_CELLS)) (λ vx,
         forEach (range 0 (Z.to_nat VIEWPORT_SIZE_CELLS)) (λ vy, cell vx vy)))
      (Ok ()) (set_fillStyle t) ops.
Proof.
  intros Hcell.
  apply (forEach_paints_overwrite s (λ _, True) set_fillStyle);
    [done | done | | apply range_nonempty; done].
  intros vx.
  apply (forEach_paints_overwrite s (λ _, True) set_fillStyle);
    [done | done | apply Hcell | apply range_nonempty; done].
Qed.

(** The strokes of the grid, once style and width have been set. *)
Lemma render_grid_line_paints s i :
  ∃ p ops, paints s grid_ready (Main.render_grid_line i) (Ok ())
             (set_path p) ops.
Proof.
  eexists _, _. unfold Main.render_grid_line.
  eapply acts_paints; [repeat acts_step|].
  intros [fs ss lw p] [Hs Hl]. simpl in Hs, Hl. subst ss lw.
  ctx_simpl. reflexivity.
Qed.

Lemma grid_loop_paints s :
  ∃ p ops,
    paints s grid_ready
      (forEach (range 0 (Z.to_nat VIEWPORT_SIZE_CELLS + 1))
         Main.render_grid_line)
      (Ok ()) (set_path p) ops.
Proof.
  apply (forEach_paints_overwrite s grid_ready set_path);
    [ intros t c Hc; exact Hc | done | apply render_grid_line_paints
    | apply range_nonempty; done ].
Qed.

Lemma Main_render_item_draws s item : draws s (Main.render_item item).
Proof. unfold Main.render_item. repeat draws_step. Qed.

Lemma Part000_render_item_draws s item : draws s (Part000.render_item item).
Proof. unfold Part000.render_item. repeat draws_step. Qed.

End RenderPaints.

Section RenderDetermined.
Context `{!Browser}.

(** The part of [render] that the two scripts share in shape: clear, the
    window cells, the grid, and then the items. *)
Lemma render_shape_paints s (cell : Z → Z → M unit) (items : M unit) o F :
  (∀ vx vy, ∃ t ops, paints s (λ _, True) (cell vx vy) (Ok ())
                       (set_fillStyle t) ops) →
  acts s items o F →
  ∃ c ops,
    paints s (λ _, True)
      (ctx_clearRect 0 0 (px (VIEWPORT_SIZE_CELLS * CELL_SIZE_PX))
                         (px (VIEWPORT_SIZE_CELLS * CELL_SIZE_PX));;
       forEach (range 0 (Z.to_nat VIEWPORT_SIZE_CELLS)) (λ vx,
         forEach (range 0 (Z.to_nat VIEWPORT_SIZE_CELLS)) (λ vy, cell vx vy));;
       ctx_strokeStyle "#374151";;
       ctx_lineWidth 0.5;;
       forEach (range 0 (Z.to_nat VIEWPORT_SIZE_CELLS + 1))
         Main.render_grid_line;;
       items)
      o (λ _, c) ops.
Proof.
  intros Hcell Hitems.
  destruct (cells_loop_paints s cell Hcell) as (t & opsc & Hcells).
  destruct (grid_loop_paints s) as (p & opsg & Hgrid).
  set (c0 := mkContext t "#374151" 0.5%Q p).
  exists (F c0).1. eexists.
  eapply paints_ext.
  - eapply (paints_bind s (λ _, True) (λ _, True)).
    { eapply acts_paints; [apply acts_emit | intros c _; reflexivity]. }
    { done. }
    eapply (paints_bind s (λ _, True) (λ c, fillStyle c = t)).
    { exact Hcells. }
    { intros [] _; reflexivity. }
    eapply (paints_bind s _ (λ c, fillStyle c = t ∧ strokeStyle c = "#374151")).
    { eapply acts_paints; [apply acts_strokeStyle_literal; reflexivity|].
      intros c _; reflexivity. }
    { intros [] Hc; split; [exact Hc | reflexivity]. }
    eapply (paints_bind s _
              (λ c, fillStyle c = t ∧ strokeStyle c = "#374151"
                    ∧ lineWidth c = 0.5%Q)).
    { eapply acts_paints; [apply acts_modify_ctx | intros c _; reflexivity]. }
    { intros [] [Hf Hs]; repeat split; assumption. }
    eapply (paints_bind s _ (eq c0)).
    { eapply paints_weaken; [exact Hgrid|]. intros c (_ & Hs & Hl). split; assumption. }
    { intros [] (Hf & Hs & Hl). simpl in *. subst. reflexivity. }
    eapply (acts_paints s (eq c0) _ _ _ (λ _, (F c0).1) (F c0).2);
      [exact Hitems|].
    intros c <-. apply surjective_pairing.
  - intros c _. reflexivity.
Qed.

(** For given variables, [render] ends in one way, paints one list of
    operations and leaves one drawing state, whatever the drawing state
    and the canvas were before; it touches nothing else. *)
Lemma Main_render_paints s :
  ∃ o c ops, paints s (λ _, True) Main.render o (λ _, c) ops.
Proof.
  destruct (draws_forEach s (resources s ++ agents s) Main.render_item
              (Main_render_item_draws s)) as (o & F & Hitems).
  exists o. unfold Main.render.
  eapply (render_shape_paints s Main.render_cell).
  - apply Main_render_cell_paints.
  - apply acts_get_bind. exact Hitems.
Qed.

(** With nothing to draw on the map, [render] returns normally. *)
Lemma Main_render_returns s :
  resources s = [] → agents s = [] →
  ∃ c ops, paints s (λ _, True) Main.render (Ok ()) (λ _, c) ops.
Proof.
  intros Hr Ha. unfold Main.render.
  eapply (render_shape_paints s Main.render_cell).
  - apply Main_render_cell_paints.
  - apply acts_get_bind. rewrite Hr, Ha. apply acts_ret.
Qed.

Lemma Part000_render_paints s :
  ∃ o c ops, paints s (λ _, True) Part000.render o (λ _, c) ops.
Proof.
  destruct (draws_forEach s (hazards s ++ resources s ++ agents s)
              Part000.render_item (Part000_render_item_draws s))
    as (o & F & Hitems).
  exists o. unfold Part000.render.
  eapply (render_shape_paints s Part000.render_cell).
  - apply Part000_render_cell_paints.
  - apply acts_get_bind. exact Hitems.
Qed.

Lemma Part000_render_returns s :
  hazards s = [] → resources s = [] → agents s = [] →
  ∃ c ops, paints s (λ _, True) Part000.render (Ok ()) (λ _, c) ops.
Proof.
  intros Hh Hr Ha. unfold Part000.render.
  eapply (render_shape_paints s Part000.render_cell).
  - apply Part000_render_cell_paints.
  - apply acts_get_bind. rewrite Hh, Hr, Ha. apply acts_ret.
Qed.

End RenderDetermined.

(** ** Keys of the cell table *)

Section Keys.

Lemma pretty_N_char_no_comma d : pretty_N_char d ≠ ","%char.
Proof. unfold pretty_N_char. repeat case_match; discriminate. Qed.

Lemma pretty_N_go_no_comma x s : no_comma s → no_comma (pretty_N_go x s).
Proof.
  revert s. induction (N.lt_wf_0 x) as [x _ IH]; intros s Hs.
  destruct (decide (x = 0)%N) as [->|Hx].
  - rewrite pretty_N_go_0. exact Hs.
  - rewrite pretty_N_go_step by lia. apply IH.
    + apply N.div_lt; lia.
    + split; [apply pretty_N_char_no_comma | exact Hs].
Qed.

Lemma pretty_N_no_comma (x : N) : no_comma (pretty x).
Proof.
  unfold pretty, pretty_N. case_decide.
  - simpl. split; [discriminate|exact Logic.I].
  - apply pretty_N_go_no_comma. exact Logic.I.
Qed.

Lemma pretty_Z_no_comma (z : Z) : no_comma (pretty z).
Proof.
  destruct z as [|p|p]; unfold pretty, pretty_Z.
  - simpl. split; [discriminate|exact Logic.I].
  - apply (pretty_N_no_comma (N.pos p)).
  - simpl. split; [discriminate|]. apply (pretty_N_no_comma (N.pos p)).
Qed.

Lemma split_at_comma s1 s2 t1 t2 :
  no_comma s1 → no_comma t1 →
  s1 +:+ "," +:+ s2 = t1 +:+ "," +:+ t2 → s1 = t1 ∧ s2 = t2.
Proof.
  assert (∀ s, "" +:+ s = s) as Hnil by reflexivity.
  assert (∀ a s t, String a s +:+ t = String a (s +:+ t)) as Hcons
    by reflexivity.
  revert t1. induction s1 as [|a s1 IH]; intros [|b t1] Hs Ht E;
    rewrite ?Hnil, ?Hcons, ?Hnil in E; simpl in Hs, Ht.
  - split; [reflexivity|]. congruence.
  - exfalso. destruct Ht as [Hb _]. congruence.
  - exfalso. destruct Hs as [Ha _]. congruence.
  - destruct Hs as [_ Hs], Ht as [_ Ht].
    assert (a = b) as -> by congruence.
    assert (s1 +:+ "," +:+ s2 = t1 +:+ "," +:+ t2) as E' by congruence.
    destruct (IH t1 Hs Ht E') as [-> ->]. done.
Qed.

(** Two coordinates with the same key are the same. *)
Lemma cellKey_inj x y x' y' :
  cellKey x y = cellKey x' y' → x = x' ∧ y = y'.
Proof.
  unfold cellKey. intros E.
  apply split_at_comma in E as [Ex Ey]; try apply pretty_Z_no_comma.
  split; apply (inj pretty); assumption.
Qed.

Lemma listed_cellKey cells x y :
  listed cells (cellKey x y) = listed_at cells x y.
Proof.
  unfold listed, listed_at. f_equal.
  induction cells as [|c cells IH]; [reflexivity|].
  rewrite !filter_cons, IH.
  destruct (decide (key_of c = cellKey x y)) as [Hk|Hk];
    destruct (decide (cell_x c = x ∧ cell_y c = y)) as [Hc|Hc];
    try reflexivity.
  - exfalso. apply Hc. apply cellKey_inj. exact Hk.
  - exfalso. apply Hk. destruct Hc as [<- <-]. reflexivity.
Qed.

End Keys.

(** ** Loading a chunk *)

Section Chunk.
Context `{!Browser}.

Lemma Main_render_vars w : vars (exec Main.render w) = vars w.
Proof. apply (Main_render_preserves (λ s, s = vars w)). reflexivity. Qed.

Lemma Part000_render_vars w : vars (exec Part000.render w) = vars w.
Proof. apply (Part000_render_preserves (λ s, s = vars w)). reflexivity. Qed.

Lemma with_chunk_id s :
  with_chunk (mapCells s) (mapMinX s) (mapMinY s) (mapMaxX s) (mapMaxY s) s = s.
Proof. destruct s; reflexivity. Qed.

Lemma set_vars_id w : set_vars (vars w) w = w.
Proof. destruct w; reflexivity. Qed.

(** The loop of [initializeFullMap] folds the cells into the table and
    the four bounds. *)
Lemma load_loop cells w :
  forEach cells Main.load_cell w =
  (Ok (),
   set_vars
     (with_chunk
        (foldl (λ m c, <[key_of c := cell_obj c]> m) (mapCells (vars w)) cells)
        (foldl (λ a c, Z.min a (cell_x c)) (mapMinX (vars w)) cells)
        (foldl (λ a c, Z.min a (cell_y c)) (mapMinY (vars w)) cells)
        (foldl (λ a c, Z.max a (cell_x c)) (mapMaxX (vars w)) cells)
        (foldl (λ a c, Z.max a (cell_y c)) (mapMaxY (vars w)) cells)
        (vars w))
     w).
Proof.
  revert w. induction cells as [|c cells IH]; intros w.
  - simpl. rewrite with_chunk_id, set_vars_id. reflexivity.
  - change (forEach (c :: cells) Main.load_cell)
      with (Main.load_cell c ≫= λ _, forEach cells Main.load_cell).
    erewrite run_bind_ok; [|reflexivity].
    rewrite IH. destruct w as [s ? ? ? ? ? ? ?]. destruct s. reflexivity.
Qed.

(** What the folds compute. *)

Lemma last_cons_some {A} (a : A) l : last (a :: l) = Some (default a (last l)).
Proof.
  revert a. induction l as [|b l IH]; intros a; [reflexivity|].
  change (last (a :: b :: l)) with (last (b :: l)). rewrite IH.
  simpl. destruct l; reflexivity.
Qed.

Lemma fold_insert_lookup cells (m : gmap string obj) k :
  foldl (λ m c, <[key_of c := cell_obj c]> m) m cells !! k =
  match listed cells k with
  | Some c => Some (cell_obj c)
  | None => m !! k
  end.
Proof.
  revert m. induction cells as [|c cells IH]; intros m; [reflexivity|].
  simpl. rewrite IH. unfold listed. rewrite filter_cons.
  destruct (decide (key_of c = k)) as [Hk|Hk].
  - rewrite last_cons_some.
    destruct (last (filter (λ c0, key_of c0 = k) cells)); simpl; [reflexivity|].
    rewrite <- Hk. rewrite lookup_insert_eq. reflexivity.
  - destruct (last (filter (λ c0, key_of c0 = k) cells)); [reflexivity|].
    apply lookup_insert_ne, Hk.
Qed.

Lemma fold_min_lower (f : cell → Z) cells a :
  foldl (λ a c, Z.min a (f c)) a cells ≤ a ∧
  ∀ c, c ∈ cells → foldl (λ a c, Z.min a (f c)) a cells ≤ f c.
Proof.
  revert a. induction cells as [|c cells IH]; intros a; simpl.
  - split; [lia|]. intros c Hc. inversion Hc.
  - destruct (IH (Z.min a (f c))) as [Ha Hc]. split; [lia|].
    intros c' Hc'. apply elem_of_cons in Hc' as [->|Hc']; [lia|].
    apply Hc, Hc'.
Qed.

Lemma fold_min_attained (f : cell → Z) cells a :
  foldl (λ a c, Z.min a (f c)) a cells = a ∨
  ∃ c, c ∈ cells ∧ foldl (λ a c, Z.min a (f c)) a cells = f c.
Proof.
  revert a. induction cells as [|c cells IH]; intros a; simpl; [by left|].
  destruct (IH (Z.min a (f c))) as [E|(c' & Hc' & E)].
  - rewrite E. destruct (Z.min_spec a (f c)) as [[_ ->]|[_ ->]]; [by left|].
    right. exists c. split; [apply list_elem_of_here | reflexivity].
  - right. exists c'. split; [apply list_elem_of_further, Hc' | exact E].
Qed.

Lemma fold_max_upper (f : cell → Z) cells a :
  a ≤ foldl (λ a c, Z.max a (f c)) a cells ∧
  ∀ c, c ∈ cells → f c ≤ foldl (λ a c, Z.max a (f c)) a cells.
Proof.
  revert a. induction cells as [|c cells IH]; intros a; simpl.
  - split; [lia|]. intros c Hc. inversion Hc.
  - destruct (IH (Z.max a (f c))) as [Ha Hc]. split; [lia|].
    intros c' Hc'. apply elem_of_cons in Hc' as [->|Hc']; [lia|].
    apply Hc, Hc'.
Qed.

Lemma fold_max_attained (f : cell → Z) cells a :
  foldl (λ a c, Z.max a (f c)) a cells = a ∨
  ∃ c, c ∈ cells ∧ foldl (λ a c, Z.max a (f c)) a cells = f c.
Proof.
  revert a. induction cells as [|c cells IH]; intros a; simpl; [by left|].
  destruct (IH (Z.max a (f c))) as [E|(c' & Hc' & E)].
  - rewrite E. destruct (Z.max_spec a (f c)) as [[_ ->]|[_ ->]]; [|by left].
    right. exists c. split; [apply list_elem_of_here | reflexivity].
  - right. exists c'. split; [apply list_elem_of_further, Hc' | exact E].
Qed.

(** On a non-empty list whose values do not exceed the starting value,
    the fold of [Z.min] is the minimum; dually for [Z.max]. *)
Lemma fold_min_is_minimum (f : cell → Z) cells a :
  cells ≠ [] → (∀ c, c ∈ cells → f c ≤ a) →
  is_minimum (foldl (λ a c, Z.min a (f c)) a cells) (f <$> cells).
Proof.
  intros Hne Hle.
  destruct (fold_min_lower f cells a) as [Ha Hlow]. split.
  - destruct (fold_min_attained f cells a) as [E|(c & Hc & E)].
    + destruct cells as [|c cells]; [done|].
      assert (f c = a) as Hc.
      { pose proof (Hlow c (list_elem_of_here _ _)).
        pose proof (Hle c (list_elem_of_here _ _)). lia. }
      rewrite E, <- Hc. apply list_elem_of_here.
    + rewrite E. apply list_elem_of_fmap. exists c. done.
  - intros x Hx. apply list_elem_of_fmap in Hx as (c & -> & Hc).
    apply Hlow, Hc.
Qed.

Lemma fold_max_is_maximum (f : cell → Z) cells a :
  cells ≠ [] → (∀ c, c ∈ cells → a ≤ f c) →
  is_maximum (foldl (λ a c, Z.max a (f c)) a cells) (f <$> cells).
Proof.
  intros Hne Hle.
  destruct (fold_max_upper f cells a) as [Ha Hup]. split.
  - destruct (fold_max_attained f cells a) as [E|(c & Hc & E)].
    + destruct cells as [|c cells]; [done|].
      assert (f c = a) as Hc.
      { pose proof (Hup c (list_elem_of_here _ _)).
        pose proof (Hle c (list_elem_of_here _ _)). lia. }
      rewrite E, <- Hc. apply list_elem_of_here.
    + rewrite E. apply list_elem_of_fmap. exists c. done.
  - intros x Hx. apply list_elem_of_fmap in Hx as (c & -> & Hc).
    apply Hup, Hc.
Qed.

Lemma initializeFullMap_run cells w :
  ∃ w1, Main.initializeFullMap cells w = Main.render w1 ∧
        vars w1 = loaded cells (vars w) ∧
        ctx w1 = ctx w ∧ canvas w1 = canvas w.
Proof.
  unfold Main.initializeFullMap, loaded.
  destruct w as [s ? ? ? ? ? ? ?]. destruct s.
  do 5 run_prim.
  erewrite run_bind_ok; [|apply load_loop]. world_simpl.
  do 2 run_prim.
  destruct cells as [|c cells].
  - run_prim. eexists. split; [reflexivity|]. repeat split.
  - set (cs := c :: cells).
    erewrite run_bind_ok;
      [|unfold when; rewrite bool_decide_eq_true_2 by (simpl; lia);
        do 4 run_prim; reflexivity].
    world_simpl. eexists. split; [reflexivity|]. repeat split.
Qed.

Lemma initializeFullMap_vars cells w :
  vars (exec (Main.initializeFullMap cells) w) = loaded cells (vars w).
Proof.
  destruct (initializeFullMap_run cells w) as (w1 & E & Hv & _).
  unfold exec. rewrite E. fold (exec Main.render w1).
  rewrite Main_render_vars. exact Hv.
Qed.

End Chunk.

(** ** Viewport clamping *)

Section Clamp.
Context `{!Browser}.

(** [clampViewport] returns normally and assigns the origin only. *)
Lemma clampViewport_run x y w :
  Main.clampViewport x y w =
  (Ok (),
   set_vars
     (set_viewportY
        (if (mapMaxX (vars w) =? 0) && (mapMinX (vars w) =? MAP_SIZE_CELLS)
         then 0
         else Z.max (mapMinY (vars w))
                (Z.min y (mapMaxY (vars w) - VIEWPORT_SIZE_CELLS + 1)))
        (set_viewportX
           (if (mapMaxX (vars w) =? 0) && (mapMinX (vars w) =? MAP_SIZE_CELLS)
            then 0
            else Z.max (mapMinX (vars w))
                   (Z.min x (mapMaxX (vars w) - VIEWPORT_SIZE_CELLS + 1)))
           (vars w)))
     w).
Proof.
  unfold Main.clampViewport.
  destruct w as [s ? ? ? ? ? ? ?]. destruct s. run_prim.
  destruct ((mapMaxX0 =? 0) && (mapMinX0 =? MAP_SIZE_CELLS)); reflexivity.
Qed.

Lemma clampViewport_origin x y w :
  origin (exec (Main.clampViewport x y) w) =
  if (mapMaxX (vars w) =? 0) && (mapMinX (vars w) =? MAP_SIZE_CELLS)
  then (0, 0)
  else (Z.max (mapMinX (vars w))
          (Z.min x (mapMaxX (vars w) - VIEWPORT_SIZE_CELLS + 1)),
        Z.max (mapMinY (vars w))
          (Z.min y (mapMaxY (vars w) - VIEWPORT_SIZE_CELLS + 1))).
Proof.
  unfold exec, origin. rewrite clampViewport_run.
  destruct ((mapMaxX (vars w) =? 0) && (mapMinX (vars w) =? MAP_SIZE_CELLS));
    reflexivity.
Qed.

(** The origin is clamped exactly when clamping it gives it back. *)
Lemma clamped_origin w :
  origin (exec (Main.clampViewport (viewportX (vars w)) (viewportY (vars w))) w)
    = origin w →
  clamped w.
Proof.
  unfold clamped, origin, exec. rewrite clampViewport_run.
  destruct w as [s ? ? ? ? ? ? ?]. destruct s. world_simpl. cbn [snd].
  intros [= -> ->]. reflexivity.
Qed.

(** Whatever the bounds, the result of a clamp is clamped. *)
Lemma clampViewport_clamped x y w : clamped (exec (Main.clampViewport x y) w).
Proof.
  apply clamped_origin.
  rewrite (clampViewport_origin _ _ (exec _ w)).
  unfold exec, origin. rewrite clampViewport_run.
  destruct w as [s ? ? ? ? ? ? ?]. destruct s. world_simpl. cbn [snd].
  world_simpl.
  destruct ((mapMaxX0 =? 0) && (mapMinX0 =? MAP_SIZE_CELLS)); [reflexivity|].
  unfold VIEWPORT_SIZE_CELLS. f_equal; lia.
Qed.

End Clamp.

(** ** Chunk replacement and the viewport *)

Section ChunkClaims.
Context `{!Browser}.

Lemma is_minimum_unique m m' l : is_minimum m l → is_minimum m' l → m = m'.
Proof.
  intros [Hin Hle] [Hin' Hle']. specialize (Hle _ Hin'). specialize (Hle' _ Hin).
  lia.
Qed.

Lemma is_maximum_unique m m' l : is_maximum m l → is_maximum m' l → m = m'.
Proof.
  intros [Hin Hle] [Hin' Hle']. specialize (Hle _ Hin'). specialize (Hle' _ Hin).
  lia.
Qed.

Lemma handleMessage_chunk cells msg :
  msg = full_map_init cells ∨ msg = update_map cells →
  Main.handleMessage msg = Main.initializeFullMap cells.
Proof. intros [->| ->]; reflexivity. Qed.

(** The trackers start from [MAP_SIZE_CELLS] and [0], which take part in
    the minimum and the maximum. *)
Lemma loaded_bounds cells s :
  is_minimum (mapMinX (loaded cells s)) (MAP_SIZE_CELLS :: (cell_x <$> cells)) ∧
  is_minimum (mapMinY (loaded cells s)) (MAP_SIZE_CELLS :: (cell_y <$> cells)) ∧
  is_maximum (mapMaxX (loaded cells s)) (0 :: (cell_x <$> cells)) ∧
  is_maximum (mapMaxY (loaded cells s)) (0 :: (cell_y <$> cells)).
Proof.
  assert (∀ f a, is_minimum (foldl (λ a c, Z.min a (f c)) a cells)
                   (a :: (f <$> cells))) as Hmin.
  { intros f a. destruct (fold_min_lower f cells a) as [Ha Hlow]. split.
    - destruct (fold_min_attained f cells a) as [->|(c & Hc & ->)].
      + apply list_elem_of_here.
      + apply list_elem_of_further, list_elem_of_fmap. exists c. done.
    - intros x Hx. apply elem_of_cons in Hx as [->|Hx]; [exact Ha|].
      apply list_elem_of_fmap in Hx as (c & -> & Hc). apply Hlow, Hc. }
  assert (∀ f a, is_maximum (foldl (λ a c, Z.max a (f c)) a cells)
                   (a :: (f <$> cells))) as Hmax.
  { intros f a. destruct (fold_max_upper f cells a) as [Ha Hup]. split.
    - destruct (fold_max_attained f cells a) as [->|(c & Hc & ->)].
      + apply list_elem_of_here.
      + apply list_elem_of_further, list_elem_of_fmap. exists c. done.
    - intros x Hx. apply elem_of_cons in Hx as [->|Hx]; [exact Ha|].
      apply list_elem_of_fmap in Hx as (c & -> & Hc). apply Hup, Hc. }
  destruct s; destruct cells; repeat split; first [apply Hmin | apply Hmax].
Qed.

Lemma loaded_bounds_on_map cells s :
  cells ≠ [] → Forall on_map cells →
  is_minimum (mapMinX (loaded cells s)) (cell_x <$> cells) ∧
  is_minimum (mapMinY (loaded cells s)) (cell_y <$> cells) ∧
  is_maximum (mapMaxX (loaded cells s)) (cell_x <$> cells) ∧
  is_maximum (mapMaxY (loaded cells s)) (cell_y <$> cells).
Proof.
  intros Hne Hon. rewrite Forall_forall in Hon.
  assert (mapMinX (loaded cells s)
          = foldl (λ a c, Z.min a (cell_x c)) MAP_SIZE_CELLS cells) as ->
    by (destruct s, cells; reflexivity).
  assert (mapMinY (loaded cells s)
          = foldl (λ a c, Z.min a (cell_y c)) MAP_SIZE_CELLS cells) as ->
    by (destruct s, cells; reflexivity).
  assert (mapMaxX (loaded cells s)
          = foldl (λ a c, Z.max a (cell_x c)) 0 cells) as ->
    by (destruct s, cells; reflexivity).
  assert (mapMaxY (loaded cells s)
          = foldl (λ a c, Z.max a (cell_y c)) 0 cells) as ->
    by (destruct s, cells; reflexivity).
  repeat split;
    first [ apply fold_min_is_minimum | apply fold_max_is_maximum
          | apply fold_min_is_minimum | apply fold_max_is_maximum ];
    try exact Hne; intros c Hc; apply Hon in Hc; unfold on_map in Hc; lia.
Qed.

Lemma loaded_table cells s k :
  mapCells (loaded cells s) !! k = cell_obj <$> listed cells k.
Proof.
  assert (mapCells (loaded cells s)
          = foldl (λ m c, <[key_of c := cell_obj c]> m) ∅ cells) as ->
    by (destruct s, cells; reflexivity).
  rewrite fold_insert_lookup. destruct (listed cells k); reflexivity.
Qed.

Lemma loaded_origin cells s :
  cells ≠ [] →
  viewportX (loaded cells s) = mapMinX (loaded cells s) ∧
  viewportY (loaded cells s) = mapMinY (loaded cells s).
Proof. intros Hne. destruct cells; [done|]. destruct s. split; reflexivity. Qed.

Lemma loaded_ordered cells s :
  cells ≠ [] →
  mapMinX (loaded cells s) ≤ mapMaxX (loaded cells s) ∧
  mapMinY (loaded cells s) ≤ mapMaxY (loaded cells s).
Proof.
  intros Hne. destruct cells as [|c cells]; [done|].
  destruct (loaded_bounds (c :: cells) s)
    as ((_ & Hx0) & (_ & Hy0) & (_ & Hx1) & (_ & Hy1)).
  split.
  - etrans; [apply (Hx0 (cell_x c))|apply (Hx1 (cell_x c))];
      apply list_elem_of_further, list_elem_of_here.
  - etrans; [apply (Hy0 (cell_y c))|apply (Hy1 (cell_y c))];
      apply list_elem_of_further, list_elem_of_here.
Qed.


Lemma is_minimum_check m l :
  bool_decide (m ∈ l) = true → forallb (Z.leb m) l = true → is_minimum m l.
Proof.
  intros Hin Hall. apply bool_decide_eq_true in Hin. split; [exact Hin|].
  intros x Hx. rewrite forallb_forall in Hall.
  apply Z.leb_le, Hall, list_elem_of_In, Hx.
Qed.

Lemma is_maximum_check m l :
  bool_decide (m ∈ l) = true → forallb (λ x, x <=? m) l = true →
  is_maximum m l.
Proof.
  intros Hin Hall. apply bool_decide_eq_true in Hin. split; [exact Hin|].
  intros x Hx. rewrite forallb_forall in Hall.
  apply Z.leb_le, (Hall x), list_elem_of_In, Hx.
Qed.

(** C3 (as amended). After loading a chunk whose cells span x from 200 to
    299 and y from 200 to 299, with the viewport 100 cells wide, the
    origin is (200, 200); a pan to (150, 200) clamps to (200, 200); a pan
    to (205, 205) clamps to (200, 200) as well, and so does a pan to
    (260, 260), since max - W + 1 = 299 - 100 + 1 = 200: (200, 200) is
    the only origin the clamp lets through. *)
Theorem chunk_200_299_pans cells msg w :
  is_minimum 200 (cell_x <$> cells) → is_maximum 299 (cell_x <$> cells) →
  is_minimum 200 (cell_y <$> cells) → is_maximum 299 (cell_y <$> cells) →
  msg = full_map_init cells ∨ msg = update_map cells →
  let w' := exec (Main.handleMessage msg) w in
  origin w' = (200, 200) ∧
  origin (exec (Main.clampViewport 150 200) w') = (200, 200) ∧
  origin (exec (Main.clampViewport 205 205) w') = (200, 200) ∧
  origin (exec (Main.clampViewport 260 260) w') = (200, 200) ∧
  ∀ x y, origin (exec (Main.clampViewport x y) w') = (200, 200).
Proof.
  intros Hx0 Hx1 Hy0 Hy1 Hmsg w'.
  assert (cells ≠ []) as Hne.
  { destruct Hx0 as [Hin _]. intros ->. inversion Hin. }
  assert (Forall on_map cells) as Hon.
  { apply Forall_forall. intros c Hc. unfold on_map, MAP_SIZE_CELLS.
    pose proof (proj2 Hx0 (cell_x c)) as H1. pose proof (proj2 Hx1 (cell_x c)) as H2.
    pose proof (proj2 Hy0 (cell_y c)) as H3. pose proof (proj2 Hy1 (cell_y c)) as H4.
    assert (cell_x c ∈ cell_x <$> cells) as Hcx
      by (apply list_elem_of_fmap; exists c; done).
    assert (cell_y c ∈ cell_y <$> cells) as Hcy
      by (apply list_elem_of_fmap; exists c; done).
    specialize (H1 Hcx). specialize (H2 Hcx).
    specialize (H3 Hcy). specialize (H4 Hcy). lia. }
  assert (vars w' = loaded cells (vars w)) as Hs'.
  { unfold w'. rewrite (handleMessage_chunk cells msg Hmsg).
    apply initializeFullMap_vars. }
  destruct (loaded_bounds_on_map cells (vars w) Hne Hon) as (Bx0 & By0 & Bx1 & By1).
  destruct (loaded_origin cells (vars w) Hne) as [Hvx Hvy].
  rewrite <- Hs' in Bx0, By0, Bx1, By1, Hvx, Hvy.
  pose proof (is_minimum_unique _ _ _ Bx0 Hx0) as Ex0.
  pose proof (is_minimum_unique _ _ _ By0 Hy0) as Ey0.
  pose proof (is_maximum_unique _ _ _ Bx1 Hx1) as Ex1.
  pose proof (is_maximum_unique _ _ _ By1 Hy1) as Ey1.
  assert (∀ x y, origin (exec (Main.clampViewport x y) w') = (200, 200)) as Hall.
  { intros x y. rewrite clampViewport_origin, Ex0, Ey0, Ex1, Ey1.
    unfold VIEWPORT_SIZE_CELLS. simpl. f_equal; lia. }
  split; [unfold origin; congruence|].
  split; [apply Hall|]. split; [apply Hall|]. split; [apply Hall|].
  exact Hall.
Qed.

(** C8. A [map_cell_update] message for a coordinate that is not a key of
    the cell table is a no-op: the handler returns normally and leaves the
    whole world, the cell table and every other variable included, as it
    was. *)
Theorem map_cell_update_unknown_is_noop x y updates w :
  mapCells (vars w) !! cellKey x y = None →
  Main.handleMessage (map_cell_update x y updates) w = (Ok (), w).
Proof.
  intros Hk. simpl. unfold Main.updateMapCell.
  unfold mbind, M_bind, get. rewrite Hk. reflexivity.
Qed.

(** C2. Viewport clamping is idempotent: whatever the candidate origin
    and whatever the bounds (loaded, sentinel or any other), clamping the
    origin that a clamp has produced returns normally and changes nothing,
    in both versions of the client. *)
Theorem clampViewport_idempotent x y w :
  (let w1 := exec (Main.clampViewport x y) w in
   Main.clampViewport (viewportX (vars w1)) (viewportY (vars w1)) w1
     = (Ok (), w1)) ∧
  (let w1 := exec (Part000.clampViewport x y) w in
   Part000.clampViewport (viewportX (vars w1)) (viewportY (vars w1)) w1
     = (Ok (), w1)).
Proof. split; apply clampViewport_clamped. Qed.

End ChunkClaims.



Lemma chunk_200_299_spans :
  is_minimum 200 (cell_x <$> chunk_200_299) ∧
  is_maximum 299 (cell_x <$> chunk_200_299) ∧
  is_minimum 200 (cell_y <$> chunk_200_299) ∧
  is_maximum 299 (cell_y <$> chunk_200_299).
Proof.
  split; [apply is_minimum_check; vm_compute; reflexivity|].
  split; [apply is_maximum_check; vm_compute; reflexivity|].
  split; [apply is_minimum_check; vm_compute; reflexivity|].
  apply is_maximum_check; vm_compute; reflexivity.
Qed.

(** The scenario on the 100 x 100 chunk, loaded into the initial world. *)
Lemma chunk_200_299_pans_witness :
  let w' := exec (Main.handleMessage (full_map_init chunk_200_299)) world0 in
  origin w' = (200, 200) ∧
  origin (exec (Main.clampViewport 150 200) w') = (200, 200) ∧
  origin (exec (Main.clampViewport 205 205) w') = (200, 200) ∧
  origin (exec (Main.clampViewport 260 260) w') = (200, 200).
Proof.
  intros w'.
  destruct chunk_200_299_spans as (Hx0 & Hx1 & Hy0 & Hy1).
  destruct (chunk_200_299_pans chunk_200_299 (full_map_init chunk_200_299)
              world0 Hx0 Hx1 Hy0 Hy1 (or_introl eq_refl))
    as (H0 & H1 & H2 & H3 & _).
  exact (conj H0 (conj H1 (conj H2 H3))).
Defined.

(** C3 as stated fails at the pan to (205, 205): it does not go through
    unclamped, the origin stays at (200, 200). *)
Lemma pan_205_205_counterexample :
  let w' := exec (Main.handleMessage (full_map_init chunk_200_299)) world0 in
  origin (exec (Main.clampViewport 205 205) w') = (200, 200) ∧
  origin (exec (Main.clampViewport 205 205) w') ≠ (205, 205).
Proof.
  intros w'.
  assert (origin (exec (Main.clampViewport 205 205) w') = (200, 200)) as E.
  { rewrite clampViewport_origin. unfold w'.
    change (Main.handleMessage (full_map_init chunk_200_299))
      with (Main.initializeFullMap chunk_200_299).
    rewrite initializeFullMap_vars. vm_compute. reflexivity. }
  split; [exact E|]. rewrite E. discriminate.
Qed.

(** An update for (7, 7) when only (5, 5) is in the table. *)
Lemma map_cell_update_unknown_witness :
  let w := blank (loaded [mkCell 5 5 ∅] initial_state) in
  mapCells (vars w) !! cellKey 7 7 = None ∧
  Main.handleMessage (map_cell_update 7 7 {["terrain" := VNum 1]}) w
    = (Ok (), w).
Proof.
  intros w.
  assert (mapCells (vars w) !! cellKey 7 7 = None) as Hk
    by (vm_compute; reflexivity).
  split; [exact Hk|].
  apply (map_cell_update_unknown_is_noop 7 7 _ w Hk).
Defined.

(** ** Agents and hazards *)

Section Entities.
Context `{!Browser}.

Lemma findIndex_Some id l i :
  Main.findIndex id l = Some i ↔
  (∃ a, l !! i = Some a ∧ prop a "id" = id) ∧
  (∀ j a, (j < i)%nat → l !! j = Some a → prop a "id" ≠ id).
Proof.
  revert i. induction l as [|b l IH]; intros i; simpl.
  - split; [discriminate|]. intros [(a & Ha & _) _]. discriminate.
  - unfold strict_eq. case_bool_decide as Hb.
    + split.
      * intros [= <-]. split; [exists b; done|]. intros j a Hj. lia.
      * intros [(a & Ha & Hida) Hfirst]. destruct i as [|i]; [done|].
        exfalso. apply (Hfirst 0%nat b); [lia|done|done].
    + split.
      * intros Hfi. apply fmap_Some in Hfi as (k & Hk & ->).
        apply IH in Hk as [Hk1 Hk2]. split; [exact Hk1|].
        intros [|j] a Hj Ha; simpl in Ha; [congruence|].
        apply (Hk2 j a); [lia|done].
      * intros [(a & Ha & Hida) Hfirst]. destruct i as [|i].
        { simpl in Ha. congruence. }
        apply fmap_Some. exists i. split; [|done].
        apply IH. split; [exists a; done|].
        intros j a' Hj Ha'. apply (Hfirst (S j) a'); [lia|done].
Qed.

Lemma findIndex_None id l :
  Main.findIndex id l = None ↔ ∀ a, a ∈ l → prop a "id" ≠ id.
Proof.
  induction l as [|b l IH]; simpl.
  - split; [|done]. intros _ a Ha. inversion Ha.
  - unfold strict_eq. case_bool_decide as Hb.
    + split; [discriminate|]. intros Hall. exfalso.
      apply (Hall b); [apply list_elem_of_here|done].
    + rewrite fmap_None, IH. split.
      * intros Hall a Ha. apply elem_of_cons in Ha as [->|Ha]; [done|].
        apply Hall, Ha.
      * intros Hall a Ha. apply Hall, list_elem_of_further, Ha.
Qed.

Lemma find_id_None id l :
  Main.find_id id l = None ↔ ∀ a, a ∈ l → prop a "id" ≠ id.
Proof.
  unfold Main.find_id. induction l as [|b l IH]; simpl.
  - split; [|done]. intros _ a Ha. inversion Ha.
  - unfold strict_eq at 1. case_bool_decide as Hb.
    + split; [discriminate|]. intros Hall. exfalso.
      apply (Hall b); [apply list_elem_of_here|done].
    + rewrite IH. split.
      * intros Hall a Ha. apply elem_of_cons in Ha as [->|Ha]; [done|].
        apply Hall, Ha.
      * intros Hall a Ha. apply Hall, list_elem_of_further, Ha.
Qed.

(** The fields of [{ ...a, ...b }]. *)
Lemma prop_spread a b f :
  prop (spread a b) f =
  match prop b f with Some v => Some v | None => prop a f end.
Proof.
  unfold prop, spread. rewrite lookup_union.
  destruct (b !! f), (a !! f); reflexivity.
Qed.

(** [updateAgent] comes down to [render] once the list is updated. *)
Lemma updateAgent_run agentData w :
  ∃ w1, Main.updateAgent agentData w = Main.render w1 ∧
    vars w1 =
    set_agents
      match Main.findIndex (prop agentData "id") (agents (vars w)) with
      | Some index =>
          match agents (vars w) !! index with
          | Some old => <[index := spread old agentData]> (agents (vars w))
          | None => agents (vars w)
          end
      | None => agents (vars w) ++ [agentData]
      end
      (vars w).
Proof.
  unfold Main.updateAgent.
  destruct w as [s ? ? ? ? ? ? ?]. destruct s. run_prim.
  destruct (Main.findIndex (prop agentData "id") agents0) as [i|].
  - destruct (agents0 !! i) as [old|]; do 2 run_prim;
      eexists; split; reflexivity.
  - do 2 run_prim. eexists; split; reflexivity.
Qed.

Lemma updateAgent_vars agentData w :
  vars (exec (Main.updateAgent agentData) w) =
  set_agents
    match Main.findIndex (prop agentData "id") (agents (vars w)) with
    | Some index =>
        match agents (vars w) !! index with
        | Some old => <[index := spread old agentData]> (agents (vars w))
        | None => agents (vars w)
        end
    | None => agents (vars w) ++ [agentData]
    end
    (vars w).
Proof.
  destruct (updateAgent_run agentData w) as (w1 & E & Hv).
  unfold exec. rewrite E. fold (exec Main.render w1).
  rewrite Main_render_vars. exact Hv.
Qed.

(** C7. For every [agent_update] message: an id that no stored agent has
    appends the agent as a new entry; an id that is known replaces the
    first agent with that id by the field-wise merge, in which the fields
    of the update win and the fields it lacks are kept, and leaves the
    other entries alone; merging [{battery: 40}] and then
    [{battery: 30, status: "ok"}] yields [{battery: 30, status: "ok"}];
    an update without [x] and [y] leaves the stored position as it was. *)
Theorem agent_update_upserts agentData w :
  let id := prop agentData "id" in
  let l := agents (vars w) in
  let l' := agents (vars (exec (Main.handleMessage (agent_update agentData)) w)) in
  ((∀ a, a ∈ l → prop a "id" ≠ id) → l' = l ++ [agentData]) ∧
  (∀ i old,
     l !! i = Some old → prop old "id" = id →
     (∀ j a, (j < i)%nat → l !! j = Some a → prop a "id" ≠ id) →
     l' = <[i := spread old agentData]> l ∧
     (∀ f, prop (spread old agentData) f =
           match prop agentData f with
           | Some v => Some v
           | None => prop old f
           end) ∧
     (prop agentData "x" = None → prop agentData "y" = None →
      prop (spread old agentData) "x" = prop old "x" ∧
      prop (spread old agentData) "y" = prop old "y")) ∧
  spread {["battery" := VNum 40]}
         {["battery" := VNum 30; "status" := VStr "ok"]}
    = {["battery" := VNum 30; "status" := VStr "ok"]}.
Proof.
  intros id l l'.
  assert (l' = match Main.findIndex id l with
               | Some index =>
                   match l !! index with
                   | Some old => <[index := spread old agentData]> l
                   | None => l
                   end
               | None => l ++ [agentData]
               end) as Hl'.
  { unfold l'. change (Main.handleMessage (agent_update agentData))
      with (Main.updateAgent agentData).
    rewrite updateAgent_vars. reflexivity. }
  split; [|split].
  - intros Hnew. apply findIndex_None in Hnew. rewrite Hl', Hnew. reflexivity.
  - intros i old Hi Hid Hfirst.
    assert (Main.findIndex id l = Some i) as Hfi.
    { apply findIndex_Some. split; [exists old; done|exact Hfirst]. }
    split; [rewrite Hl', Hfi, Hi; reflexivity|].
    split; [intros f; apply prop_spread|].
    intros Hx Hy. rewrite !prop_spread, Hx, Hy. done.
  - apply map_eq. intros f. unfold spread. rewrite lookup_union.
    destruct (decide (f = "battery")) as [->|Hb]; [reflexivity|].
    rewrite (lookup_singleton_ne "battery" f) by done.
    destruct (_ !! f); reflexivity.
Qed.

(** What [render] leaves alone, and what it paints. *)
Lemma Main_render_picture w :
  ∃ o c, Main.render w =
    (o, set_ctx c (set_canvas (picture Main.render (vars w) ++ canvas w) w)).
Proof.
  destruct (Main_render_paints (vars w)) as (o & c & ops & Hr).
  exists o, c. unfold picture, exec.
  rewrite (Hr (blank (vars w)) eq_refl Logic.I). simpl. rewrite app_nil_r.
  apply Hr; done.
Qed.

Lemma Part000_render_picture w :
  ∃ o c, Part000.render w =
    (o, set_ctx c (set_canvas (picture Part000.render (vars w) ++ canvas w) w)).
Proof.
  destruct (Part000_render_paints (vars w)) as (o & c & ops & Hr).
  exists o, c. unfold picture, exec.
  rewrite (Hr (blank (vars w)) eq_refl Logic.I). simpl. rewrite app_nil_r.
  apply Hr; done.
Qed.

(** The earlier client stores a hazard once per id. *)
Lemma Part000_addHazard_run hazard w :
  ∃ w1, Part000.addHazard hazard w = Part000.render w1 ∧
    ctx w1 = ctx w ∧ canvas w1 = canvas w ∧
    match Main.find_id (prop hazard "id") (hazards (vars w)) with
    | None =>
        vars w1 = set_hazards (hazards (vars w) ++ [hazard]) (vars w) ∧
        ∃ entry, messagesContainer w1 = messagesContainer w ++ [entry]
    | Some _ => w1 = w
    end.
Proof.
  unfold Part000.addHazard.
  destruct w as [s ? ? ? ? ? ? ?]. destruct s. run_prim.
  destruct (Main.find_id (prop hazard "id") hazards0) as [h|].
  - run_prim. eexists. split; [reflexivity|]. done.
  - run_prim. eexists. split; [reflexivity|].
    split; [reflexivity|]. split; [reflexivity|].
    split; [reflexivity|]. eexists. reflexivity.
Qed.

(** [public/main.js] only reports a hazard. *)
Lemma Main_addHazard_run hazard w :
  ∃ w1 entry, Main.addHazard hazard w = Main.render w1 ∧
    w1 = set_messagesContainer (messagesContainer w ++ [entry]) w.
Proof.
  unfold Main.addHazard. run_prim. eexists _, _. split; reflexivity.
Qed.


End Entities.

(** A first sighting of "r1" at (250, 250), then an update that carries
    only the battery. *)
Lemma agent_update_witness :
  let a1 : obj := {[ "id" := VStr "r1"; "x" := VNum 250; "y" := VNum 250;
                     "battery" := VNum 90 ]} in
  let a2 : obj := {[ "id" := VStr "r1"; "battery" := VNum 40 ]} in
  let w1 := exec (Main.handleMessage (agent_update a1)) world0 in
  let w2 := exec (Main.handleMessage (agent_update a2)) w1 in
  agents (vars w1) = [a1] ∧
  agents (vars w2) = [spread a1 a2] ∧
  prop (spread a1 a2) "battery" = Some (VNum 40) ∧
  prop (spread a1 a2) "x" = Some (VNum 250) ∧
  prop (spread a1 a2) "y" = Some (VNum 250).
Proof.
  intros a1 a2 w1 w2.
  assert (agents (vars w1) = [a1]) as H1.
  { destruct (agent_update_upserts a1 world0) as (Hnew & _ & _).
    apply Hnew. intros a Ha. inversion Ha. }
  destruct (agent_update_upserts a2 w1) as (_ & Hknown & _).
  destruct (Hknown 0%nat a1) as (H2 & _ & Hpos).
  { rewrite H1. reflexivity. }
  { reflexivity. }
  { intros j a Hj. lia. }
  destruct Hpos as [Hx Hy]; [reflexivity|reflexivity|].
  split; [exact H1|]. split; [unfold w2; rewrite H2, H1; reflexivity|].
  split; [reflexivity|]. split; [exact Hx|exact Hy].
Defined.



(** ** The event loop *)

Section Events.
Context `{!Browser}.

Lemma run_cons e es w : Main.run (e :: es) w = Main.run es (Main.step e w).
Proof. reflexivity. Qed.

End Events.

(** As [preserves_step], with [render] as one step. *)
Ltac handler_step :=
  lazymatch goal with
  | |- preserves _ Main.render => apply Main_render_preserves
  | |- preserves _ Part000.render => apply Part000_render_preserves
  | |- _ => preserves_step
  end.

(** Unfolds the handlers of [public/main.js], down to the primitives, to
    [render] and to [clampViewport]. *)
Ltac unfold_handlers :=
  unfold Main.handle, Main.onload, Main.connectWebSocket, Main.onopen,
    Main.onerror, Main.onclose, Main.handleMessage, Main.updateMapCell,
    Main.updateAgent, Main.addResource, Main.addHazard,
    Main.markCellExplored, Main.updateStats, Main.mousedown, Main.mouseup,
    Main.mousemove, Main.click, Main.keydown, Main.selectAgent,
    Main.startSimulation, Main.confirmStartSimulation,
    Main.cancelStartSimulation, Main.toggleSimulation, Main.sendCommand.

Section Invariants.
Context `{!Browser}.

(** An invariant of the variables that the chunk loader, the reset, the
    clamp and the assignments of the other handlers keep is kept by every
    event that satisfies [ok]. *)
Lemma selectAgent_preserves (I : state → Prop) agent :
  (∀ v s, I s → I (set_selectedAgent v s)) →
  preserves I (Main.selectAgent agent).
Proof.
  intros Hsel. unfold Main.selectAgent. repeat handler_step. apply Hsel.
Qed.

Lemma handle_preserves (I : state → Prop) (ok : Main.event → bool) :
  (∀ cells, ok (Main.WsMessage (full_map_init cells)) = true →
            preserves I (Main.initializeFullMap cells)) →
  (∀ cells, ok (Main.WsMessage (update_map cells)) = true →
            preserves I (Main.initializeFullMap cells)) →
  preserves I Main.resetSimulation →
  (∀ x y, preserves I (Main.clampViewport x y)) →
  (∀ v s, I s → I (set_ws v s)) →
  (∀ v s, I s → I (set_isRunning v s)) →
  (∀ v s, I s → I (set_simulationStarted v s)) →
  (∀ v s, I s → I (set_agents v s)) →
  (∀ v s, I s → I (set_resources v s)) →
  (∀ v s, I s → I (set_exploredCells v s)) →
  (∀ v s, I s → I (set_selectedAgent v s)) →
  (∀ k c s, is_Some (mapCells s !! k) → I s →
            I (set_mapCells (<[k := c]> (mapCells s)) s)) →
  (∀ v s, I s → I (set_isDragging v s)) →
  (∀ v s, I s → I (set_lastMouseX v s)) →
  (∀ v s, I s → I (set_lastMouseY v s)) →
  (ok Main.WsOpen = true ∨ ok Main.WsClose = true →
   ∀ v s, I s → I (set_reconnectAttempts v s)) →
  ∀ e, ok e = true → preserves I (Main.handle e).
Proof.
  intros Hfull Hupd Hreset Hclamp Hws Hrun Hstarted Hagents Hres Hexp Hsel
    Hcell Hdrag Hmx Hmy Hrec e Hok.
  pose proof (selectAgent_preserves I) as Hselect.
  assert (∀ e', e' = e → preserves I (Main.handle e')) as Hgoal;
    [|apply Hgoal; reflexivity].
  intros e' He'. rewrite <- He' in Hok.
  destruct e' as [| | | |data| | | | | | | |i| | | | | | ];
    lazymatch goal with
    | |- preserves _ (Main.handle Main.ResetButton) => exact Hreset
    | |- preserves _ (Main.handle Main.ReconnectTimer) => idtac
    | |- preserves _ (Main.handle (Main.WsMessage _)) => idtac
    | |- preserves _ (Main.handle (Main.AgentItemClick _)) => idtac
    | |- _ =>
        unfold_handlers; repeat handler_step;
        lazymatch goal with
        | |- preserves _ (Main.clampViewport _ _) => apply Hclamp
        | |- ∀ s, _ → _ =>
            first [ apply Hws | apply Hrun | apply Hstarted | apply Hagents
                  | apply Hres | apply Hexp | apply Hsel | apply Hdrag
                  | apply Hmx | apply Hmy
                  | apply Hrec; auto ]
        end
    end.
  - (* ReconnectTimer *)
    intros w Hw. unfold exec. simpl. destruct (timers w); [exact Hw|].
    apply Hws, Hw.
  - (* WsMessage *)
    destruct data;
      lazymatch goal with
      | |- preserves _ (Main.handle (Main.WsMessage (full_map_init _))) =>
          apply Hfull, Hok
      | |- preserves _ (Main.handle (Main.WsMessage (update_map _))) =>
          apply Hupd, Hok
      | |- preserves _ (Main.handle (Main.WsMessage (map_cell_update _ _ _))) =>
          idtac
      | |- _ =>
          unfold_handlers; repeat handler_step;
          first [ apply Hstarted | apply Hagents | apply Hres | apply Hexp ]
      end.
    (* map_cell_update *)
    intros w Hw. unfold exec. simpl. unfold Main.updateMapCell, mbind, M_bind, get.
    destruct (mapCells (vars w) !! cellKey x y) as [old|] eqn:Hk;
      [|exact Hw].
    simpl. fold (exec Main.render
      (set_vars (set_mapCells
         (<[cellKey x y := spread old updates]> (mapCells (vars w)))
         (vars w)) w)).
    rewrite Main_render_vars. simpl. apply Hcell; [rewrite Hk; eauto|exact Hw].
  - (* AgentItemClick *)
    intros w Hw. unfold exec. simpl. destruct (agentsList w !! i) as [o|];
      [|exact Hw].
    apply (Hselect o Hsel w Hw).
Qed.

End Invariants.

(** ** Reset *)

Section Reset.
Context `{!Browser}.

Lemma Main_render_picture_ok w :
  resources (vars w) = [] → agents (vars w) = [] →
  ∃ c, Main.render w =
    (Ok (), set_ctx c (set_canvas (picture Main.render (vars w) ++ canvas w) w)).
Proof.
  intros Hr Ha.
  destruct (Main_render_returns (vars w) Hr Ha) as (c & ops & Hok).
  exists c.
  assert (picture Main.render (vars w) = ops) as ->.
  { unfold picture, exec. rewrite (Hok (blank (vars w)) eq_refl Logic.I).
    simpl. apply app_nil_r. }
  apply Hok; done.
Qed.

Lemma Part000_render_picture_ok w :
  hazards (vars w) = [] → resources (vars w) = [] → agents (vars w) = [] →
  ∃ c, Part000.render w =
    (Ok (),
     set_ctx c (set_canvas (picture Part000.render (vars w) ++ canvas w) w)).
Proof.
  intros Hh Hr Ha.
  destruct (Part000_render_returns (vars w) Hh Hr Ha) as (c & ops & Hok).
  exists c.
  assert (picture Part000.render (vars w) = ops) as ->.
  { unfold picture, exec. rewrite (Hok (blank (vars w)) eq_refl Logic.I).
    simpl. apply app_nil_r. }
  apply Hok; done.
Qed.

(** [resetSimulation] of [public/main.js] returns normally; it leaves the
    hazards as they were and clears the rest; what it paints is the
    picture of the variables it leaves. *)
Lemma Main_resetSimulation_run w :
  ∃ w', Main.resetSimulation w = (Ok (), w') ∧
    hazards (vars w') = hazards (vars w) ∧
    reconnectAttempts (vars w') = reconnectAttempts (vars w) ∧
    (hazards (vars w) = [] → cleared (vars w')) ∧
    unloaded (vars w') ∧ zero_bounds (vars w') ∧
    canvas w' = picture Main.render (vars w') ++ canvas w ∧
    agentsList w' = agents (vars w') ∧
    messagesContainer w' = [("System", "Visualization reset")].
Proof.
  unfold Main.resetSimulation.
  destruct w as [s ? ? ? ? ? ? ?]. destruct s. run_prim.
  match goal with |- context [when ?b _] => destruct b end;
    run_prim; do 14 run_prim;
    match goal with |- context [(Main.render ≫= _) ?W] =>
      destruct (Main_render_picture_ok W eq_refl eq_refl) as (c & Hr)
    end;
    (erewrite run_bind_ok; [|exact Hr]); world_simpl;
    (eexists; split; [reflexivity|]); world_simpl;
    unfold cleared, unloaded, zero_bounds; simpl; intuition.
Qed.

Lemma Part000_resetSimulation_run w :
  ∃ w', Part000.resetSimulation w = (Ok (), w') ∧
    cleared (vars w') ∧
    canvas w' = picture Part000.render (vars w') ++ canvas w ∧
    agentsList w' = agents (vars w') ∧
    messagesContainer w' = [("System", "Visualization reset")].
Proof.
  unfold Part000.resetSimulation.
  destruct w as [s ? ? ? ? ? ? ?]. destruct s.
  do 14 run_prim.
  match goal with |- context [(Part000.render ≫= _) ?W] =>
    destruct (Part000_render_picture_ok W eq_refl eq_refl eq_refl) as (c & Hr)
  end.
  erewrite run_bind_ok; [|exact Hr]. world_simpl.
  eexists. split; [reflexivity|]. world_simpl.
  unfold cleared, zero_bounds. simpl. intuition.
Qed.

(** *** Invariants of the event loop *)

Lemma loaded_frame cells s :
  hazards (loaded cells s) = hazards s ∧
  reconnectAttempts (loaded cells s) = reconnectAttempts s.
Proof. destruct s, cells; split; reflexivity. Qed.

Lemma clampViewport_frame x y w :
  hazards (vars (exec (Main.clampViewport x y) w)) = hazards (vars w) ∧
  reconnectAttempts (vars (exec (Main.clampViewport x y) w))
    = reconnectAttempts (vars w).
Proof.
  unfold exec. rewrite clampViewport_run. destruct w as [s ? ? ? ? ? ? ?].
  destruct s. split; reflexivity.
Qed.

(** No handler of [public/main.js] writes the hazard collection. *)
Lemma hazards_never_written e w :
  hazards (vars (Main.step e w)) = hazards (vars w).
Proof.
  apply (handle_preserves (λ s, hazards s = hazards (vars w)) (λ _, true));
    try (intros; assumption); try reflexivity.
  - intros cells _ w1 Hw1. rewrite initializeFullMap_vars.
    rewrite (proj1 (loaded_frame _ _)). exact Hw1.
  - intros cells _ w1 Hw1. rewrite initializeFullMap_vars.
    rewrite (proj1 (loaded_frame _ _)). exact Hw1.
  - intros w1 Hw1.
    destruct (Main_resetSimulation_run w1) as (w' & E & Hh & _).
    unfold exec. rewrite E. simpl. congruence.
  - intros x y w1 Hw1. rewrite (proj1 (clampViewport_frame _ _ _)). exact Hw1.
Qed.

Lemma hazards_stay_empty es w :
  hazards (vars w) = [] → hazards (vars (Main.run es w)) = [].
Proof.
  revert w. induction es as [|e es IH]; intros w Hw; [exact Hw|].
  rewrite run_cons. apply IH. rewrite hazards_never_written. exact Hw.
Qed.

(** Only the opening and the closing of the socket write the counter. *)
Lemma attempts_kept e w :
  keeps_socket e = true →
  reconnectAttempts (vars (Main.step e w)) = reconnectAttempts (vars w).
Proof.
  intros He.
  apply (handle_preserves
           (λ s, reconnectAttempts s = reconnectAttempts (vars w)) keeps_socket);
    try (intros; assumption); try reflexivity; try exact He.
  - intros cells _ w1 Hw1. rewrite initializeFullMap_vars.
    rewrite (proj2 (loaded_frame _ _)). exact Hw1.
  - intros cells _ w1 Hw1. rewrite initializeFullMap_vars.
    rewrite (proj2 (loaded_frame _ _)). exact Hw1.
  - intros w1 Hw1.
    destruct (Main_resetSimulation_run w1) as (w' & E & _ & Hr & _).
    unfold exec. rewrite E. simpl. congruence.
  - intros x y w1 Hw1. rewrite (proj2 (clampViewport_frame _ _ _)). exact Hw1.
  - intros [Ho|Hc]; discriminate.
Qed.

(** While no chunk with cells arrives, the map stays unloaded. *)
Lemma unloaded_kept e w :
  loads_chunk e = false → unloaded (vars w) → unloaded (vars (Main.step e w)).
Proof.
  intros He.
  apply (handle_preserves unloaded (λ e, negb (loads_chunk e)));
    try (intros; assumption); try (rewrite He; reflexivity).
  - intros [|c cells] Hok w1 Hw1; [|discriminate].
    rewrite initializeFullMap_vars. destruct (vars w1).
    unfold unloaded in *. simpl in *. intuition.
  - intros [|c cells] Hok w1 Hw1; [|discriminate].
    rewrite initializeFullMap_vars. destruct (vars w1).
    unfold unloaded in *. simpl in *. intuition.
  - intros w1 _.
    destruct (Main_resetSimulation_run w1) as (w' & E & _ & _ & _ & Hu & _).
    unfold exec. rewrite E. exact Hu.
  - intros x y w1 Hw1. unfold exec. rewrite clampViewport_run.
    destruct (vars w1). unfold unloaded, MAP_SIZE_CELLS, VIEWPORT_SIZE_CELLS in *.
    simpl in *.
    destruct Hw1 as ([[-> ->]|[-> ->]] & -> & -> & -> & ->); simpl;
      repeat split; auto; lia.
Qed.

(** While no map message arrives at all, the bounds stay at 0. *)
Lemma zero_bounds_kept e w :
  chunk_message e = false →
  zero_bounds (vars w) → zero_bounds (vars (Main.step e w)).
Proof.
  intros He.
  apply (handle_preserves zero_bounds (λ e, negb (chunk_message e)));
    try (intros; assumption); try (rewrite He; reflexivity);
    try discriminate.
  - intros w1 _.
    destruct (Main_resetSimulation_run w1) as (w' & E & _ & _ & _ & _ & Hz & _).
    unfold exec. rewrite E. exact Hz.
  - intros x y w1 Hw1. unfold exec. rewrite clampViewport_run.
    destruct (vars w1). exact Hw1.
Qed.

Lemma unloaded_run es w :
  Forall (λ e, loads_chunk e = false) es →
  unloaded (vars w) → unloaded (vars (Main.run es w)).
Proof.
  revert w. induction es as [|e es IH]; intros w Hes Hw; [exact Hw|].
  apply Forall_cons in Hes as [He Hes]. rewrite run_cons.
  apply IH; [exact Hes|]. apply unloaded_kept; assumption.
Qed.

Lemma zero_bounds_run es w :
  Forall (λ e, chunk_message e = false) es →
  zero_bounds (vars w) → zero_bounds (vars (Main.run es w)).
Proof.
  revert w. induction es as [|e es IH]; intros w Hes Hw; [exact Hw|].
  apply Forall_cons in Hes as [He Hes]. rewrite run_cons.
  apply IH; [exact Hes|]. apply zero_bounds_kept; assumption.
Qed.


(** C10 (as amended). In every world reached after [resetSimulation] by
    events none of which loads a chunk with cells, the map is unloaded:
    the maxima are 0, the origin is (0, 0), and the minima are both 0 or,
    once an empty chunk has been handled, both [MAP_SIZE_CELLS]; they are
    0 as long as no map message has come at all, and then the sentinel
    test of [clampViewport] fails.  In every such world [clampViewport]
    puts the origin at (0, 0) for every candidate. *)
Theorem viewport_pinned_after_reset w0 es :
  Forall (λ e, loads_chunk e = false) es →
  let w := Main.run es (Main.step Main.ResetButton w0) in
  unloaded (vars w) ∧
  (Forall (λ e, chunk_message e = false) es →
   zero_bounds (vars w) ∧
   (mapMaxX (vars w) =? 0) && (mapMinX (vars w) =? MAP_SIZE_CELLS) = false) ∧
  ∀ x y, origin (exec (Main.clampViewport x y) w) = (0, 0).
Proof.
  intros Hes w.
  destruct (Main_resetSimulation_run w0)
    as (w1 & E & _ & _ & _ & Hu & Hz & _).
  assert (Main.step Main.ResetButton w0 = w1) as Hstep.
  { unfold Main.step, exec. simpl. rewrite E. reflexivity. }
  assert (unloaded (vars w)) as Hw.
  { unfold w. rewrite Hstep. apply unloaded_run; assumption. }
  split; [exact Hw|]. split.
  - intros Hno. assert (zero_bounds (vars w)) as Hzw.
    { unfold w. rewrite Hstep. apply zero_bounds_run; assumption. }
    split; [exact Hzw|]. destruct Hzw as (-> & _ & -> & _). reflexivity.
  - intros x y. rewrite clampViewport_origin.
    destruct Hw as ([[-> ->]|[-> ->]] & -> & -> & _); simpl; [|reflexivity].
    unfold VIEWPORT_SIZE_CELLS. f_equal; lia.
Qed.


End Reset.


(** After a reset, a key press and an empty chunk: the origin stays put. *)
Lemma viewport_pinned_after_reset_witness :
  let es := [Main.KeyDown "ArrowRight"; Main.WsMessage (full_map_init [])] in
  let w := Main.run es (Main.step Main.ResetButton world0) in
  Forall (λ e, loads_chunk e = false) es ∧
  unloaded (vars w) ∧
  origin (exec (Main.clampViewport 42 17) w) = (0, 0).
Proof.
  intros es w.
  assert (Forall (λ e, loads_chunk e = false) es) as Hes
    by (repeat constructor).
  destruct (viewport_pinned_after_reset world0 es Hes) as (Hu & _ & Hc).
  exact (conj Hes (conj Hu (Hc 42 17))).
Defined.

(** C10 as stated fails after an empty chunk: the minima are at the
    sentinel [MAP_SIZE_CELLS], not at 0. *)
Lemma empty_chunk_after_reset_counterexample :
  let es := [Main.WsMessage (full_map_init [])] in
  let w := Main.run es (Main.step Main.ResetButton world0) in
  Forall (λ e, loads_chunk e = false) es ∧
  mapMinX (vars w) = 1000 ∧ mapMinY (vars w) = 1000 ∧
  ¬ zero_bounds (vars w).
Proof.
  intros es w.
  assert (mapMinX (vars w) = 1000 ∧ mapMinY (vars w) = 1000) as [Ex Ey].
  { unfold w, es. rewrite run_cons. unfold Main.run. simpl foldl.
    unfold Main.step at 1. simpl Main.handle.
    rewrite initializeFullMap_vars.
    destruct (vars (Main.step Main.ResetButton world0)). split; reflexivity. }
  split; [repeat constructor|]. split; [exact Ex|]. split; [exact Ey|].
  intros (Hx & _). rewrite Ex in Hx. discriminate.
Qed.


(** ** The renderer *)

Section Renderer.
Context `{!Browser}.

Lemma render_reads_only_of (render : M unit) :
  (∀ s, ∃ o c ops, paints s (λ _, True) render o (λ _, c) ops) →
  ∀ s, ∃ o c, ∀ k cv ms al st tm sn,
    render (mkWorld s k cv ms al st tm sn)
      = (o, mkWorld s c (picture render s ++ cv) ms al st tm sn).
Proof.
  intros Hr s. destruct (Hr s) as (o & c & ops & Hp). exists o, c.
  assert (picture render s = ops) as ->.
  { unfold picture, exec. rewrite (Hp (blank s) eq_refl Logic.I).
    simpl. apply app_nil_r. }
  intros k cv ms al st tm sn.
  apply (Hp (mkWorld s k cv ms al st tm sn) eq_refl Logic.I).
Qed.

(** C9. Every invocation of [render] leaves all the variables as they
    are ([mapCells], [agents], [resources], [hazards], [exploredCells],
    the bounds, the origin, [selectedAgent], the connection state and the
    others), and touches nothing but the canvas and its drawing state.
    For given variables it ends in one way and paints one picture,
    whatever the canvas and its drawing state were before: two
    invocations on the same variables draw the same.  The timer runs the
    very function that the handlers call.  This holds for both versions
    of the client. *)
Theorem render_is_a_pure_projection :
  (∀ s, ∃ o c, ∀ k cv ms al st tm sn,
     Main.render (mkWorld s k cv ms al st tm sn)
       = (o, mkWorld s c (picture Main.render s ++ cv) ms al st tm sn)) ∧
  (∀ s, ∃ o c, ∀ k cv ms al st tm sn,
     Part000.render (mkWorld s k cv ms al st tm sn)
       = (o, mkWorld s c (picture Part000.render s ++ cv) ms al st tm sn)) ∧
  (∀ w, vars (exec Main.render w) = vars w) ∧
  (∀ w, vars (exec Part000.render w) = vars w) ∧
  Main.handle Main.Tick = Main.render.
Proof.
  split; [apply render_reads_only_of, Main_render_paints|].
  split; [apply render_reads_only_of, Part000_render_paints|].
  split; [apply Main_render_vars|].
  split; [apply Part000_render_vars|]. reflexivity.
Qed.

End Renderer.

(** * Further properties of the client *)

Section Keeps.
Context `{!Browser}.
Context (J : world → Prop).

Lemma keeps_ret {A} (a : A) : keeps J (mret a : M A).
Proof. intros w Hw. exact Hw. Qed.

Lemma keeps_throw {A} e : keeps J (throw e : M A).
Proof. intros w Hw. exact Hw. Qed.

Lemma keeps_get : keeps J get.
Proof. intros w Hw. exact Hw. Qed.

Lemma keeps_bind {A B} (m : M A) (f : A → M B) :
  keeps J m → (∀ a, keeps J (f a)) → keeps J (m ≫= f).
Proof.
  intros Hm Hf w Hw. rewrite exec_bind.
  destruct (fst (m w)); [apply Hf|]; apply Hm, Hw.
Qed.

Lemma keeps_forEach {A} (l : list A) (f : A → M unit) :
  (∀ a, keeps J (f a)) → keeps J (forEach l f).
Proof.
  intros Hf. induction l as [|a l IH]; simpl.
  - apply keeps_ret.
  - apply keeps_bind; [apply Hf | intros _; exact IH].
Qed.

Lemma keeps_when (b : bool) (m : M unit) : keeps J m → keeps J (when b m).
Proof. intros Hm. destruct b; [exact Hm | apply keeps_ret]. Qed.

Lemma keeps_render : off_canvas J → keeps J Main.render.
Proof.
  intros HJ w Hw. unfold exec.
  destruct (Main_render_picture w) as (o & c & ->). apply HJ, Hw.
Qed.

Lemma keeps_clampViewport x y :
  (∀ v w, J w → J (set_vars (set_viewportX v (vars w)) w)) →
  (∀ v w, J w → J (set_vars (set_viewportY v (vars w)) w)) →
  keeps J (Main.clampViewport x y).
Proof.
  intros Hx Hy w Hw. unfold exec. rewrite clampViewport_run.
  apply (Hy _ (set_vars _ w)), Hx, Hw.
Qed.

End Keeps.

(** Breaks a goal [keeps J m] down along the structure of [m]; what is
    left are the primitives that [J] has to be checked against. *)
Ltac keeps_step :=
  lazymatch goal with
  | |- keeps _ (mbind _ _) => apply keeps_bind; [|intros ?]
  | |- keeps _ (mret _) => apply keeps_ret
  | |- keeps _ (throw _) => apply keeps_throw
  | |- keeps _ get => apply keeps_get
  | |- keeps _ (forEach _ _) => apply keeps_forEach; intros ?
  | |- keeps _ (when _ _) => apply keeps_when
  | |- keeps _ Main.render => apply keeps_render
  | |- keeps _ (match ?x with _ => _ end) => destruct x
  | |- keeps _ (let _ := _ in _) => cbv zeta
  end.

(** The handlers of [public/main.js], all of them, down to the primitives
    and to [render]. *)
Ltac unfold_all_handlers :=
  unfold_handlers;
  unfold Main.initializeFullMap, Main.load_cell, Main.resetSimulation,
    Main.clampViewport.

(** Settles what [keeps_step] leaves when the primitive does not touch
    what [J] is about. *)
Ltac keeps_trivial :=
  lazymatch goal with
  | |- keeps _ _ => let w := fresh "w" in let Hw := fresh "Hw" in
                    intros w Hw; exact Hw
  | |- off_canvas _ => let w := fresh "w" in let Hw := fresh "Hw" in
                    intros ? ? w Hw; exact Hw
  | |- _ => intros; lazymatch goal with Hw : _ |- _ => exact Hw end
  end.

(** Opens a world into its fields, under fixed names. *)
Ltac open_world w :=
  destruct w as [[wsv running started ags ress hazs expl selv cells
                  minX minY maxX maxY vX vY drag lmX lmY att]
                 cx cv feed alist status tms snt].

Section Frames.
Context `{!Browser}.

Lemma sendCommand_run cmd w :
  Main.sendCommand cmd w =
  (Ok (),
   match selectedAgent (vars w) with
   | Some sel =>
       if ws_is_open (vars w)
       then set_messagesContainer
              (messagesContainer w ++
                 [("Command",
                   "Sent: " +:+ cmd +:+ " to " +:+ show (prop sel "id"))])
              (set_sent (sent w ++ [command cmd (prop sel "id")]) w)
       else set_messagesContainer
              (messagesContainer w ++
                 [("System", "Not connected to SPADE - command ignored")]) w
   | None =>
       set_messagesContainer
         (messagesContainer w ++
            [("System", "Not connected to SPADE - command ignored")]) w
   end).
Proof.
  unfold Main.sendCommand. open_world w.
  run_prim. destruct selv as [sel|]; [|reflexivity].
  destruct (ws_is_open _); reflexivity.
Qed.

Lemma confirmStartSimulation_run configFile w :
  Main.confirmStartSimulation configFile w =
  (Ok (),
   if bool_decide (configFile = "") then
     set_messagesContainer
       (messagesContainer w ++
          [("System", "Error: Please enter a configuration file name")]) w
   else if ws_is_open (vars w) then
     set_sent (sent w ++ [start_simulation configFile;
                          request_stats_and_map_data])
       (set_messagesContainer
          (messagesContainer w ++
             [("System",
               "Requesting simulation start with config: " +:+ configFile)])
          (set_vars (set_simulationStarted true (vars w)) w))
   else
     set_messagesContainer
       (messagesContainer w ++ [("System", "Error: Not connected to server")])
       w).
Proof.
  unfold Main.confirmStartSimulation. open_world w.
  case_bool_decide; [reflexivity|]. run_prim.
  destruct (ws_is_open _); [|reflexivity].
  do 3 run_prim. unfold ws_send. world_simpl. rewrite <- app_assoc.
  reflexivity.
Qed.

Lemma toggleSimulation_run w :
  Main.toggleSimulation w =
  (Ok (),
   if negb (simulationStarted (vars w)) then
     set_messagesContainer
       (messagesContainer w ++ [("System", "No simulation running")]) w
   else
     let w1 := set_vars (set_isRunning (negb (isRunning (vars w))) (vars w)) w in
     if ws_is_open (vars w) then
       if negb (isRunning (vars w)) then
         set_messagesContainer
           (messagesContainer w ++ [("System", "Resuming simulation...")])
           (set_sent (sent w ++ [resume_simulation]) w1)
       else
         set_messagesContainer
           (messagesContainer w ++ [("System", "Pausing simulation...")])
           (set_sent (sent w ++ [pause_simulation]) w1)
     else
       set_messagesContainer
         (messagesContainer w ++ [("System", "Not connected to server")]) w1).
Proof.
  unfold Main.toggleSimulation. open_world w. run_prim.
  destruct started; [|reflexivity]. change (negb true) with false.
  cbv iota.   do 2 run_prim.
  change (ws_is_open _) with (bool_decide (wsv = Some OPEN)).
  destruct (bool_decide (wsv = Some OPEN)); [|reflexivity].
  destruct running; reflexivity.
Qed.

(** [resetSimulation], in full: it returns normally; it sends
    [stop_simulation] when a simulation was started and the socket is
    open; it leaves the socket, [isRunning], the hazards, the drag state
    and the reconnection counter, and clears the rest. *)
Lemma Main_resetSimulation_world w :
  ∃ c,
    Main.resetSimulation w =
    (Ok (),
     let s := vars w in
     let s' :=
       mkState (ws s) (isRunning s) false [] [] (hazards s) ∅ None ∅
         0 0 0 0 0 0 (isDragging s) (lastMouseX s) (lastMouseY s)
         (reconnectAttempts s) in
     mkWorld s' c (picture Main.render s' ++ canvas w)
       [("System", "Visualization reset")] [] (statusEl w) (timers w)
       (sent w ++
          if simulationStarted s && ws_is_open s then [stop_simulation]
          else [])).
Proof.
  unfold Main.resetSimulation. open_world w. run_prim.
  change (ws_is_open _) with (bool_decide (wsv = Some OPEN)).
  destruct (started && bool_decide (wsv = Some OPEN));
    run_prim; do 14 run_prim;
    match goal with |- context [(Main.render ≫= _) ?W] =>
      destruct (Main_render_picture_ok W eq_refl eq_refl) as (c & Hr)
    end;
    (erewrite run_bind_ok; [|exact Hr]); world_simpl;
    exists c; rewrite ?app_nil_r; reflexivity.
Qed.

Lemma keeps_ReconnectTimer (J : world → Prop) :
  (∀ tm w, J w → J (set_timers tm w)) →
  keeps J Main.connectWebSocket →
  keeps J (Main.handle Main.ReconnectTimer).
Proof.
  intros Htm Hc w Hw. unfold exec. simpl. destruct (timers w); [exact Hw|].
  apply (Hc (set_timers _ w)), Htm, Hw.
Qed.

Lemma keeps_AgentItemClick (J : world → Prop) i :
  (∀ a, keeps J (Main.selectAgent a)) →
  keeps J (Main.handle (Main.AgentItemClick i)).
Proof.
  intros Hs w Hw. unfold exec. simpl.
  destruct (agentsList w !! i) as [a|]; [apply (Hs a w Hw)|exact Hw].
Qed.

End Frames.

(** Breaks [keeps J (Main.handle e)], for an event [e] of known kind,
    down to the primitives. *)
Ltac keeps_handle :=
  lazymatch goal with
  | |- keeps _ (Main.handle Main.ReconnectTimer) =>
      apply keeps_ReconnectTimer; [|unfold_all_handlers; repeat keeps_step]
  | |- keeps _ (Main.handle (Main.AgentItemClick _)) =>
      apply keeps_AgentItemClick; intros ?;
      unfold_all_handlers; repeat keeps_step
  | |- keeps _ (Main.handle _) => unfold_all_handlers; repeat keeps_step
  end.

(** Case analysis on an event, and on the message it carries. *)
Ltac event_cases e :=
  let data := fresh "data" in
  destruct e as [| | | |data| | | | | | | | | | | | | | ];
  [..|idtac]; try (destruct data).

Section Outbound.
Context `{!Browser}.

(** X1. No frame goes out unless a button is pressed while the socket is
    open: server messages, socket and timer events, the mouse and the
    keyboard never send, and with the socket not open no event does. *)
Theorem frames_need_a_button_and_an_open_socket e w :
  button_that_sends e = false ∨ ws_is_open (vars w) = false →
  sent (Main.step e w) = sent w.
Proof.
  intros Hcase.
  destruct (button_that_sends e) eqn:Hb.
  - destruct Hcase as [Hcase|Hopen]; [discriminate|].
    unfold Main.step, exec.
    destruct e; try discriminate Hb; unfold Main.handle.
    + rewrite confirmStartSimulation_run, Hopen.
      case_bool_decide; destruct w; reflexivity.
    + rewrite toggleSimulation_run, Hopen.
      destruct (simulationStarted (vars w)); destruct w; reflexivity.
    + destruct (Main_resetSimulation_world w) as (c & ->). cbv zeta.
      rewrite Hopen.
      rewrite andb_false_r. simpl. apply app_nil_r.
    + rewrite sendCommand_run, Hopen.
      destruct (selectedAgent (vars w)); destruct w; reflexivity.
  - clear Hcase.
    assert (keeps (λ w', sent w' = sent w) (Main.handle e)) as Hk;
      [|apply Hk; reflexivity].
    event_cases e; try discriminate Hb; keeps_handle; keeps_trivial.
Qed.

Lemma step_keeps {T} (π : world → T) e w :
  keeps (λ w', π w' = π w) (Main.handle e) → π (Main.step e w) = π w.
Proof. intros Hk. apply Hk. reflexivity. Qed.


(** X3. [isRunning] is written by the pause/resume button only, and only
    while a simulation is started: then the press flips it, whether the
    socket is open or not, and with the socket open it asks the server to
    resume when the new value is true and to pause when it is false.  The
    reset and the start request leave it as it is.  So, from the page as
    loaded, the first press after a start asks the server to resume. *)
Theorem isRunning_is_written_by_the_toggle_only :
  (∀ e w,
     isRunning (vars (Main.step e w)) =
     if toggles e && simulationStarted (vars w)
     then negb (isRunning (vars w)) else isRunning (vars w)) ∧
  (∀ w,
     simulationStarted (vars w) = true → ws_is_open (vars w) = true →
     sent (Main.step Main.ToggleButton w) =
     sent w ++ [if isRunning (vars w) then pause_simulation
                else resume_simulation]) ∧
  (∀ es w0,
     vars w0 = initial_state → Forall (λ e, toggles e = false) es →
     let w := Main.run es w0 in
     simulationStarted (vars w) = true → ws_is_open (vars w) = true →
     sent (Main.step Main.ToggleButton w) = sent w ++ [resume_simulation]).
Proof.
  assert (∀ e w,
     isRunning (vars (Main.step e w)) =
     if toggles e && simulationStarted (vars w)
     then negb (isRunning (vars w)) else isRunning (vars w)) as Hrun.
  { intros e w. destruct (toggles e) eqn:He.
    - destruct e; try discriminate He.
      unfold Main.step, exec, Main.handle. rewrite toggleSimulation_run.
      open_world w. simpl. destruct started; [|reflexivity].
      simpl. destruct (ws_is_open _); [|reflexivity].
      destruct running; reflexivity.
    - rewrite andb_false_l.
      apply (step_keeps (λ w, isRunning (vars w))).
      event_cases e; try discriminate He; keeps_handle; keeps_trivial. }
  assert (∀ w,
     simulationStarted (vars w) = true → ws_is_open (vars w) = true →
     sent (Main.step Main.ToggleButton w) =
     sent w ++ [if isRunning (vars w) then pause_simulation
                else resume_simulation]) as Hsend.
  { intros w Hs Ho. unfold Main.step, exec, Main.handle.
    rewrite toggleSimulation_run, Hs, Ho. cbv zeta.
    open_world w. simpl. destruct running; reflexivity. }
  split; [exact Hrun|]. split; [exact Hsend|].
  intros es w0 Hw0 Hes w Hs Ho. rewrite (Hsend w Hs Ho).
  assert (isRunning (vars w) = false) as ->; [|reflexivity].
  unfold w. clear w Hs Ho.
  assert (isRunning (vars w0) = false) as Hr by (rewrite Hw0; reflexivity).
  clear Hw0. revert w0 Hr.
  induction es as [|e es IH]; intros w0 Hr; [exact Hr|].
  apply Forall_cons in Hes as [He Hes]. rewrite run_cons.
  apply IH; [exact Hes|]. rewrite Hrun, He. exact Hr.
Qed.

(** X4. The opening, the closing and the error of the socket, and the
    reconnect timer, write no variable but [ws] and [reconnectAttempts]:
    agents, resources, cells, explored set, bounds, origin and selection
    are as they were when the connection is lost and when it comes back.
    They paint nothing, leave the agent list alone and send nothing. *)
Theorem socket_events_keep_the_model e w :
  socket_event e = true →
  let w' := Main.step e w in
  (∃ r n, vars w' = set_reconnectAttempts n (set_ws r (vars w))) ∧
  canvas w' = canvas w ∧ ctx w' = ctx w ∧ agentsList w' = agentsList w ∧
  sent w' = sent w.
Proof.
  intros He w'. unfold w'. clear w'.
  destruct e; try discriminate He; open_world w.
  - unfold Main.step, exec. simpl. destruct tms as [|t tms].
    + split; [exists wsv, att; reflexivity|]. repeat split.
    + split; [exists (Some CONNECTING), att; reflexivity|]. repeat split.
  - split; [exists (Some OPEN), 0%nat; reflexivity|]. repeat split.
  - split; [exists wsv, att; reflexivity|]. repeat split.
  - split; [exists (Some CLOSED), (S att); reflexivity|]. repeat split.
Qed.

Lemma keeps_feed_addMessage w a b :
  keeps (λ w', ∃ l, messagesContainer w' = messagesContainer w ++ l)
    (addMessage a b).
Proof.
  intros w1 [l Hl]. exists (l ++ [(a, b)]). unfold exec. simpl.
  rewrite Hl, app_assoc. reflexivity.
Qed.

(** X5. The message feed is append-only between resets: every event
    other than the reset leaves the entries that were there, in their
    order, and adds its own after them. *)
Theorem feed_is_append_only e w :
  resets e = false →
  ∃ l, messagesContainer (Main.step e w) = messagesContainer w ++ l.
Proof.
  intros He.
  assert (keeps (λ w', ∃ l, messagesContainer w' = messagesContainer w ++ l)
            (Main.handle e)) as Hk.
  { event_cases e; try discriminate He; keeps_handle;
      first [apply keeps_feed_addMessage | keeps_trivial]. }
  apply Hk. exists []. symmetry. apply app_nil_r.
Qed.


(** X7. A server message, whatever it is, leaves the interaction state of
    the page alone: the socket, [isRunning], the selected agent, the drag
    state, the reconnection counter and the hazards are as they were, the
    connection indicator keeps its text and no reconnect is scheduled.  In
    particular the selection survives a chunk replacement, and an update
    of the selected agent leaves [selectedAgent] the object it was when
    the agent was selected. *)
Theorem messages_leave_the_interaction_state msg w :
  let s := vars w in
  let w' := Main.step (Main.WsMessage msg) w in
  let s' := vars w' in
  ws s' = ws s ∧ isRunning s' = isRunning s ∧
  selectedAgent s' = selectedAgent s ∧
  isDragging s' = isDragging s ∧
  lastMouseX s' = lastMouseX s ∧ lastMouseY s' = lastMouseY s ∧
  reconnectAttempts s' = reconnectAttempts s ∧ hazards s' = hazards s ∧
  statusEl w' = statusEl w ∧ timers w' = timers w.
Proof.
  intros s w' s'. unfold s', w', s.
  split; [apply (step_keeps (λ w, ws (vars w)));
          destruct msg; keeps_handle; keeps_trivial|].
  split; [apply (step_keeps (λ w, isRunning (vars w)));
          destruct msg; keeps_handle; keeps_trivial|].
  split; [apply (step_keeps (λ w, selectedAgent (vars w)));
          destruct msg; keeps_handle; keeps_trivial|].
  split; [apply (step_keeps (λ w, isDragging (vars w)));
          destruct msg; keeps_handle; keeps_trivial|].
  split; [apply (step_keeps (λ w, lastMouseX (vars w)));
          destruct msg; keeps_handle; keeps_trivial|].
  split; [apply (step_keeps (λ w, lastMouseY (vars w)));
          destruct msg; keeps_handle; keeps_trivial|].
  split; [apply (step_keeps (λ w, reconnectAttempts (vars w)));
          destruct msg; keeps_handle; keeps_trivial|].
  split; [apply (step_keeps (λ w, hazards (vars w)));
          destruct msg; keeps_handle; keeps_trivial|].
  split; [apply (step_keeps statusEl);
          destruct msg; keeps_handle; keeps_trivial|].
  apply (step_keeps timers); destruct msg; keeps_handle; keeps_trivial.
Qed.

End Outbound.

Section Stores.
Context `{!Browser}.

(** *** Resources *)

Lemma addResource_run resource w :
  ∃ w1, Main.addResource resource w = Main.render w1 ∧
    ctx w1 = ctx w ∧ canvas w1 = canvas w ∧
    match Main.find_id (prop resource "id") (resources (vars w)) with
    | None =>
        vars w1 =
          set_resources
            (resources (vars w) ++
               [spread resource {["discovered" := VBool true]}])
            (vars w) ∧
        ∃ entry, messagesContainer w1 = messagesContainer w ++ [entry]
    | Some _ => w1 = w
    end.
Proof.
  unfold Main.addResource. open_world w. run_prim.
  destruct (Main.find_id (prop resource "id") ress) as [r|].
  - run_prim. eexists. split; [reflexivity|]. done.
  - run_prim. eexists. split; [reflexivity|].
    split; [reflexivity|]. split; [reflexivity|].
    split; [reflexivity|]. eexists. reflexivity.
Qed.

Lemma addResource_vars resource w :
  vars (exec (Main.addResource resource) w) =
  match Main.find_id (prop resource "id") (resources (vars w)) with
  | None =>
      set_resources
        (resources (vars w) ++
           [spread resource {["discovered" := VBool true]}])
        (vars w)
  | Some _ => vars w
  end.
Proof.
  destruct (addResource_run resource w) as (w1 & E & _ & _ & Hcase).
  unfold exec. rewrite E. fold (exec Main.render w1).
  rewrite Main_render_vars.
  destruct (Main.find_id _ _); [subst w1; reflexivity|apply Hcase].
Qed.

Lemma find_id_Some id l r :
  Main.find_id id l = Some r → r ∈ l ∧ prop r "id" = id.
Proof.
  unfold Main.find_id. intros Hf. apply find_some in Hf as [Hin Hid].
  split; [apply list_elem_of_In, Hin|].
  unfold strict_eq in Hid. apply bool_decide_eq_true in Hid. exact Hid.
Qed.


(** *** The explored set *)

Lemma markCellExplored_run x y w :
  Main.markCellExplored x y w =
  Main.render
    (set_vars
       (set_exploredCells ({[cellKey x y]} ∪ exploredCells (vars w)) (vars w))
       w).
Proof. unfold Main.markCellExplored. open_world w. do 2 run_prim. reflexivity. Qed.

Lemma markCellExplored_vars x y w :
  vars (exec (Main.markCellExplored x y) w) =
  set_exploredCells ({[cellKey x y]} ∪ exploredCells (vars w)) (vars w).
Proof.
  unfold exec. rewrite markCellExplored_run.
  match goal with |- vars (snd (Main.render ?W)) = _ =>
    fold (exec Main.render W) end.
  rewrite Main_render_vars. reflexivity.
Qed.

(** X9. A [cell_explored] message marks the cell it names and no other: a
    coordinate pair is explored afterwards exactly when it is the named
    one or was explored before.  The cell need not be in the cell table,
    and the table, the bounds and the origin are left alone; marking a
    cell that is marked changes no variable. *)
Theorem cell_explored_marks_one_cell x y w :
  let w' := exec (Main.handleMessage (cell_explored x y)) w in
  (∀ x' y', cellKey x' y' ∈ exploredCells (vars w') ↔
            (x' = x ∧ y' = y) ∨ cellKey x' y' ∈ exploredCells (vars w)) ∧
  vars w' = set_exploredCells (exploredCells (vars w')) (vars w) ∧
  (cellKey x y ∈ exploredCells (vars w) → vars w' = vars w).
Proof.
  intros w'.
  assert (vars w' =
          set_exploredCells ({[cellKey x y]} ∪ exploredCells (vars w)) (vars w))
    as Hv by apply markCellExplored_vars.
  split; [|split].
  - intros x' y'. rewrite Hv. destruct (vars w). simpl.
    rewrite elem_of_union, elem_of_singleton. split.
    + intros [Hk|Hin]; [left; apply cellKey_inj, Hk|right; exact Hin].
    + intros [[-> ->]|Hin]; [left; reflexivity|right; exact Hin].
  - rewrite Hv. destruct (vars w). reflexivity.
  - intros Hin. rewrite Hv.
    assert ({[cellKey x y]} ∪ exploredCells (vars w) = exploredCells (vars w))
      as ->.
    { apply leibniz_equiv, (subseteq_union_1 (C := gset string)).
      apply singleton_subseteq_l, Hin. }
    destruct (vars w); reflexivity.
Qed.

(** *** Agents *)

Lemma ids_app l1 l2 : ids (l1 ++ l2) = ids l1 ++ ids l2.
Proof. apply fmap_app. Qed.

Lemma elem_of_ids id l : id ∈ ids l ↔ ∃ a, a ∈ l ∧ prop a "id" = id.
Proof.
  unfold ids. rewrite list_elem_of_fmap. split.
  - intros (a & -> & Ha). exists a. done.
  - intros (a & Ha & <-). exists a. done.
Qed.

(** An update leaves the ids of the stored agents in their order, with
    the id of the update after them when it is new. *)
Lemma updateAgent_ids agentData w :
  ids (agents (vars (exec (Main.updateAgent agentData) w))) =
  ids (agents (vars w)) ++
  (if bool_decide (prop agentData "id" ∈ ids (agents (vars w))) then []
   else [prop agentData "id"]).
Proof.
  rewrite updateAgent_vars.
  destruct (Main.findIndex (prop agentData "id") (agents (vars w)))
    as [i|] eqn:Hf.
  - apply findIndex_Some in Hf as [(old & Hold & Hid) _].
    rewrite Hold. rewrite bool_decide_eq_true_2.
    2:{ apply elem_of_ids. exists old. split; [|exact Hid].
        eapply list_elem_of_lookup_2, Hold. }
    rewrite app_nil_r. destruct (vars w) as [].  simpl in *.
    unfold ids. rewrite list_fmap_insert.
    apply list_insert_id. rewrite list_lookup_fmap, Hold. simpl. f_equal.
    rewrite prop_spread. destruct (prop agentData "id"); congruence.
  - rewrite bool_decide_eq_false_2.
    2:{ intros Hin. apply elem_of_ids in Hin as (a & Ha & Hid).
        apply (proj1 (findIndex_None _ _) Hf a Ha Hid). }
    destruct (vars w). simpl. apply ids_app.
Qed.

Lemma addResource_resources resource w :
  resources (vars (exec (Main.addResource resource) w)) =
  resources (vars w) ++
  (if bool_decide (prop resource "id" ∈ ids (resources (vars w))) then []
   else [spread resource {["discovered" := VBool true]}]).
Proof.
  rewrite addResource_vars.
  destruct (Main.find_id (prop resource "id") (resources (vars w)))
    as [r|] eqn:Hf.
  - apply find_id_Some in Hf as [Hin Hid].
    rewrite bool_decide_eq_true_2 by (apply elem_of_ids; eauto).
    rewrite app_nil_r. reflexivity.
  - rewrite bool_decide_eq_false_2.
    2:{ intros Hin. apply elem_of_ids in Hin as (a & Ha & Hid).
        apply (proj1 (find_id_None _ _) Hf a Ha Hid). }
    destruct (vars w). reflexivity.
Qed.

(** The other events leave the three stores alone. *)
Lemma stores_kept e w :
  entity_message e = false → resets e = false →
  agents (vars (Main.step e w)) = agents (vars w) ∧
  resources (vars (Main.step e w)) = resources (vars w) ∧
  exploredCells (vars (Main.step e w)) = exploredCells (vars w).
Proof.
  intros He Hr.
  assert (keeps (λ w', agents (vars w') = agents (vars w) ∧
                       resources (vars w') = resources (vars w) ∧
                       exploredCells (vars w') = exploredCells (vars w))
            (Main.handle e)) as Hk; [|apply Hk; done].
  event_cases e; try discriminate He; try discriminate Hr;
    keeps_handle; keeps_trivial.
Qed.

(** X10. Between two resets nothing is forgotten: every event other than
    the reset leaves the ids of the stored agents in their order and adds
    at most new ones after them, leaves the stored resources as they are,
    field by field, and adds at most new ones after them, and leaves every
    explored cell explored.  In particular a chunk replacement removes
    neither agents nor resources nor explored marks. *)
Theorem stores_only_grow_until_reset e w :
  resets e = false →
  let s := vars w in
  let s' := vars (Main.step e w) in
  (∃ l, ids (agents s') = ids (agents s) ++ l) ∧
  (∃ l, resources s' = resources s ++ l) ∧
  exploredCells s ⊆ exploredCells s'.
Proof.
  intros Hr s s'. destruct (entity_message e) eqn:He.
  - destruct e as [| | | |data| | | | | | | | | | | | | | ];
      try discriminate He.
    destruct data; try discriminate He; unfold s', s, Main.step, Main.handle,
      Main.handleMessage.
    + rewrite updateAgent_ids, updateAgent_vars.
      split; [eexists; reflexivity|].
      destruct (vars w). simpl. split; [exists []; symmetry; apply app_nil_r|].
      done.
    + rewrite addResource_resources, addResource_vars.
      split; [|split; [eexists; reflexivity|]];
        destruct (Main.find_id _ _); destruct (vars w); simpl;
        try done; exists []; symmetry; apply app_nil_r.
    + rewrite markCellExplored_vars. destruct (vars w). simpl.
      split; [exists []; symmetry; apply app_nil_r|].
      split; [exists []; symmetry; apply app_nil_r|]. set_solver.
  - destruct (stores_kept e w He Hr) as (Ha & Hres & Hx).
    unfold s', s. rewrite Ha, Hres, Hx.
    split; [exists []; symmetry; apply app_nil_r|].
    split; [exists []; symmetry; apply app_nil_r|]. done.
Qed.

Lemma ids_distinct_step e w :
  NoDup (ids (agents (vars w))) → NoDup (ids (resources (vars w))) →
  NoDup (ids (agents (vars (Main.step e w)))) ∧
  NoDup (ids (resources (vars (Main.step e w)))).
Proof.
  intros Ha Hres. destruct (resets e) eqn:Hr.
  { destruct e; try discriminate Hr. unfold Main.step, exec, Main.handle.
    destruct (Main_resetSimulation_world w) as (c & ->). simpl.
    split; apply NoDup_nil_2. }
  destruct (entity_message e) eqn:He.
  - destruct e as [| | | |data| | | | | | | | | | | | | | ];
      try discriminate He.
    destruct data; try discriminate He; unfold Main.step, Main.handle,
      Main.handleMessage.
    + rewrite updateAgent_ids, updateAgent_vars. split.
      * case_bool_decide as Hin; [rewrite app_nil_r; exact Ha|].
        apply NoDup_app. split; [exact Ha|]. split; [|apply NoDup_singleton].
        intros id Hid Hid'. apply list_elem_of_singleton in Hid'. subst id.
        exact (Hin Hid).
      * destruct (vars w). exact Hres.
    + rewrite addResource_resources, addResource_vars. split.
      * destruct (Main.find_id _ _); destruct (vars w); exact Ha.
      * case_bool_decide as Hin; [rewrite app_nil_r; exact Hres|].
        rewrite ids_app. apply NoDup_app. split; [exact Hres|].
        split; [|apply NoDup_singleton].
        intros id Hid Hid'. apply list_elem_of_singleton in Hid'. subst id.
        apply Hin. rewrite prop_spread in Hid. unfold prop at 1 in Hid.
        rewrite lookup_singleton_ne in Hid by done. exact Hid.
    + rewrite markCellExplored_vars. destruct (vars w). split; assumption.
  - destruct (stores_kept e w He Hr) as (-> & -> & _). split; assumption.
Qed.

(** X11. The stored agents have pairwise distinct ids, and so have the
    stored resources, in every world the page reaches from one where
    they have, whatever the server sends: an [agent_update] with a known
    id is merged into the stored agent and keeps its id, and a
    [resource_discovered] with a known id is dropped. *)
Theorem ids_stay_distinct es w0 :
  NoDup (ids (agents (vars w0))) → NoDup (ids (resources (vars w0))) →
  NoDup (ids (agents (vars (Main.run es w0)))) ∧
  NoDup (ids (resources (vars (Main.run es w0)))).
Proof.
  revert w0. induction es as [|e es IH]; intros w0 Ha Hr; [done|].
  rewrite run_cons. destruct (ids_distinct_step e w0 Ha Hr) as [Ha' Hr'].
  apply IH; assumption.
Qed.

End Stores.

Section Patch.
Context `{!Browser}.

(** *** Cell patches *)

Lemma updateMapCell_run x y updates old w :
  mapCells (vars w) !! cellKey x y = Some old →
  Main.updateMapCell x y updates w =
  Main.render
    (set_vars
       (set_mapCells (<[cellKey x y := spread old updates]> (mapCells (vars w)))
          (vars w))
       w).
Proof.
  intros Hold. unfold Main.updateMapCell. open_world w. run_prim.
  simpl in Hold. rewrite Hold. run_prim. reflexivity.
Qed.

(** X12. A [map_cell_update] for a coordinate that is in the cell table
    patches that cell and nothing else: the patched cell has the fields of
    the update, and the fields of the stored cell that the update lacks;
    the cells at all other coordinates are as they were; no key is added
    or removed; the bounds, the origin and every other variable are left
    alone; and the map is redrawn from the patched table. *)
Theorem map_cell_update_patches_one_cell x y updates old w :
  mapCells (vars w) !! cellKey x y = Some old →
  let w' := exec (Main.handleMessage (map_cell_update x y updates)) w in
  let table' := mapCells (vars w') in
  vars w' = set_mapCells table' (vars w) ∧
  (∃ cell', table' !! cellKey x y = Some cell' ∧
     ∀ f, prop cell' f =
          match prop updates f with Some v => Some v | None => prop old f end) ∧
  (∀ x' y', (x', y') ≠ (x, y) →
     table' !! cellKey x' y' = mapCells (vars w) !! cellKey x' y') ∧
  dom table' = dom (mapCells (vars w)) ∧
  canvas w' = picture Main.render (vars w') ++ canvas w.
Proof.
  intros Hold w' table'.
  set (w1 := set_vars
       (set_mapCells (<[cellKey x y := spread old updates]> (mapCells (vars w)))
          (vars w)) w).
  destruct (Main_render_picture w1) as (o & c & Hr).
  assert (w' = set_ctx c
                 (set_canvas (picture Main.render (vars w1) ++ canvas w1) w1))
    as Hw'.
  { unfold w', exec.
    change (Main.handleMessage (map_cell_update x y updates))
      with (Main.updateMapCell x y updates).
    rewrite (updateMapCell_run x y updates old w Hold). fold w1.
    rewrite Hr. reflexivity. }
  assert (vars w' = vars w1) as Hv by (rewrite Hw'; reflexivity).
  assert (table' = <[cellKey x y := spread old updates]> (mapCells (vars w)))
    as Ht.
  { unfold table'. rewrite Hv. unfold w1. destruct w as [s ? ? ? ? ? ? ?].
    destruct s. reflexivity. }
  split; [|split; [|split; [|split]]].
  - rewrite Ht, Hv. unfold w1. destruct w as [s ? ? ? ? ? ? ?].
    destruct s. reflexivity.
  - exists (spread old updates). rewrite Ht, lookup_insert_eq.
    split; [reflexivity|]. intros f. apply prop_spread.
  - intros x' y' Hne. rewrite Ht. apply lookup_insert_ne.
    intros Hk. apply cellKey_inj in Hk as [-> ->]. apply Hne. reflexivity.
  - rewrite Ht. rewrite dom_insert_L.
    assert (cellKey x y ∈ dom (mapCells (vars w))) as Hin
      by (apply elem_of_dom; eauto).
    apply leibniz_equiv. apply (subseteq_union_1 (C := gset string)).
    apply singleton_subseteq_l. exact Hin.
  - rewrite Hv, Hw'. unfold w1. destruct w. reflexivity.
Qed.

End Patch.

Section Selection.
Context `{!Browser}.

(** *** Selection *)

(** [selectAgent] comes down to [render] once the agent is selected, the
    notice for an agent off the map is logged and the agent list is
    rebuilt. *)
Lemma selectAgent_run agent w :
  ∃ w1 feed', Main.selectAgent agent w = Main.render w1 ∧
    w1 = set_agentsList (agents (vars w))
           (set_messagesContainer feed'
              (set_vars (set_selectedAgent (Some agent) (vars w)) w)) ∧
    if Main.isOnMap (vars w) agent then feed' = messagesContainer w
    else ∃ entry, feed' = messagesContainer w ++ [entry].
Proof.
  unfold Main.selectAgent. open_world w. do 2 run_prim.
  match goal with |- context [when (negb ?b) _] =>
    change b with
      (Main.isOnMap
         (mkState wsv running started ags ress hazs expl selv cells
            minX minY maxX maxY vX vY drag lmX lmY att) agent);
    destruct (Main.isOnMap
         (mkState wsv running started ags ress hazs expl selv cells
            minX minY maxX maxY vX vY drag lmX lmY att) agent) eqn:Hon
  end.
  - do 2 run_prim. eexists _, _. split; [reflexivity|].
    split; [reflexivity|]. reflexivity.
  - do 2 run_prim. eexists _, _. split; [reflexivity|].
    split; [reflexivity|]. eexists. reflexivity.
Qed.

Lemma selectAgent_world agent w :
  ∃ o c feed',
    Main.selectAgent agent w =
    (o, mkWorld (set_selectedAgent (Some agent) (vars w)) c
          (picture Main.render (set_selectedAgent (Some agent) (vars w))
             ++ canvas w)
          feed' (agents (vars w)) (statusEl w) (timers w) (sent w)).
Proof.
  destruct (selectAgent_run agent w) as (w1 & feed' & E & -> & _).
  rewrite E.
  match goal with |- context [Main.render ?W] =>
    destruct (Main_render_picture W) as (o & c & ->) end.
  exists o, c, feed'. destruct w. reflexivity.
Qed.

Lemma updateAgent_world agentData w :
  ∃ o c l,
    Main.updateAgent agentData w =
    (o, mkWorld (set_agents l (vars w)) c
          (picture Main.render (set_agents l (vars w)) ++ canvas w)
          (messagesContainer w) l (statusEl w) (timers w) (sent w)).
Proof.
  unfold Main.updateAgent. open_world w. run_prim.
  destruct (Main.findIndex (prop agentData "id") ags) as [i|].
  - destruct (ags !! i) as [old|]; do 2 run_prim;
      match goal with |- context [Main.render ?W] =>
        destruct (Main_render_picture W) as (o & c & ->) end;
      eexists o, c, _; reflexivity.
  - do 2 run_prim.
    match goal with |- context [Main.render ?W] =>
      destruct (Main_render_picture W) as (o & c & ->) end.
    eexists o, c, _; reflexivity.
Qed.

Lemma panel_in_sync_step e w :
  agentsList w = agents (vars w) →
  agentsList (Main.step e w) = agents (vars (Main.step e w)).
Proof.
  intros Hw.
  assert (keeps (λ w, agentsList w = agents (vars w)) (Main.handle e)) as Hk;
    [|apply Hk, Hw].
  clear w Hw.
  event_cases e;
    lazymatch goal with
    | |- keeps _ (Main.handle Main.ResetButton) =>
        intros w _; unfold exec, Main.handle;
        destruct (Main_resetSimulation_world w) as (c & ->); reflexivity
    | |- keeps _ (Main.handle (Main.WsMessage (agent_update ?a))) =>
        intros w _; unfold exec, Main.handle, Main.handleMessage;
        destruct (updateAgent_world a w) as (o & c & l & ->); reflexivity
    | |- keeps _ (Main.handle (Main.AgentItemClick ?i)) =>
        apply keeps_AgentItemClick; intros a w _; unfold exec;
        destruct (selectAgent_world a w) as (o & c & f & ->); reflexivity
    | |- keeps _ (Main.handle (Main.Click ?x ?y)) =>
        intros w Hw; unfold exec, Main.handle, Main.click, mbind, M_bind, get;
        match goal with |- context [List.find ?p ?l] =>
          destruct (List.find p l) as [a|] end;
        [ destruct (selectAgent_world a w) as (o & c & f & ->); reflexivity
        | exact Hw ]
    | |- _ => keeps_handle; keeps_trivial
    end.
Qed.

(** X13. The agent list of the page shows the stored agents, one item per
    agent and in their order, in every world reached from one where it
    does: each handler that writes the agents rebuilds the list before it
    returns.  So a click on the item at position [i] selects the agent
    stored at position [i], as it is stored at the time of the click. *)
Theorem agent_panel_in_sync es w0 :
  agentsList w0 = agents (vars w0) →
  let w := Main.run es w0 in
  agentsList w = agents (vars w) ∧
  ∀ i a, agents (vars w) !! i = Some a →
    selectedAgent (vars (Main.step (Main.AgentItemClick i) w)) = Some a.
Proof.
  intros Hw0 w.
  assert (agentsList w = agents (vars w)) as Hw.
  { unfold w. clear w. revert w0 Hw0.
    induction es as [|e es IH]; intros w0 Hw0; [exact Hw0|].
    rewrite run_cons. apply IH, panel_in_sync_step, Hw0. }
  split; [exact Hw|]. intros i a Hi.
  unfold Main.step, exec, Main.handle. rewrite Hw, Hi.
  destruct (selectAgent_world a w) as (o & c & f & ->).
  destruct (vars w). reflexivity.
Qed.

(** *** Clicks on the canvas *)

Lemma find_first {A} (p : A → bool) (l : list A) i a :
  l !! i = Some a → p a = true →
  (∀ j b, (j < i)%nat → l !! j = Some b → p b = false) →
  List.find p l = Some a.
Proof.
  revert i. induction l as [|b l IH]; intros i Hi Hp Hfirst; [done|].
  destruct i as [|i]; simpl in *.
  - injection Hi as ->. rewrite Hp. reflexivity.
  - rewrite (Hfirst 0%nat b) by first [lia | done].
    apply (IH i Hi Hp). intros j b' Hj Hb'.
    apply (Hfirst (S j) b'); [lia|exact Hb'].
Qed.

Lemma find_nothing {A} (p : A → bool) (l : list A) :
  (∀ b, b ∈ l → p b = false) → List.find p l = None.
Proof.
  induction l as [|b l IH]; intros Hall; [done|]. simpl.
  rewrite (Hall b) by apply list_elem_of_here.
  apply IH. intros b' Hb'. apply Hall, list_elem_of_further, Hb'.
Qed.

Lemma at_cell_test a x y :
  bool_decide (Math_floor (ToNumber (prop a "x")) = Some x) &&
  bool_decide (Math_floor (ToNumber (prop a "y")) = Some y) = true
  ↔ at_cell a x y.
Proof.
  unfold at_cell. rewrite andb_true_iff, !bool_decide_eq_true. done.
Qed.

Lemma at_cell_test_false a x y :
  ¬ at_cell a x y →
  bool_decide (Math_floor (ToNumber (prop a "x")) = Some x) &&
  bool_decide (Math_floor (ToNumber (prop a "y")) = Some y) = false.
Proof.
  intros Hn. apply not_true_is_false. intros Ht. apply Hn, at_cell_test, Ht.
Qed.

Lemma cell_of_pixel v d :
  0 ≤ d < CELL_SIZE_PX → (v * CELL_SIZE_PX + d) / CELL_SIZE_PX = v.
Proof.
  unfold CELL_SIZE_PX, CANVAS_SIZE_PX, VIEWPORT_SIZE_CELLS.
  change (600 / 100) with 6. intros Hd.
  rewrite Z.add_comm, Z.div_add by lia. rewrite Z.div_small by lia. lia.
Qed.

(** The click handler, once the pixel is turned into the world cell. *)
Lemma click_run w vx vy dx dy :
  0 ≤ dx < CELL_SIZE_PX → 0 ≤ dy < CELL_SIZE_PX →
  Main.step (Main.Click (vx * CELL_SIZE_PX + dx) (vy * CELL_SIZE_PX + dy)) w =
  exec match List.find (λ agent,
           bool_decide (Math_floor (ToNumber (prop agent "x"))
                        = Some (viewportX (vars w) + vx)) &&
           bool_decide (Math_floor (ToNumber (prop agent "y"))
                        = Some (viewportY (vars w) + vy)))
           (agents (vars w)) with
       | Some agent => Main.selectAgent agent
       | None => mret ()
       end w.
Proof.
  intros Hdx Hdy.
  unfold Main.step, exec, Main.handle, Main.click, mbind, M_bind, get.
  cbv zeta. rewrite (cell_of_pixel vx dx Hdx), (cell_of_pixel vy dy Hdy).
  reflexivity.
Qed.

Lemma click_hit w vx vy dx dy i a :
  0 ≤ dx < CELL_SIZE_PX → 0 ≤ dy < CELL_SIZE_PX →
  agents (vars w) !! i = Some a →
  at_cell a (viewportX (vars w) + vx) (viewportY (vars w) + vy) →
  (∀ j b, (j < i)%nat → agents (vars w) !! j = Some b →
          ¬ at_cell b (viewportX (vars w) + vx) (viewportY (vars w) + vy)) →
  let w' :=
    Main.step (Main.Click (vx * CELL_SIZE_PX + dx) (vy * CELL_SIZE_PX + dy)) w in
  vars w' = set_selectedAgent (Some a) (vars w) ∧
  agentsList w' = agents (vars w) ∧
  canvas w' = picture Main.render (vars w') ++ canvas w ∧
  sent w' = sent w.
Proof.
  intros Hdx Hdy Hi Ha Hfirst w'. unfold w'.
  rewrite (click_run w vx vy dx dy Hdx Hdy).
  rewrite (find_first _ _ i a Hi).
  - unfold exec. destruct (selectAgent_world a w) as (o & c & f & ->).
    repeat split.
  - apply at_cell_test, Ha.
  - intros j b Hj Hb. apply at_cell_test_false. apply (Hfirst j b Hj Hb).
Qed.



End Selection.

Section Panning.
Context `{!Browser}.

(** *** The clamp *)

Lemma clampViewport_vars x y w :
  vars (exec (Main.clampViewport x y) w) =
  set_viewportY (viewportY (vars (exec (Main.clampViewport x y) w)))
    (set_viewportX (viewportX (vars (exec (Main.clampViewport x y) w)))
       (vars w)).
Proof.
  unfold exec. rewrite clampViewport_run. destruct w as [s ? ? ? ? ? ? ?].
  destruct s. reflexivity.
Qed.

(** X16. [clampViewport] writes the origin only.  While the sentinel test
    fails, the origin it leaves is never below the minimum bound; on an
    axis on which the chunk spans at least the window, the window lies
    within the bounds, and a candidate for which it does is taken as it
    is; on an axis on which the chunk is narrower than the window, the
    origin is the minimum bound for every candidate, so that the window
    shows the whole chunk.  While the sentinel test holds, the origin is
    (0, 0). *)
Theorem clampViewport_keeps_the_window_on_the_chunk x y w :
  let s := vars w in
  let s' := vars (exec (Main.clampViewport x y) w) in
  let W := VIEWPORT_SIZE_CELLS in
  s' = set_viewportY (viewportY s') (set_viewportX (viewportX s') s) ∧
  (sentinel s = true → viewportX s' = 0 ∧ viewportY s' = 0) ∧
  (sentinel s = false →
   (mapMinX s ≤ viewportX s' ∧ mapMinY s ≤ viewportY s') ∧
   (mapMinX s + W - 1 ≤ mapMaxX s →
      viewportX s' + W - 1 ≤ mapMaxX s ∧
      (mapMinX s ≤ x ∧ x + W - 1 ≤ mapMaxX s → viewportX s' = x)) ∧
   (mapMinY s + W - 1 ≤ mapMaxY s →
      viewportY s' + W - 1 ≤ mapMaxY s ∧
      (mapMinY s ≤ y ∧ y + W - 1 ≤ mapMaxY s → viewportY s' = y)) ∧
   (mapMaxX s < mapMinX s + W - 1 → viewportX s' = mapMinX s) ∧
   (mapMaxY s < mapMinY s + W - 1 → viewportY s' = mapMinY s)).
Proof.
  intros s s' W. split; [apply clampViewport_vars|].
  pose proof (clampViewport_origin x y w) as Ho.
  unfold origin in Ho. fold s s' in Ho. fold (sentinel s) in Ho.
  unfold W, VIEWPORT_SIZE_CELLS in *.
  destruct (sentinel s); injection Ho as -> ->.
  - split; [done|]. discriminate.
  - split; [discriminate|]. intros _. repeat split; lia.
Qed.

Lemma clamped_iff w :
  clamped w ↔
  origin (exec (Main.clampViewport (viewportX (vars w)) (viewportY (vars w))) w)
    = origin w.
Proof.
  split; [|apply clamped_origin].
  unfold clamped, exec. intros ->. reflexivity.
Qed.

(** Whether the origin is clamped is a matter of the variables. *)
Lemma clamped_vars w1 w2 : vars w1 = vars w2 → clamped w1 → clamped w2.
Proof.
  intros Hv. rewrite !clamped_iff, !clampViewport_origin. unfold origin.
  rewrite Hv. done.
Qed.

Lemma clamped_inv w :
  clamped w →
  sentinel (vars w) = false →
  viewportX (vars w) =
    Z.max (mapMinX (vars w))
      (Z.min (viewportX (vars w)) (mapMaxX (vars w) - VIEWPORT_SIZE_CELLS + 1)) ∧
  viewportY (vars w) =
    Z.max (mapMinY (vars w))
      (Z.min (viewportY (vars w)) (mapMaxY (vars w) - VIEWPORT_SIZE_CELLS + 1)).
Proof.
  rewrite clamped_iff, clampViewport_origin. unfold origin, sentinel.
  intros Ho Hs. rewrite Hs in Ho. injection Ho as Hx Hy. split; congruence.
Qed.

(** A pan: the clamp, then assignments that leave the origin and the
    bounds alone, then [render]. *)
Lemma pan_vars x y (m : M unit) w :
  (∀ w1, ∃ w2, m w1 = (Ok (), w2)) →
  vars (exec (Main.clampViewport x y;; m;; Main.render) w) =
  vars (exec m (exec (Main.clampViewport x y) w)).
Proof.
  intros Hm.
  assert (fst (Main.clampViewport x y w) = Ok ()) as Hok
    by (rewrite clampViewport_run; reflexivity).
  rewrite exec_bind, Hok.
  set (wc := exec (Main.clampViewport x y) w).
  rewrite exec_bind. destruct (Hm wc) as (w2 & E).
  assert (exec m wc = w2) as Hw2 by (unfold exec; rewrite E; reflexivity).
  rewrite E, Hw2. cbn [fst]. apply Main_render_vars.
Qed.

Lemma pan_render_vars x y w :
  vars (exec (Main.clampViewport x y;; Main.render) w) =
  vars (exec (Main.clampViewport x y) w).
Proof.
  assert (fst (Main.clampViewport x y w) = Ok ()) as Hok
    by (rewrite clampViewport_run; reflexivity).
  rewrite exec_bind, Hok. apply Main_render_vars.
Qed.

(** *** The arrow keys *)

Lemma keydown_idle key w :
  mapMaxX (vars w) = 0 ∨ arrow key = None → Main.keydown key w = (Ok (), w).
Proof.
  intros Hcase. unfold Main.keydown. unfold mbind at 1, M_bind at 1, get.
  destruct (mapMaxX (vars w) =? 0) eqn:E; [reflexivity|].
  destruct Hcase as [H0|Hk]; [lia|]. unfold arrow in Hk.
  repeat case_bool_decide; try discriminate Hk. reflexivity.
Qed.

Lemma keydown_run key dx dy w :
  mapMaxX (vars w) ≠ 0 → arrow key = Some (dx, dy) →
  Main.keydown key w =
  (Main.clampViewport (viewportX (vars w) + dx) (viewportY (vars w) + dy);;
   Main.render) w.
Proof.
  intros H0 Hk. unfold Main.keydown. unfold mbind at 1, M_bind at 1, get.
  rewrite (proj2 (Z.eqb_neq _ _) H0). unfold arrow in Hk.
  repeat case_bool_decide; try discriminate Hk; injection Hk as <- <-;
    cbv zeta iota beta; unfold when; rewrite ?Z.add_0_r; reflexivity.
Qed.

(** X17. An arrow key pans by one cell and clamps: from a clamped origin,
    with a chunk loaded, the origin moves by exactly one cell in the
    direction of the key when the window then still lies within the
    bounds on that axis, and otherwise stays where it is; it does not
    move on the other axis, and it is clamped afterwards.  The handler
    writes the origin only.  Any other key, and any key while [mapMaxX]
    is 0, changes nothing and does not redraw. *)
Theorem arrow_keys_pan_by_one_cell key w :
  let s := vars w in
  let w' := Main.step (Main.KeyDown key) w in
  let W := VIEWPORT_SIZE_CELLS in
  (mapMaxX s = 0 ∨ arrow key = None → w' = w) ∧
  (∀ dx dy,
     mapMaxX s ≠ 0 → arrow key = Some (dx, dy) → clamped w →
     clamped w' ∧
     vars w' =
       set_viewportY (viewportY (vars w')) (set_viewportX (viewportX (vars w')) s) ∧
     (viewportX (vars w') = viewportX s ∨ viewportX (vars w') = viewportX s + dx) ∧
     (viewportY (vars w') = viewportY s ∨ viewportY (vars w') = viewportY s + dy) ∧
     (mapMinX s ≤ viewportX s + dx ∧ viewportX s + dx + W - 1 ≤ mapMaxX s →
      viewportX (vars w') = viewportX s + dx) ∧
     (mapMinY s ≤ viewportY s + dy ∧ viewportY s + dy + W - 1 ≤ mapMaxY s →
      viewportY (vars w') = viewportY s + dy)).
Proof.
  intros s w' W. split.
  - intros Hcase. unfold w', Main.step, exec, Main.handle.
    rewrite keydown_idle by exact Hcase. reflexivity.
  - intros dx dy H0 Hk Hc.
    set (wc := exec (Main.clampViewport (viewportX s + dx) (viewportY s + dy)) w).
    assert (vars w' = vars wc) as Hv.
    { unfold w', Main.step, Main.handle.
      unfold exec at 1. rewrite (keydown_run key dx dy w H0 Hk).
      apply pan_render_vars. }
    assert (sentinel s = false) as Hs.
    { unfold sentinel. rewrite (proj2 (Z.eqb_neq _ _) H0). reflexivity. }
    destruct (clamped_inv w Hc Hs) as [Hx Hy]. fold s in Hx, Hy.
    pose proof (clampViewport_origin (viewportX s + dx) (viewportY s + dy) w)
      as Ho.
    fold wc s in Ho. fold (sentinel s) in Ho. rewrite Hs in Ho.
    unfold origin in Ho. injection Ho as Hx' Hy'.
    split; [apply (clamped_vars wc); [symmetry; exact Hv|];
            apply clampViewport_clamped|].
    rewrite Hv. split; [apply clampViewport_vars|].
    rewrite Hx', Hy'. unfold W, VIEWPORT_SIZE_CELLS in *.
    assert ((dx = 1 ∨ dx = -1 ∨ dx = 0) ∧ (dy = 1 ∨ dy = -1 ∨ dy = 0)
            ∧ (dx = 0 ∨ dy = 0)) as Hd.
    { unfold arrow in Hk.
      repeat case_bool_decide; try discriminate Hk; injection Hk as <- <-;
        lia. }
    destruct Hd as (Hdx & Hdy & _). clear Hx' Hy' Hv Hc Hk.
    split; [clear Hy Hdy; lia|]. split; [clear Hx Hdx; lia|].
    split; [clear Hx Hy Hdx Hdy; lia|clear Hx Hy Hdx Hdy; lia].
Qed.

(** *** Dragging *)

Lemma mousemove_idle cx cy w :
  isDragging (vars w) = false ∨ mapMaxX (vars w) = 0 →
  Main.mousemove cx cy w = (Ok (), w).
Proof.
  intros Hcase. unfold Main.mousemove. unfold mbind at 1, M_bind at 1, get.
  destruct Hcase as [->| ->]; [reflexivity|].
  rewrite orb_true_r. reflexivity.
Qed.

Lemma mousemove_vars cx cy w :
  isDragging (vars w) = true → mapMaxX (vars w) ≠ 0 →
  vars (exec (Main.mousemove cx cy) w) =
  set_lastMouseY cy
    (set_lastMouseX cx
       (vars (exec (Main.clampViewport
                      (viewportX (vars w)
                         - (cx - lastMouseX (vars w)) / CELL_SIZE_PX)
                      (viewportY (vars w)
                         - (cy - lastMouseY (vars w)) / CELL_SIZE_PX)) w))).
Proof.
  intros Hd H0.
  assert (Main.mousemove cx cy w =
    (Main.clampViewport
       (viewportX (vars w) - (cx - lastMouseX (vars w)) / CELL_SIZE_PX)
       (viewportY (vars w) - (cy - lastMouseY (vars w)) / CELL_SIZE_PX);;
     (assign set_lastMouseX cx;; assign set_lastMouseY cy);;
     Main.render) w) as E.
  { unfold Main.mousemove. unfold mbind at 1, M_bind at 1, get.
    rewrite Hd, (proj2 (Z.eqb_neq _ _) H0). cbv zeta.
    change (negb true || false) with false. cbv iota.
    unfold mbind, M_bind.
    destruct (Main.clampViewport _ _ w) as [[[]|e] w1]; [|reflexivity].
    reflexivity. }
  assert (exec (Main.mousemove cx cy) w =
    exec (Main.clampViewport
       (viewportX (vars w) - (cx - lastMouseX (vars w)) / CELL_SIZE_PX)
       (viewportY (vars w) - (cy - lastMouseY (vars w)) / CELL_SIZE_PX);;
     (assign set_lastMouseX cx;; assign set_lastMouseY cy);;
     Main.render) w) as ->
    by (unfold exec; rewrite E; reflexivity).
  rewrite pan_vars by (intros w1; eexists; reflexivity).
  reflexivity.
Qed.

Lemma slow_step cx cy w :
  clamped w → isDragging (vars w) = true → mapMaxX (vars w) ≠ 0 →
  0 ≤ cx - lastMouseX (vars w) < CELL_SIZE_PX →
  0 ≤ cy - lastMouseY (vars w) < CELL_SIZE_PX →
  vars (Main.step (Main.MouseMove cx cy) w) =
  set_lastMouseY cy (set_lastMouseX cx (vars w)).
Proof.
  intros Hc Hd H0 Hx Hy. unfold Main.step, Main.handle.
  rewrite (mousemove_vars cx cy w Hd H0).
  rewrite !Z.div_small by assumption. rewrite !Z.sub_0_r.
  unfold exec. rewrite Hc. reflexivity.
Qed.

Lemma idle_moves ps w :
  isDragging (vars w) = false ∨ mapMaxX (vars w) = 0 →
  Main.run ((λ p, Main.MouseMove p.1 p.2) <$> ps) w = w.
Proof.
  intros Hi. induction ps as [|p ps IH]; [reflexivity|].
  rewrite fmap_cons, run_cons.
  unfold Main.step at 1, exec, Main.handle.
  rewrite mousemove_idle by exact Hi. exact IH.
Qed.

(** X18. A drag pans by whole cells of the distance to the last mouse
    position, rounded down, and then takes the current position as the
    last one.  So moves of less than one cell to the right and down are
    lost, one after the other: along a path on which each position is
    less than a cell right of and below the one before, however long, the
    origin never changes.  A single move of one pixel to the left, though,
    pans by a whole cell when there is room.  While the button is up, or
    while [mapMaxX] is 0, a move changes nothing. *)
Theorem slow_drags_never_pan w :
  clamped w →
  (∀ ps,
     slow_path (lastMouseX (vars w)) (lastMouseY (vars w)) ps →
     origin (Main.run ((λ p, Main.MouseMove p.1 p.2) <$> ps) w) = origin w) ∧
  (∀ cx cy,
     isDragging (vars w) = false ∨ mapMaxX (vars w) = 0 →
     Main.step (Main.MouseMove cx cy) w = w) ∧
  (isDragging (vars w) = true → mapMaxX (vars w) ≠ 0 →
   viewportX (vars w) + VIEWPORT_SIZE_CELLS ≤ mapMaxX (vars w) →
   origin (Main.step (Main.MouseMove (lastMouseX (vars w) - 1)
                        (lastMouseY (vars w))) w)
   = (viewportX (vars w) + 1, viewportY (vars w))).
Proof.
  intros Hc. split; [|split].
  - intros ps.
    destruct (isDragging (vars w)) eqn:Hd;
      [destruct (decide (mapMaxX (vars w) = 0)) as [H0|H0]|];
      [intros _; rewrite idle_moves by auto; reflexivity| |
       intros _; rewrite idle_moves by auto; reflexivity].
    revert w Hc Hd H0.
    induction ps as [|[cx cy] ps IH]; intros w Hc Hd H0 Hp; [reflexivity|].
    simpl in Hp. destruct Hp as (Hx & Hy & Hp).
    rewrite fmap_cons, run_cons. simpl fst. simpl snd.
    pose proof (slow_step cx cy w Hc Hd H0 Hx Hy) as Hv.
    rewrite IH.
    + unfold origin. rewrite Hv. destruct (vars w). reflexivity.
    + apply clamped_iff. apply clamped_iff in Hc.
      rewrite clampViewport_origin in *. unfold origin in *. rewrite Hv.
      destruct (vars w). exact Hc.
    + rewrite Hv. destruct (vars w). exact Hd.
    + rewrite Hv. destruct (vars w). exact H0.
    + rewrite Hv. destruct (vars w). exact Hp.
  - intros cx cy Hi. unfold Main.step, exec, Main.handle.
    rewrite mousemove_idle by exact Hi. reflexivity.
  - intros Hd H0 Hroom.
    assert (sentinel (vars w) = false) as Hs.
    { unfold sentinel. rewrite (proj2 (Z.eqb_neq _ _) H0). reflexivity. }
    destruct (clamped_inv w Hc Hs) as [Hx Hy].
    unfold origin, Main.step, Main.handle.
    rewrite (mousemove_vars _ _ w Hd H0).
    pose proof (clampViewport_origin
      (viewportX (vars w)
         - (lastMouseX (vars w) - 1 - lastMouseX (vars w)) / CELL_SIZE_PX)
      (viewportY (vars w)
         - (lastMouseY (vars w) - lastMouseY (vars w)) / CELL_SIZE_PX) w) as Ho.
    fold (sentinel (vars w)) in Ho. rewrite Hs in Ho. unfold origin in Ho.
    injection Ho as Hx' Hy'.
    match goal with |- (viewportX (set_lastMouseY _ (set_lastMouseX _ ?S)),
                        viewportY (set_lastMouseY _ (set_lastMouseX _ ?S))) = _ =>
      change (viewportX (set_lastMouseY _ (set_lastMouseX _ S)))
        with (viewportX S);
      change (viewportY (set_lastMouseY _ (set_lastMouseX _ S)))
        with (viewportY S)
    end.
    rewrite Hx', Hy'.
    replace (lastMouseX (vars w) - 1 - lastMouseX (vars w)) with (-1) by lia.
    replace (lastMouseY (vars w) - lastMouseY (vars w)) with 0 by lia.
    unfold CELL_SIZE_PX, CANVAS_SIZE_PX, VIEWPORT_SIZE_CELLS in *.
    change (-1 / (600 / 100)) with (-1). change (0 / (600 / 100)) with 0.
    f_equal; lia.
Qed.

(** *** An empty chunk *)

Lemma pan_input_frozen e w :
  pan_input e = true → mapMaxX (vars w) = 0 →
  mapMaxX (vars (Main.step e w)) = 0 ∧
  mapMinX (vars (Main.step e w)) = mapMinX (vars w) ∧
  origin (Main.step e w) = origin w.
Proof.
  intros He H0. destruct e; try discriminate He;
    unfold Main.step, Main.handle, origin.
  - rewrite Main_render_vars. done.
  - destruct w as [s ? ? ? ? ? ? ?]. destruct s. done.
  - destruct w as [s ? ? ? ? ? ? ?]. destruct s. done.
  - unfold exec. rewrite mousemove_idle by auto. done.
  - unfold exec. rewrite keydown_idle by auto. done.
Qed.

(** X19. A map message with no cells empties the cell table and puts the
    bounds at their start values, the minima at [MAP_SIZE_CELLS] and the
    maxima at 0, but leaves the origin where it was.  From then on the
    mouse and the keyboard cannot move it: whatever is dragged or pressed,
    the origin stays, until a chunk with cells or a reset comes.  Unless
    the origin was (0, 0), it is not where [clampViewport] would put
    it. *)
Theorem empty_chunk_freezes_the_viewport msg es w :
  msg = full_map_init [] ∨ msg = update_map [] →
  Forall (λ e, pan_input e = true) es →
  let w1 := Main.step (Main.WsMessage msg) w in
  let w2 := Main.run es w1 in
  mapCells (vars w1) = ∅ ∧
  mapMinX (vars w1) = MAP_SIZE_CELLS ∧ mapMinY (vars w1) = MAP_SIZE_CELLS ∧
  mapMaxX (vars w1) = 0 ∧ mapMaxY (vars w1) = 0 ∧
  origin w1 = origin w ∧
  origin w2 = origin w ∧
  (origin w ≠ (0, 0) → ¬ clamped w2).
Proof.
  intros Hmsg Hes w1 w2.
  assert (vars w1 = loaded [] (vars w)) as Hv.
  { unfold w1, Main.step, Main.handle.
    destruct Hmsg as [-> | ->]; apply initializeFullMap_vars. }
  assert (mapMaxX (vars w2) = 0 ∧ mapMinX (vars w2) = MAP_SIZE_CELLS ∧
          origin w2 = origin w1) as (H0 & Hmin & Ho).
  { unfold w2. clear w2.
    assert (mapMaxX (vars w1) = 0 ∧ mapMinX (vars w1) = MAP_SIZE_CELLS)
      as [H0 Hmin] by (rewrite Hv; destruct (vars w); done).
    revert H0 Hmin. generalize w1. clear w1 Hv.
    induction es as [|e es IH]; intros w1 H0 Hmin; [done|].
    apply Forall_cons in Hes as [He Hes]. rewrite run_cons.
    destruct (pan_input_frozen e w1 He H0) as (H0' & Hmin' & Ho').
    destruct (IH Hes (Main.step e w1) H0') as (? & ? & ?); [congruence|].
    repeat split; congruence. }
  assert (origin w1 = origin w) as Ho1
    by (unfold origin; rewrite Hv; destruct (vars w); reflexivity).
  rewrite Hv.
  split; [destruct (vars w); reflexivity|].
  split; [destruct (vars w); reflexivity|].
  split; [destruct (vars w); reflexivity|].
  split; [destruct (vars w); reflexivity|].
  split; [destruct (vars w); reflexivity|].
  split; [exact Ho1|]. split; [congruence|].
  intros Hne Hc. apply clamped_iff in Hc.
  rewrite clampViewport_origin, H0, Hmin in Hc. simpl in Hc.
  apply Hne. congruence.
Qed.

End Panning.

(** ** How [render] ends *)

Section Finishes.
Context `{!Browser}.

Lemma finishes_ret {A} s (a : A) : finishes s (mret a) (Ok a).
Proof. eexists. apply acts_ret. Qed.

Lemma finishes_get_bind {A} s (k : state → M A) o :
  finishes s (k s) o → finishes s (get ≫= k) o.
Proof. intros [F HF]. eexists. apply acts_get_bind, HF. Qed.

Lemma finishes_bind_ok {A B} s (m : M A) (k : A → M B) a o :
  finishes s m (Ok a) → finishes s (k a) o → finishes s (m ≫= k) o.
Proof. intros [F1 H1] [F2 H2]. eexists. eapply acts_bind; eassumption. Qed.

Lemma finishes_bind_throw {A B} s (m : M A) (k : A → M B) e :
  finishes s m (Throw e) → finishes s (m ≫= k) (Throw e).
Proof. intros [F1 H1]. eexists. eapply acts_bind_throw, H1. Qed.

Lemma finishes_modify_ctx s f : finishes s (modify_ctx f) (Ok ()).
Proof. eexists. apply acts_modify_ctx. Qed.

Lemma finishes_emit s p : finishes s (emit p) (Ok ()).
Proof. eexists. apply acts_emit. Qed.

Lemma finishes_arc_ok s x y r :
  match r with Some q => Qle_bool 0 q = true | None => True end →
  finishes s (ctx_arc x y r) (Ok ()).
Proof.
  unfold ctx_arc. destruct r as [q|]; [|intros _; apply finishes_ret].
  intros ->. apply finishes_modify_ctx.
Qed.

Lemma finishes_arc_throw s x y q :
  Qle_bool 0 q = false →
  finishes s (ctx_arc x y (Some q)) (Throw "IndexSizeError").
Proof. unfold ctx_arc. intros ->. eexists. apply acts_throw. Qed.

Lemma finishes_forEach {A} s (l : list A) (f : A → M unit) (bad : A → bool) e :
  (∀ a, finishes s (f a) (if bad a then Throw e else Ok ())) →
  finishes s (forEach l f) (if existsb bad l then Throw e else Ok ()).
Proof.
  intros Hf. induction l as [|a l IH]; simpl; [apply finishes_ret|].
  specialize (Hf a). destruct (bad a); simpl.
  - apply finishes_bind_throw, Hf.
  - eapply finishes_bind_ok; [exact Hf|exact IH].
Qed.

End Finishes.

(** Follows drawing code to the end that the goal names. *)
Ltac finishes_tac :=
  lazymatch goal with
  | |- finishes _ (mbind _ _) _ =>
      first [ eapply finishes_bind_ok; [solve [finishes_tac]|cbv beta; finishes_tac]
            | apply finishes_bind_throw; finishes_tac ]
  | |- finishes _ (mret _) _ => apply finishes_ret
  | |- finishes _ (when true ?m) _ => change (when true m) with m; finishes_tac
  | |- finishes _ (when false ?m) _ => apply finishes_ret
  | |- finishes _ (ctx_arc _ _ _) (Ok _) =>
      apply finishes_arc_ok;
      first [exact Logic.I | assumption | vm_compute; reflexivity]
  | |- finishes _ (ctx_arc _ _ _) (Throw _) =>
      apply finishes_arc_throw; assumption
  | |- finishes _ (ctx_clearRect _ _ _ _) _ => apply finishes_emit
  | |- finishes _ (ctx_fillRect _ _ _ _) _ => apply finishes_emit
  | |- finishes _ ctx_fill _ => apply finishes_emit
  | |- finishes _ ctx_stroke _ => apply finishes_emit
  | |- finishes _ _ _ => apply finishes_modify_ctx
  end.

Section RenderEnds.
Context `{!Browser}.

Lemma strict_eq_other (v : option value) a b :
  a ≠ b → strict_eq v (Some a) = true → strict_eq v (Some b) = false.
Proof.
  unfold strict_eq. intros Hne Ha. apply bool_decide_eq_true in Ha.
  apply bool_decide_eq_false. congruence.
Qed.

Lemma render_item_finishes s item :
  finishes s (Main.render_item item)
    (if draws_radius s item && negative_radius item
     then Throw "IndexSizeError" else Ok ()).
Proof.
  unfold Main.render_item, draws_radius, in_view, negative_radius.
  apply finishes_get_bind. cbv zeta.
  destruct (num_ge (ToNumber (prop item "x")) (viewportX s) &&
            num_lt (ToNumber (prop item "x")) (viewportX s + VIEWPORT_SIZE_CELLS) &&
            num_ge (ToNumber (prop item "y")) (viewportY s) &&
            num_lt (ToNumber (prop item "y")) (viewportY s + VIEWPORT_SIZE_CELLS));
    [|apply finishes_ret].
  destruct (strict_eq (selectedAgent s ≫= λ a, prop a "id") (prop item "id")).
  all: destruct (bool_decide (prop item "discovered" ≠ None)).
  all: cbn [negb andb].
  1,3: destruct (truthy (prop item "discovered")); finishes_tac.
  all: destruct (strict_eq (prop item "type") (Some (VStr "rover"))) eqn:Hrover.
  1,3: rewrite (strict_eq_other _ (VStr "rover") (VStr "drone") ltac:(done) Hrover),
         (strict_eq_other _ (VStr "rover") (VStr "base") ltac:(done) Hrover);
       cbn [orb andb]; finishes_tac.
  all: destruct (strict_eq (prop item "type") (Some (VStr "drone"))) eqn:Hdrone.
  1,3: cbn [orb andb];
       destruct (Main.radius_px item) as [r|];
       [destruct (Qle_bool 0 r) eqn:Hr|]; cbn [negb]; finishes_tac.
  all: destruct (strict_eq (prop item "type") (Some (VStr "base"))) eqn:Hbase.
  1,3: cbn [orb andb];
       destruct (Main.radius_px item) as [r|];
       [destruct (Qle_bool 0 r) eqn:Hr|]; cbn [negb]; finishes_tac.
  all: cbn [orb andb]; finishes_tac.
Qed.

Lemma render_outcome s :
  ∃ c ops,
    paints s (λ _, True) Main.render
      (if existsb (λ item, draws_radius s item && negative_radius item)
            (resources s ++ agents s)
       then Throw "IndexSizeError" else Ok ())
      (λ _, c) ops.
Proof.
  destruct (finishes_forEach s (resources s ++ agents s) Main.render_item
              (λ item, draws_radius s item && negative_radius item)
              "IndexSizeError" (render_item_finishes s)) as (F & Hitems).
  unfold Main.render.
  eapply (render_shape_paints s Main.render_cell).
  - apply Main_render_cell_paints.
  - apply acts_get_bind. exact Hitems.
Qed.


Lemma Part000_render_item_finishes s item :
  finishes s (Part000.render_item item)
    (if Part000_negative_radius s item
     then Throw "IndexSizeError" else Ok ()).
Proof.
  unfold Part000.render_item, Part000_negative_radius, in_view.
  apply finishes_get_bind. cbv zeta.
  destruct (num_ge (ToNumber (prop item "x")) (viewportX s) &&
            num_lt (ToNumber (prop item "x")) (viewportX s + VIEWPORT_SIZE_CELLS) &&
            num_ge (ToNumber (prop item "y")) (viewportY s) &&
            num_lt (ToNumber (prop item "y")) (viewportY s + VIEWPORT_SIZE_CELLS));
    [|apply finishes_ret].
  cbn [andb].
  destruct (strict_eq (prop item "type") (Some (VStr "storm")) ||
            strict_eq (prop item "type") (Some (VStr "rock"))) eqn:Hhaz.
  { destruct (strict_eq (prop item "type") (Some (VStr "storm")));
      (destruct (Part000.radius_px item 1) as [r|];
       [destruct (Qle_bool 0 r) eqn:Hr|]); cbn [negb]; finishes_tac. }
  destruct (strict_eq (selectedAgent s ≫= λ a, prop a "id") (prop item "id")).
  all: destruct (bool_decide (prop item "discovered" ≠ None)).
  all: cbn [negb andb].
  1,3: destruct (truthy (prop item "discovered")); finishes_tac.
  all: destruct (strict_eq (prop item "type") (Some (VStr "rover"))) eqn:Hrover.
  1,3: rewrite (strict_eq_other _ (VStr "rover") (VStr "base") ltac:(done) Hrover);
       cbn [orb andb]; finishes_tac.
  all: destruct (strict_eq (prop item "type") (Some (VStr "drone"))) eqn:Hdrone.
  1,3: rewrite (strict_eq_other _ (VStr "drone") (VStr "base") ltac:(done) Hdrone);
       cbn [orb andb]; finishes_tac.
  all: destruct (strict_eq (prop item "type") (Some (VStr "base"))) eqn:Hbase.
  1,3: cbn [orb andb];
       destruct (Part000.radius_px item 5) as [r|];
       [destruct (Qle_bool 0 r) eqn:Hr|]; cbn [negb]; finishes_tac.
  all: cbn [orb andb]; finishes_tac.
Qed.

Lemma Part000_render_outcome s :
  ∃ c ops,
    paints s (λ _, True) Part000.render
      (if existsb (Part000_negative_radius s)
            (hazards s ++ resources s ++ agents s)
       then Throw "IndexSizeError" else Ok ())
      (λ _, c) ops.
Proof.
  destruct (finishes_forEach s (hazards s ++ resources s ++ agents s)
              Part000.render_item (Part000_negative_radius s)
              "IndexSizeError" (Part000_render_item_finishes s))
    as (F & Hitems).
  unfold Part000.render.
  eapply (render_shape_paints s Part000.render_cell).
  - apply Part000_render_cell_paints.
  - apply acts_get_bind. exact Hitems.
Qed.


End RenderEnds.

(** ** What [render] reads *)

Section Transfers.
Context `{!Browser}.
Context (s s' : state).

Lemma transfers_ret {A} (a : A) : transfers s s' (mret a) (mret a).
Proof. intros w Hw. split; [reflexivity|exact Hw]. Qed.

Lemma transfers_throw {A} e : transfers s s' (throw e : M A) (throw e).
Proof. intros w Hw. split; [reflexivity|exact Hw]. Qed.

Lemma transfers_bind {A B} (m m' : M A) (k k' : A → M B) :
  transfers s s' m m' → (∀ a, transfers s s' (k a) (k' a)) →
  transfers s s' (m ≫= k) (m' ≫= k').
Proof.
  intros Hm Hk w Hw. destruct (Hm w Hw) as [E V].
  unfold mbind, M_bind. rewrite E. destruct (m w) as [[a|e] w1]; simpl in *.
  - apply Hk, V.
  - split; [reflexivity|exact V].
Qed.

Lemma transfers_get_bind {A} (k k' : state → M A) :
  transfers s s' (k s) (k' s') → transfers s s' (get ≫= k) (get ≫= k').
Proof.
  intros Hk w Hw. unfold mbind, M_bind, get. simpl. rewrite Hw.
  apply Hk, Hw.
Qed.

Lemma transfers_modify_ctx f : transfers s s' (modify_ctx f) (modify_ctx f).
Proof. intros w Hw. split; [reflexivity|exact Hw]. Qed.

Lemma transfers_emit p : transfers s s' (emit p) (emit p).
Proof. intros w Hw. split; [reflexivity|exact Hw]. Qed.

Lemma transfers_arc x y r : transfers s s' (ctx_arc x y r) (ctx_arc x y r).
Proof.
  unfold ctx_arc. destruct r as [q|]; [|apply transfers_ret].
  destruct (Qle_bool 0 q); [apply transfers_modify_ctx|apply transfers_throw].
Qed.

Lemma transfers_when (b : bool) (m m' : M unit) :
  transfers s s' m m' → transfers s s' (when b m) (when b m').
Proof. intros Hm. destruct b; [exact Hm|apply transfers_ret]. Qed.

Lemma transfers_forEach {A} (l : list A) (f f' : A → M unit) :
  (∀ a, transfers s s' (f a) (f' a)) →
  transfers s s' (forEach l f) (forEach l f').
Proof.
  intros Hf. induction l as [|a l IH]; simpl; [apply transfers_ret|].
  apply transfers_bind; [apply Hf|intros _; exact IH].
Qed.

(** A loop over the items that pass a test does what the loop over all
    items does, when the body does nothing for an item that fails it. *)
Lemma transfers_forEach_filter {A} (p : A → bool) (l : list A)
    (f f' : A → M unit) :
  (∀ a, p a = true → transfers s s' (f a) (f' a)) →
  (∀ a, p a = false → transfers s s' (f a) (mret ())) →
  transfers s s' (forEach l f) (forEach (List.filter p l) f').
Proof.
  intros Hin Hout. induction l as [|a l IH]; simpl; [apply transfers_ret|].
  destruct (p a) eqn:Hp; simpl.
  - apply transfers_bind; [apply Hin, Hp|intros _; exact IH].
  - intros w Hw. destruct (Hout a Hp w Hw) as [E V].
    unfold mbind, M_bind. destruct (f a w) as [[[]|e] w1]; simpl in *.
    + unfold mret, M_ret in E. apply (f_equal snd) in E. cbn [snd] in E.
      rewrite E. apply IH, V.
    + discriminate E.
Qed.

End Transfers.

(** Breaks a goal [transfers s s' m m] down along the structure of [m]. *)
Ltac transfers_step :=
  lazymatch goal with
  | |- transfers _ _ (mbind _ _) (mbind _ _) =>
      apply transfers_bind; [|intros ?]
  | |- transfers _ _ (mret _) _ => apply transfers_ret
  | |- transfers _ _ (throw _) _ => apply transfers_throw
  | |- transfers _ _ (when _ _) _ => apply transfers_when
  | |- transfers _ _ (forEach _ _) _ => apply transfers_forEach; intros ?
  | |- transfers _ _ (match ?x with _ => _ end) _ => destruct x
  | |- transfers _ _ (ctx_arc _ _ _) _ => apply transfers_arc
  | |- transfers _ _ (ctx_clearRect _ _ _ _) _ => apply transfers_emit
  | |- transfers _ _ (ctx_fillRect _ _ _ _) _ => apply transfers_emit
  | |- transfers _ _ ctx_fill _ => apply transfers_emit
  | |- transfers _ _ ctx_stroke _ => apply transfers_emit
  | |- transfers _ _ _ _ => apply transfers_modify_ctx
  end.

Section RenderReads.
Context `{!Browser}.
Context (s s' : state).
Context (Hvx : viewportX s' = viewportX s) (Hvy : viewportY s' = viewportY s).
Context (Hcells : mapCells s' = mapCells s).
Context (Hexp : exploredCells s' = exploredCells s).
Context (Hsel : (selectedAgent s' ≫= λ a, prop a "id")
                = (selectedAgent s ≫= λ a, prop a "id")).

Lemma render_cell_transfers vx vy :
  transfers s s' (Main.render_cell vx vy) (Main.render_cell vx vy).
Proof.
  unfold Main.render_cell. apply transfers_get_bind. cbv beta zeta.
  rewrite Hvx, Hvy, Hcells, Hexp. repeat transfers_step.
Qed.

Lemma render_item_transfers item :
  transfers s s' (Main.render_item item) (Main.render_item item).
Proof.
  unfold Main.render_item. apply transfers_get_bind. cbv beta zeta.
  rewrite Hvx, Hvy, Hsel. repeat transfers_step.
Qed.

Lemma render_item_out_of_view item :
  in_view s item = false →
  transfers s s' (Main.render_item item) (mret ()).
Proof.
  intros Hout w Hw. unfold Main.render_item, mbind, M_bind, get.
  unfold in_view in Hout. rewrite Hw, Hout. split; [reflexivity|exact Hw].
Qed.

Lemma render_transfers :
  transfers s s' (forEach (resources s ++ agents s) Main.render_item)
                 (forEach (resources s' ++ agents s') Main.render_item) →
  transfers s s' Main.render Main.render.
Proof.
  intros Hitems. unfold Main.render, Main.render_grid_line.
  apply transfers_bind; [apply transfers_emit|intros _].
  apply transfers_bind.
  { apply transfers_forEach. intros vx. apply transfers_forEach. intros vy.
    apply render_cell_transfers. }
  intros _.
  apply transfers_bind; [apply transfers_modify_ctx|intros _].
  apply transfers_bind; [apply transfers_modify_ctx|intros _].
  apply transfers_bind.
  { apply transfers_forEach. intros i. repeat transfers_step. }
  intros _. apply transfers_get_bind. exact Hitems.
Qed.

Lemma transfers_picture :
  transfers s s' Main.render Main.render →
  (∀ w, vars w = s →
     Main.render (set_vars s' w)
     = (fst (Main.render w), set_vars s' (snd (Main.render w)))) ∧
  picture Main.render s' = picture Main.render s.
Proof.
  intros Ht. split; [intros w Hw; apply Ht, Hw|].
  unfold picture, exec.
  change (blank s') with (set_vars s' (blank s)).
  rewrite (proj1 (Ht (blank s) eq_refl)). simpl.
  destruct (Main.render (blank s)) as [o w1]. destruct w1. reflexivity.
Qed.

End RenderReads.

Section RenderView.
Context `{!Browser}.

(** X22. [render] reads the origin, the cell table, the explored set, the
    resources, the agents and the id of the selected agent, and nothing
    else: on two sets of variables that agree on these it ends in the
    same way, paints the same and leaves the same drawing state.  It
    does not read the hazards, so that in [public/main.js] nothing is
    drawn for them; nor the bounds, the socket, the flags, the drag
    state; and of the selected agent only the id. *)
Theorem render_reads_the_view_only s s' :
  same_view s s' →
  (∀ w, vars w = s →
     Main.render (set_vars s' w)
     = (fst (Main.render w), set_vars s' (snd (Main.render w)))) ∧
  picture Main.render s' = picture Main.render s.
Proof.
  intros (Hvx & Hvy & Hcells & Hexp & Hres & Hag & Hsel).
  apply transfers_picture. apply render_transfers; try assumption.
  rewrite Hres, Hag. apply transfers_forEach. intros item.
  apply render_item_transfers; assumption.
Qed.


End RenderView.

Section CellPaints.
Context `{!Browser}.

Lemma elem_of_range lo n x :
  x ∈ range lo n ↔ lo ≤ x < lo + Z.of_nat n.
Proof.
  unfold range. rewrite list_elem_of_fmap. split.
  - intros (i & -> & Hi). apply elem_of_seq in Hi. lia.
  - intros Hx. exists (Z.to_nat (x - lo)). split; [lia|].
    apply elem_of_seq. lia.
Qed.

(** What one turn of the inner loop paints. *)
Lemma render_cell_canvas s vx vy :
  ∃ t, paints s (λ _, True) (Main.render_cell vx vy) (Ok ())
         (set_fillStyle t) (rev (cell_paints s vx vy)).
Proof.
  unfold Main.render_cell, cell_paints, cell_rect.
  destruct (mapCells s !! cellKey (viewportX s + vx) (viewportY s + vy))
    as [cell|] eqn:Hc.
  - destruct (strict_eq (prop cell "terrain") (Some (VNum 1))) eqn:H1,
      (strict_eq (prop cell "terrain") (Some (VNum (-1)))) eqn:H2,
      (bool_decide (cellKey (viewportX s + vx) (viewportY s + vy)
                      ∈ exploredCells s)) eqn:H3,
      (truthy (prop cell "dust_storm")) eqn:H4;
    eexists;
    (eapply acts_paints;
     [ apply acts_get_bind; cbv beta zeta; rewrite Hc, ?H1, ?H2, ?H3, ?H4;
       repeat acts_step
     | intros [fs ss lw p] _; ctx_simpl; reflexivity ]).
  - eexists.
    eapply acts_paints;
     [ apply acts_get_bind; cbv beta zeta; rewrite Hc; repeat acts_step
     | intros [fs ss lw p] _; ctx_simpl; reflexivity ].
Qed.

(** Once laid on, paints stay: the canvas only grows. *)
Lemma keeps_laid_on_emit ps p : keeps (λ w, laid_on ps (canvas w)) (emit p).
Proof.
  intros w (a & b & Hw). exists (p (ctx w) :: a), b.
  unfold exec. simpl. rewrite Hw. reflexivity.
Qed.

Lemma keeps_laid_on_arc ps x y r :
  keeps (λ w, laid_on ps (canvas w)) (ctx_arc x y r).
Proof.
  unfold ctx_arc. destruct r as [q|]; [|apply keeps_ret].
  destruct (Qle_bool 0 q); intros w Hw; exact Hw.
Qed.

End CellPaints.

(** Settles [keeps (λ w, laid_on ps (canvas w)) m] for drawing code. *)
Ltac keeps_laid_on :=
  repeat keeps_step;
  lazymatch goal with
  | |- keeps _ (ctx_clearRect _ _ _ _) => apply keeps_laid_on_emit
  | |- keeps _ (ctx_fillRect _ _ _ _) => apply keeps_laid_on_emit
  | |- keeps _ ctx_fill => apply keeps_laid_on_emit
  | |- keeps _ ctx_stroke => apply keeps_laid_on_emit
  | |- keeps _ (ctx_arc _ _ _) => apply keeps_laid_on_arc
  | |- keeps _ _ => let w := fresh "w" in let Hw := fresh "Hw" in
                    intros w Hw; exact Hw
  end.

Section WindowCells.
Context `{!Browser}.

(** A loop whose turns return normally and keep [J] establishes [J] when
    one of its turns does. *)
Lemma forEach_establishes {A} s (J : world → Prop) (l : list A)
    (f : A → M unit) a :
  a ∈ l →
  (∀ b, keeps J (f b)) →
  (∀ b w, vars w = s → ∃ w', f b w = (Ok (), w') ∧ vars w' = s) →
  (∀ w, vars w = s → J (exec (f a) w)) →
  ∀ w, vars w = s → J (exec (forEach l f) w).
Proof.
  intros Ha Hk Hok He. induction l as [|b l IH]; [inversion Ha|].
  intros w Hw. destruct (Hok b w Hw) as (w1 & E & Hw1).
  simpl. unfold exec. erewrite run_bind_ok; [|exact E].
  apply elem_of_cons in Ha as [->|Ha].
  - apply (keeps_forEach J l f Hk w1).
    specialize (He w Hw). unfold exec in He. rewrite E in He. exact He.
  - apply (IH Ha w1 Hw1).
Qed.

Lemma paints_ok {A} s (m : M A) a f ops w :
  paints s (λ _, True) m (Ok a) f ops → vars w = s →
  ∃ w', m w = (Ok a, w') ∧ vars w' = s ∧
        canvas w' = ops ++ canvas w.
Proof.
  intros Hp Hw. eexists. split; [apply Hp; done|]. split; [exact Hw|].
  reflexivity.
Qed.

Lemma cells_column_ok s vx w :
  vars w = s →
  ∃ w', forEach (range 0 (Z.to_nat VIEWPORT_SIZE_CELLS))
          (λ vy, Main.render_cell vx vy) w = (Ok (), w') ∧ vars w' = s.
Proof.
  intros Hw.
  destruct (forEach_paints_overwrite s (λ _, True) set_fillStyle
              (range 0 (Z.to_nat VIEWPORT_SIZE_CELLS))
              (λ vy, Main.render_cell vx vy)) as (t & ops & Hp);
    [done|done|intros vy; apply Main_render_cell_paints
    |apply range_nonempty; done|].
  destruct (paints_ok s _ _ _ _ w Hp Hw) as (w' & E & Hv & _).
  exists w'. done.
Qed.

Lemma window_cell_laid_on s vx vy :
  0 ≤ vx < VIEWPORT_SIZE_CELLS → 0 ≤ vy < VIEWPORT_SIZE_CELLS →
  laid_on (cell_paints s vx vy) (picture Main.render s).
Proof.
  intros Hvx Hvy.
  set (J := λ w : world, laid_on (cell_paints s vx vy) (canvas w)).
  assert (∀ a b, keeps J (Main.render_cell a b)) as Hkc.
  { intros a b. unfold Main.render_cell. keeps_laid_on. }
  assert (∀ w, vars w = s →
            J (exec (forEach (range 0 (Z.to_nat VIEWPORT_SIZE_CELLS)) (λ vx,
                 forEach (range 0 (Z.to_nat VIEWPORT_SIZE_CELLS)) (λ vy,
                   Main.render_cell vx vy))) w)) as Hloops.
  { apply (forEach_establishes s J _ _ vx).
    - apply elem_of_range. unfold VIEWPORT_SIZE_CELLS in *. lia.
    - intros b. apply keeps_forEach. intros c. apply Hkc.
    - intros b w Hw. apply cells_column_ok, Hw.
    - apply (forEach_establishes s J _ _ vy).
      + apply elem_of_range. unfold VIEWPORT_SIZE_CELLS in *. lia.
      + intros b. apply Hkc.
      + intros b w Hw. destruct (Main_render_cell_paints s vx b) as (t & ops & Hp).
        destruct (paints_ok s _ _ _ _ w Hp Hw) as (w' & E & Hv & _).
        exists w'. done.
      + intros w Hw. destruct (render_cell_canvas s vx vy) as (t & Hp).
        destruct (paints_ok s _ _ _ _ w Hp Hw) as (w' & E & _ & Hcv).
        unfold exec. rewrite E. exists [], (canvas w). exact Hcv. }
  unfold picture, Main.render.
  rewrite exec_bind. cbn [fst].
  match goal with |- context [exec (ctx_clearRect ?a ?b ?c ?d) (blank s)] =>
    set (w1 := exec (ctx_clearRect a b c d) (blank s)) end.
  assert (vars w1 = s) as Hw1 by reflexivity.
  rewrite exec_bind.
  destruct (cells_loop_paints s Main.render_cell (Main_render_cell_paints s))
    as (t & ops & Hp).
  destruct (paints_ok s _ _ _ _ w1 Hp Hw1) as (w2 & E & Hw2 & _).
  specialize (Hloops w1 Hw1). unfold exec in Hloops at 1. rewrite E in Hloops.
  rewrite E. cbn [fst]. unfold exec at 2. rewrite E. cbn [snd] in *.
  assert (keeps J
    (ctx_strokeStyle "#374151";;
     ctx_lineWidth 0.5;;
     forEach (range 0 (Z.to_nat VIEWPORT_SIZE_CELLS + 1)) Main.render_grid_line;;
     s ← get; forEach (resources s ++ agents s) Main.render_item)) as Hrest.
  { unfold Main.render_grid_line, Main.render_item. keeps_laid_on. }
  apply (Hrest w2 Hloops).
Qed.

(** X24. For every cell of the window, [render] lays on the canvas, at the
    square of that cell and one right after the other, the paints of the
    world cell that the origin puts there: for a cell of the table its
    terrain colour, then the explored overlay when the cell is explored,
    then the dust storm overlay when the cell has a dust storm; for a
    coordinate that is not in the table the dark background.  The cell
    at window position (vx, vy) is the world cell at the origin plus
    (vx, vy), and its square starts at the pixel (vx, vy) times the cell
    size.  This holds also when an item makes [render] throw: the cells
    are painted before the items. *)
Theorem render_paints_every_window_cell s vx vy :
  0 ≤ vx < VIEWPORT_SIZE_CELLS → 0 ≤ vy < VIEWPORT_SIZE_CELLS →
  laid_on (cell_paints s vx vy) (picture Main.render s) ∧
  (∀ p, p ∈ cell_paints s vx vy → p ∈ picture Main.render s).
Proof.
  intros Hvx Hvy.
  pose proof (window_cell_laid_on s vx vy Hvx Hvy) as Hl.
  split; [exact Hl|]. intros p Hp. destruct Hl as (a & b & ->).
  apply elem_of_app. right. apply elem_of_app. left.
  apply list_elem_of_In, in_rev. rewrite rev_involutive.
  apply list_elem_of_In, Hp.
Qed.

End WindowCells.

Section Ring.
Context `{!Browser}.

Lemma acts_arc_some s x y q :
  Qle_bool 0 q = true →
  acts s (ctx_arc x y (Some q)) (Ok ())
    (λ k, (set_path (path k ++ [Arc x y q]) k, [])).
Proof. intros Hq. unfold ctx_arc. rewrite Hq. apply acts_modify_ctx. Qed.

Lemma acts_arc_none s x y :
  acts s (ctx_arc x y None) (Ok ()) (λ k, (k, [])).
Proof. apply acts_ret. Qed.

End Ring.

(** Follows the drawing code of an item, one call at a time. *)
Ltac acts_item_step :=
  lazymatch goal with
  | |- acts _ (mbind _ _) _ _ => eapply acts_bind; [|cbv beta]
  | |- acts _ (mret _) _ _ => apply acts_ret
  | |- acts _ (when true ?m) _ _ => change (when true m) with m
  | |- acts _ (when false ?m) _ _ =>
      change (when false m) with (mret () : M unit)
  | |- acts _ (ctx_arc _ _ None) _ _ => apply acts_arc_none
  | |- acts _ (ctx_arc _ _ (Some _)) _ _ =>
      apply acts_arc_some; first [assumption | vm_compute; reflexivity]
  | |- acts _ (ctx_clearRect _ _ _ _) _ _ => apply acts_emit
  | |- acts _ (ctx_fillRect _ _ _ _) _ _ => apply acts_emit
  | |- acts _ ctx_fill _ _ => apply acts_emit
  | |- acts _ ctx_stroke _ _ => apply acts_emit
  | |- acts _ (ctx_strokeStyle "#ffffff") _ _ =>
      apply acts_strokeStyle_literal; vm_compute; reflexivity
  | |- acts _ _ _ _ => apply acts_modify_ctx
  end.

Section RingDrawn.
Context `{!Browser}.

(** An item that is in view and carries the id of the selection, and
    whose radius does not make [arc] throw, ends with the ring. *)
Lemma render_item_ring s item :
  in_view s item = true → selected s item = true →
  draws_radius s item && negative_radius item = false →
  ∃ F, acts s (Main.render_item item) (Ok ()) F ∧
       ∀ c, selection_ring s item ∈ (F c).2.
Proof.
  unfold Main.render_item, draws_radius, in_view, negative_radius, selected,
    selection_ring, item_centre.
  intros Hview Hsel Hbad. rewrite Hview in Hbad. cbn [andb] in Hbad.
  destruct (bool_decide (prop item "discovered" ≠ None)) eqn:Hd;
    [destruct (truthy (prop item "discovered")) eqn:Ht|].
  3: destruct (strict_eq (prop item "type") (Some (VStr "rover"))) eqn:Hrover;
     [|destruct (strict_eq (prop item "type") (Some (VStr "drone"))) eqn:Hdrone;
       [|destruct (strict_eq (prop item "type") (Some (VStr "base"))) eqn:Hbase]].
  all: cbn [negb andb orb] in Hbad.
  all: try (destruct (Main.radius_px item) as [r|] eqn:Hr;
            [destruct (Qle_bool 0 r) eqn:Hq; [|discriminate Hbad]|]).
  all: eexists; split;
    [ apply acts_get_bind; cbv beta zeta;
      rewrite Hview, ?Hd, ?Ht, ?Hrover, ?Hdrone, ?Hbase, Hsel;
      repeat acts_item_step
    | intros [fs ss lw p]; ctx_simpl; apply list_elem_of_here ].
Qed.

Lemma finishes_ok {A} s (m : M A) a w :
  finishes s m (Ok a) → vars w = s →
  ∃ w', m w = (Ok a, w') ∧ vars w' = s.
Proof.
  intros [F HF] Hw. eexists. split; [apply HF, Hw|]. exact Hw.
Qed.

Lemma paints_finishes {A} s (m : M A) o f ops :
  paints s (λ _, True) m o f ops → finishes s m o.
Proof. intros Hp. exists (λ c, (f c, ops)). intros w Hw. apply Hp; done. Qed.

Lemma exec_seq_ok {A B} (m : M A) (k : A → M B) a w w1 :
  m w = (Ok a, w1) → exec (m ≫= k) w = exec (k a) w1.
Proof. intros E. unfold exec. erewrite run_bind_ok; [reflexivity|exact E]. Qed.

Lemma existsb_never {A} (l : list A) : existsb (λ _, false) l = false.
Proof. induction l; [reflexivity|exact IHl]. Qed.

(** What the loop over the items makes true from every world with the
    variables [s], [render] makes true: the code before the loop returns
    normally. *)
Lemma render_reaches_items s (J : world → Prop) :
  (∀ w, vars w = s →
        J (exec (forEach (resources s ++ agents s) Main.render_item) w)) →
  J (exec Main.render (blank s)).
Proof.
  intros Hitems. unfold Main.render.
  erewrite exec_seq_ok; [|reflexivity].
  match goal with |- J (exec _ ?W) => set (w1 := W) end.
  assert (vars w1 = s) as Hw1 by reflexivity.
  destruct (cells_loop_paints s Main.render_cell (Main_render_cell_paints s))
    as (t & ops & Hp).
  destruct (finishes_ok s _ _ w1 (paints_finishes _ _ _ _ _ Hp) Hw1)
    as (w2 & E2 & Hw2).
  rewrite (exec_seq_ok _ _ _ _ _ E2).
  erewrite exec_seq_ok; [|reflexivity].
  erewrite exec_seq_ok; [|reflexivity].
  match goal with |- J (exec _ ?W) => set (w4 := W) end.
  assert (vars w4 = s) as Hw4 by exact Hw2.
  assert (finishes s
            (forEach (range 0 (Z.to_nat VIEWPORT_SIZE_CELLS + 1))
               Main.render_grid_line) (Ok ())) as Hgrid.
  { pose proof (finishes_forEach s
                  (range 0 (Z.to_nat VIEWPORT_SIZE_CELLS + 1))
                  Main.render_grid_line (λ _, false) "") as Hf.
    rewrite existsb_never in Hf. apply Hf. intros i.
    unfold Main.render_grid_line. finishes_tac. }
  destruct (finishes_ok s _ _ w4 Hgrid Hw4) as (w5 & E5 & Hw5).
  rewrite (exec_seq_ok _ _ _ _ _ E5).
  unfold exec, mbind, M_bind, get. rewrite Hw5. apply Hitems, Hw5.
Qed.

(** As [forEach_establishes], for turns that return normally on the items
    of the list. *)
Lemma forEach_establishes_in {A} s (J : world → Prop) (l : list A)
    (f : A → M unit) a :
  a ∈ l →
  (∀ b, keeps J (f b)) →
  (∀ b, b ∈ l → ∀ w, vars w = s → ∃ w', f b w = (Ok (), w') ∧ vars w' = s) →
  (∀ w, vars w = s → J (exec (f a) w)) →
  ∀ w, vars w = s → J (exec (forEach l f) w).
Proof.
  intros Ha Hk Hok He. induction l as [|b l IH]; [inversion Ha|].
  intros w Hw.
  destruct (Hok b (list_elem_of_here _ _) w Hw) as (w1 & E & Hw1).
  simpl. unfold exec. erewrite run_bind_ok; [|exact E].
  apply elem_of_cons in Ha as [->|Ha].
  - apply (keeps_forEach J l f Hk w1).
    specialize (He w Hw). unfold exec in He. rewrite E in He. exact He.
  - apply (IH Ha); [|exact Hw1].
    intros c Hc. apply Hok, list_elem_of_further, Hc.
Qed.

Lemma keeps_elem_emit (q : paint) p : keeps (λ w, q ∈ canvas w) (emit p).
Proof. intros w Hw. unfold exec. simpl. apply list_elem_of_further, Hw. Qed.

Lemma keeps_elem_arc (q : paint) x y r :
  keeps (λ w, q ∈ canvas w) (ctx_arc x y r).
Proof.
  unfold ctx_arc. destruct r as [r'|]; [|apply keeps_ret].
  destruct (Qle_bool 0 r'); intros w Hw; exact Hw.
Qed.

Lemma keeps_elem_render_item (q : paint) item :
  keeps (λ w, q ∈ canvas w) (Main.render_item item).
Proof.
  unfold Main.render_item. repeat keeps_step;
    lazymatch goal with
    | |- keeps _ ctx_fill => apply keeps_elem_emit
    | |- keeps _ ctx_stroke => apply keeps_elem_emit
    | |- keeps _ (ctx_arc _ _ _) => apply keeps_elem_arc
    | |- keeps _ _ => let w := fresh "w" in let Hw := fresh "Hw" in
                      intros w Hw; exact Hw
    end.
Qed.


End RingDrawn.

(** ** The extra properties on examples *)

(** A command button pressed before the socket has ever opened. *)
Lemma frames_need_a_button_and_an_open_socket_witness :
  ws_is_open (vars world0) = false ∧
  sent (Main.step (Main.CommandButton "scan") world0) = sent world0.
Proof.
  split; [reflexivity|].
  apply frames_need_a_button_and_an_open_socket. right. reflexivity.
Defined.

(** The socket opens, a simulation is requested, and the pause/resume
    button is pressed for the first time. *)
Lemma isRunning_is_written_by_the_toggle_only_witness :
  let es := [Main.WsOpen; Main.ConfirmStart "mission.json"] in
  let w := Main.run es world0 in
  Forall (λ e, toggles e = false) es ∧
  simulationStarted (vars w) = true ∧ ws_is_open (vars w) = true ∧
  sent (Main.step Main.ToggleButton w) = sent w ++ [resume_simulation].
Proof.
  intros es w.
  assert (Forall (λ e, toggles e = false) es) as Hes by (repeat constructor).
  assert (simulationStarted (vars w) = true) as Hs by reflexivity.
  assert (ws_is_open (vars w) = true) as Ho by reflexivity.
  destruct isRunning_is_written_by_the_toggle_only as (_ & _ & Hfirst).
  exact (conj Hes (conj Hs (conj Ho (Hfirst es world0 eq_refl Hes Hs Ho)))).
Defined.

(** The socket closes on the page as loaded. *)
Lemma socket_events_keep_the_model_witness :
  socket_event Main.WsClose = true ∧
  canvas (Main.step Main.WsClose world0) = canvas world0 ∧
  agentsList (Main.step Main.WsClose world0) = agentsList world0.
Proof.
  destruct (socket_events_keep_the_model Main.WsClose world0 eq_refl)
    as (_ & Hc & _ & Hl & _).
  exact (conj eq_refl (conj Hc Hl)).
Defined.

(** A hazard report adds to the feed. *)
Lemma feed_is_append_only_witness :
  let e := Main.WsMessage (hazard_detected {["id" := VStr "h1"]}) in
  resets e = false ∧
  ∃ l, messagesContainer (Main.step e world0) = messagesContainer world0 ++ l.
Proof.
  intros e. split; [reflexivity|].
  apply (feed_is_append_only e world0 eq_refl).
Defined.



(** The cell (3, 4) is reported explored a second time. *)
Lemma cell_explored_marks_one_cell_witness :
  let w := blank (set_exploredCells {[cellKey 3 4]} initial_state) in
  let w' := exec (Main.handleMessage (cell_explored 3 4)) w in
  cellKey 3 4 ∈ exploredCells (vars w) ∧ vars w' = vars w.
Proof.
  intros w w'.
  assert (cellKey 3 4 ∈ exploredCells (vars w)) as Hin
    by exact (elem_of_singleton_2 (C := gset string) (cellKey 3 4) _ eq_refl).
  destruct (cell_explored_marks_one_cell 3 4 w) as (_ & _ & Hsame).
  exact (conj Hin (Hsame Hin)).
Defined.

(** An empty chunk removes no explored mark. *)
Lemma stores_only_grow_until_reset_witness :
  let e := Main.WsMessage (full_map_init []) in
  let w := blank (set_exploredCells {[cellKey 3 4]} initial_state) in
  resets e = false ∧ exploredCells (vars w) ⊆ exploredCells (vars (Main.step e w)).
Proof.
  intros e w.
  destruct (stores_only_grow_until_reset e w eq_refl) as (_ & _ & Hx).
  exact (conj eq_refl Hx).
Defined.

(** The same agent reported twice. *)
Lemma ids_stay_distinct_witness :
  let a : obj := {[ "id" := VStr "r1"; "x" := VNum 1 ]} in
  let es := [Main.WsMessage (agent_update a); Main.WsMessage (agent_update a)] in
  NoDup (ids (agents (vars world0))) ∧ NoDup (ids (resources (vars world0))) ∧
  NoDup (ids (agents (vars (Main.run es world0)))).
Proof.
  intros a es.
  assert (NoDup (ids (agents (vars world0)))) as Ha by apply NoDup_nil_2.
  assert (NoDup (ids (resources (vars world0)))) as Hr by apply NoDup_nil_2.
  destruct (ids_stay_distinct es world0 Ha Hr) as (Ha' & _).
  exact (conj Ha (conj Hr Ha')).
Defined.

(** A dust storm reported on the one loaded cell. *)
Lemma map_cell_update_patches_one_cell_witness :
  let c := mkCell 5 5 {["terrain" := VNum 0]} in
  let w := blank (loaded [c] initial_state) in
  let w' :=
    exec (Main.handleMessage
            (map_cell_update 5 5 {["dust_storm" := VBool true]})) w in
  mapCells (vars w) !! cellKey 5 5 = Some (cell_obj c) ∧
  dom (mapCells (vars w')) = dom (mapCells (vars w)) ∧
  ∃ cell', mapCells (vars w') !! cellKey 5 5 = Some cell' ∧
           prop cell' "dust_storm" = Some (VBool true) ∧
           prop cell' "terrain" = Some (VNum 0).
Proof.
  intros c w w'.
  assert (mapCells (vars w) !! cellKey 5 5 = Some (cell_obj c)) as Hold
    by (vm_compute; reflexivity).
  destruct (map_cell_update_patches_one_cell 5 5
              {["dust_storm" := VBool true]} (cell_obj c) w Hold)
    as (_ & (cell' & Hc & Hf) & _ & Hdom & _).
  split; [exact Hold|]. split; [exact Hdom|]. exists cell'.
  split; [exact Hc|]. split; [rewrite Hf; reflexivity|].
  rewrite Hf. reflexivity.
Defined.

(** An agent arrives, and its item in the list is clicked. *)
Lemma agent_panel_in_sync_witness :
  let a : obj := {[ "id" := VStr "r1"; "x" := VNum 1; "y" := VNum 2 ]} in
  let w := Main.run [Main.WsMessage (agent_update a)] world0 in
  agentsList world0 = agents (vars world0) ∧
  agentsList w = agents (vars w).
Proof.
  intros a w.
  destruct (agent_panel_in_sync [Main.WsMessage (agent_update a)] world0
              eq_refl) as (Hsync & _).
  exact (conj eq_refl Hsync).
Defined.



(** A chunk from 200 to 299: the candidate (150, 250). *)
Lemma clampViewport_keeps_the_window_on_the_chunk_witness :
  let w := blank (with_chunk ∅ 200 200 299 299 initial_state) in
  let s' := vars (exec (Main.clampViewport 150 250) w) in
  sentinel (vars w) = false ∧
  mapMinX (vars w) ≤ viewportX s' ∧ viewportX s' + VIEWPORT_SIZE_CELLS - 1 ≤ 299.
Proof.
  intros w s'.
  destruct (clampViewport_keeps_the_window_on_the_chunk 150 250 w)
    as (_ & _ & Hin).
  destruct (Hin eq_refl) as ((Hx & _) & Hwide & _).
  destruct Hwide as (Hmax & _); [vm_compute; congruence|].
  exact (conj eq_refl (conj Hx Hmax)).
Defined.

(** The right arrow on a chunk from 200 to 399, the origin at (200, 200). *)
Lemma arrow_keys_pan_by_one_cell_witness :
  let w := blank (set_viewportY 200 (set_viewportX 200
                    (with_chunk ∅ 200 200 399 399 initial_state))) in
  let w' := Main.step (Main.KeyDown "ArrowRight") w in
  mapMaxX (vars w) ≠ 0 ∧ arrow "ArrowRight" = Some (1, 0) ∧ clamped w ∧
  viewportX (vars w') = 201 ∧ clamped w'.
Proof.
  intros w w'.
  assert (mapMaxX (vars w) ≠ 0) as H0 by discriminate.
  assert (arrow "ArrowRight" = Some (1, 0)) as Hk by reflexivity.
  assert (clamped w) as Hc by (vm_compute; reflexivity).
  destruct (arrow_keys_pan_by_one_cell "ArrowRight" w) as (_ & Hpan).
  destruct (Hpan 1 0 H0 Hk Hc) as (Hc' & _ & _ & _ & Hx & _).
  split; [exact H0|]. split; [exact Hk|]. split; [exact Hc|].
  split; [|exact Hc'].
  apply Hx. vm_compute. split; congruence.
Defined.

(** Three moves of five pixels each, right and down, the button held. *)
Lemma slow_drags_never_pan_witness :
  let w := blank (set_isDragging true (set_viewportY 200 (set_viewportX 200
                    (with_chunk ∅ 200 200 399 399 initial_state)))) in
  let ps := [(5, 5); (10, 10); (15, 15)] in
  clamped w ∧ slow_path (lastMouseX (vars w)) (lastMouseY (vars w)) ps ∧
  origin (Main.run ((λ p, Main.MouseMove p.1 p.2) <$> ps) w) = (200, 200).
Proof.
  intros w ps.
  assert (clamped w) as Hc by (vm_compute; reflexivity).
  assert (slow_path (lastMouseX (vars w)) (lastMouseY (vars w)) ps) as Hp
    by (vm_compute; repeat split; congruence).
  destruct (slow_drags_never_pan w Hc) as (Hslow & _).
  exact (conj Hc (conj Hp (Hslow ps Hp))).
Defined.

(** An empty chunk with the origin at (200, 200), then key and mouse. *)
Lemma empty_chunk_freezes_the_viewport_witness :
  let w := blank (set_viewportY 200 (set_viewportX 200 initial_state)) in
  let es := [Main.KeyDown "ArrowRight"; Main.MouseDown 0 0;
             Main.MouseMove 60 60] in
  let w2 := Main.run es (Main.step (Main.WsMessage (full_map_init [])) w) in
  Forall (λ e, pan_input e = true) es ∧
  origin w2 = (200, 200) ∧ ¬ clamped w2.
Proof.
  intros w es w2.
  assert (Forall (λ e, pan_input e = true) es) as Hes by (repeat constructor).
  destruct (empty_chunk_freezes_the_viewport (full_map_init []) es w
              (or_introl eq_refl) Hes) as (_ & _ & _ & _ & _ & _ & Ho & Hn).
  split; [exact Hes|]. split; [exact Ho|].
  apply Hn. discriminate.
Defined.



(** The socket state and a hazard do not show in the picture. *)
Lemma render_reads_the_view_only_witness :
  let s' := set_hazards [{["id" := VStr "h1"]}]
              (set_ws (Some OPEN) initial_state) in
  same_view initial_state s' ∧
  picture Main.render s' = picture Main.render initial_state.
Proof.
  intros s'.
  assert (same_view initial_state s') as Hv
    by (unfold same_view; repeat split; reflexivity).
  destruct (render_reads_the_view_only initial_state s' Hv) as (_ & Hp).
  exact (conj Hv Hp).
Defined.

(** One loaded cell of bright terrain, at the origin of the window. *)
Lemma render_paints_every_window_cell_witness :
  let s := loaded [mkCell 5 5 {["terrain" := VNum 1]}] initial_state in
  0 ≤ 0 < VIEWPORT_SIZE_CELLS ∧
  cell_paints s 0 0 = [cell_rect 0 0 "rgba(209, 213, 219, 0.2)"] ∧
  cell_rect 0 0 "rgba(209, 213, 219, 0.2)" ∈ picture Main.render s.
Proof.
  intros s.
  assert (0 ≤ 0 < VIEWPORT_SIZE_CELLS) as H0 by (vm_compute; split; congruence).
  assert (cell_paints s 0 0 = [cell_rect 0 0 "rgba(209, 213, 219, 0.2)"])
    as Hc by (vm_compute; reflexivity).
  destruct (render_paints_every_window_cell s 0 0 H0 H0) as (_ & Hin).
  split; [exact H0|]. split; [exact Hc|].
  apply Hin. rewrite Hc. apply list_elem_of_here.
Defined.

